(** * The tool-invocation loop of the MCP client

  A shallow embedding of [client/mcp_client.py] (class [MCPClient]:
  [process_query], [_format_tool_result], [log_conversation]) and of
  [client/language_model.py] ([LanguageModelClient.create_system_message],
  [generate_completion]), with the properties of the specification
  stated over it. *)

From Stdlib Require Import Ascii String NArith ZArith Lia.
From stdpp Require Import base option list sorting strings gmap pretty.

Local Open Scope stdpp_scope.
Set Warnings "-register-all".

(** ** Python [str]

  A text is a [string] whose characters are the code points
  U+0000 to U+00FF.  The character classes below are the ones of Python 3
  on that range ([str] patterns of [re] are Unicode-aware). *)
Module Text.

Definition code (c : ascii) : N := N_of_ascii c.

Definition between (lo hi : N) (c : ascii) : bool :=
  ((lo <=? code c) && (code c <=? hi))%N.

(** [A-Za-z0-9_] *)
Definition is_ascii_word (c : ascii) : bool :=
  between 48 57 c || between 65 90 c || between 97 122 c
  || (code c =? 95)%N.

(** [\w] of a [str] pattern: alphanumeric (alphabetic, decimal, digit or
    numeric) code points and the underscore. *)
Definition is_word (c : ascii) : bool :=
  is_ascii_word c
  || (code c =? 170)%N || between 178 179 c || (code c =? 181)%N
  || between 185 186 c || between 188 190 c
  || between 192 214 c || between 216 246 c || between 248 255 c.

(** [.] without [re.DOTALL]: anything but a newline. *)
Definition is_dot (c : ascii) : bool := negb (code c =? 10)%N.

(** [str.isspace] on one character. *)
Definition is_space (c : ascii) : bool :=
  between 9 13 c || between 28 32 c || (code c =? 133)%N
  || (code c =? 160)%N.

(** [str.lower] on one character. *)
Definition lower_char (c : ascii) : ascii :=
  if between 65 90 c
     || (between 192 222 c && negb (code c =? 215)%N)
  then ascii_of_N (code c + 32) else c.

Fixpoint lower (s : string) : string :=
  match s with
  | "" => ""
  | String c s' => String (lower_char c) (lower s')
  end.

(** [s.startswith(p)], returning what follows the prefix. *)
Fixpoint after_prefix (p s : string) : option string :=
  match p, s with
  | "", _ => Some s
  | String a p', String b s' =>
      if Ascii.eqb a b then after_prefix p' s' else None
  | String _ _, "" => None
  end.

Definition startswith (p s : string) : bool :=
  bool_decide (is_Some (after_prefix p s)).

(** [p in s] *)
Fixpoint contains (p s : string) : bool :=
  startswith p s ||
  match s with
  | "" => false
  | String _ s' => contains p s'
  end.

Fixpoint lstrip (s : string) : string :=
  match s with
  | "" => ""
  | String c s' => if is_space c then lstrip s' else s
  end.

Fixpoint rstrip (s : string) : string :=
  match s with
  | "" => ""
  | String c s' =>
      match rstrip s' with
      | "" => if is_space c then "" else String c ""
      | r => String c r
      end
  end.

(** [s.strip()] *)
Definition strip (s : string) : string := rstrip (lstrip s).

(** [sep.join(l)] on a list of [str] *)
Fixpoint join (sep : string) (l : list string) : string :=
  match l with
  | [] => ""
  | [s] => s
  | s :: l' => s +:+ sep +:+ join sep l'
  end.

End Text.

(** ** The call syntax

  [re.findall(r'<function=(\w+)\{(.*?)\}>', text)] *)
Module Re.
Import Text.

(** [\w*], greedy: the longest run of word characters and what follows. *)
Fixpoint word_run (s : string) : string * string :=
  match s with
  | "" => ("", "")
  | String c s' =>
      if is_word c
      then let '(w, r) := word_run s' in (String c w, r)
      else ("", s)
  end.

(** [(.*?)close], lazy: at each position the closing literal is tried
    first, and one more non-newline character is taken only when it does
    not match. *)
Fixpoint lazy_dots (close s : string) : option (string * string) :=
  match after_prefix close s with
  | Some rest => Some ("", rest)
  | None =>
      match s with
      | "" => None
      | String c s' =>
          if is_dot c
          then '(a, r) ← lazy_dots close s'; Some (String c a, r)
          else None
      end
  end.

(** One attempt of [function_pattern] at the start of [s]: the two groups
    and the text after the match.  [{] is no word character, so the greedy
    [\w+] can only stop at the end of the run: giving characters back never
    lets [\{] match. *)
Definition function_pattern (s : string)
  : option (string * string * string) :=
  s1 ← after_prefix "<function=" s;
  let '(name, s2) := word_run s1 in
  if decide (name = "") then None
  else
    s3 ← after_prefix "{" s2;
    '(args, rest) ← lazy_dots "}>" s3;
    Some (name, args, rest).

(** The scan of [re.findall]: leftmost match first, then on from the end
    of that match; one character further where the pattern does not
    match. *)
Fixpoint findall_from (fuel : nat) (s : string) : list (string * string) :=
  match fuel with
  | 0 => []
  | S fuel' =>
      match function_pattern s with
      | Some (name, args, rest) => (name, args) :: findall_from fuel' rest
      | None =>
          match s with
          | "" => []
          | String _ s' => findall_from fuel' s'
          end
      end
  end.

Definition findall (text : string) : list (string * string) :=
  findall_from (S (String.length text)) text.

(** *** The call syntax, declaratively *)

Fixpoint all_chars (p : ascii → bool) (s : string) : bool :=
  match s with
  | "" => true
  | String c s' => p c && all_chars p s'
  end.

(** The text of one call: [<function=name{args}>]. *)
Definition fragment (name args : string) : string :=
  "<function=" +:+ name +:+ "{" +:+ args +:+ "}>".

(** [\w+] *)
Definition identifier (name : string) : Prop :=
  name ≠ "" ∧ all_chars is_word name = true.

(** [.*] *)
Definition one_line (args : string) : Prop := all_chars is_dot args = true.

(** The pattern matches at the start of [s]. *)
Definition starts_call (s : string) : Prop :=
  ∃ name args rest,
    identifier name ∧ one_line args ∧ s = fragment name args +:+ rest.

(** [scan text l]: [l] lists the calls of [text] from left to right, each
    the leftmost one after the end of the one before, with the shortest
    possible argument text. *)
Inductive scan : string → list (string * string) → Prop :=
| scan_done s :
    (∀ pre suf, s = pre +:+ suf → ¬ starts_call suf) →
    scan s []
| scan_call pre name args rest l :
    (∀ p q, pre = p +:+ q → q ≠ "" →
            ¬ starts_call (q +:+ fragment name args +:+ rest)) →
    identifier name →
    one_line args →
    contains "}>" args = false →
    scan rest l →
    scan (pre +:+ fragment name args +:+ rest) ((name, args) :: l).

End Re.


(** ** Python values, exceptions and results *)
Module Py.

(** The values a tool result is made of.  [VObj cls text] is an instance of
    class [cls] (a content item of the tool protocol, say); [text] is its
    [text] attribute when it has one. *)
Inductive pyval :=
| VNone
| VBool (b : bool)
| VInt (z : Z)
| VStr (s : string)
| VList (l : list pyval)
| VDict (d : list (string * pyval))
| VObj (cls : string) (text : option pyval).

(** A raised exception, an instance of [Exception] (what the [except
    Exception] clauses of the client catch; interrupts and cancellation,
    which are no such instances, are outside the model).  [exc_str] is what
    [str(e)] gives. *)
Record exn := Exn { exc_type : string; exc_str : string }.

(** What a call gives: a value, or a raised exception. *)
Inductive result (A : Type) :=
| Ok (a : A)
| Err (e : exn).
Arguments Ok {A} a.
Arguments Err {A} e.

Global Instance result_ret : MRet result := @Ok.
Global Instance result_bind : MBind result := λ A B k r,
  match r with
  | Ok a => k a
  | Err e => Err e
  end.

(** [d.get(k)] / [k in d] on a dict with [str] keys. *)
Fixpoint dict_get (k : string) (d : list (string * pyval)) : option pyval :=
  match d with
  | [] => None
  | (k', v) :: d' => if decide (k = k') then Some v else dict_get k d'
  end.

(** [type(v).__name__] *)
Definition type_name (v : pyval) : string :=
  match v with
  | VNone => "NoneType"
  | VBool _ => "bool"
  | VInt _ => "int"
  | VStr _ => "str"
  | VList _ => "list"
  | VDict _ => "dict"
  | VObj cls _ => cls
  end.

(** [sep.join(items)]: a [TypeError] at the first item that is no [str]. *)
Fixpoint join_from (i : nat) (sep : string) (items : list pyval)
  : result string :=
  match items with
  | [] => Ok ""
  | VStr s :: items' =>
      rest ← join_from (S i) sep items';
      Ok (match items' with [] => s | _ => s +:+ sep +:+ rest end)
  | v :: _ =>
      Err (Exn "TypeError"
             ("sequence item " +:+ pretty i +:+ ": expected str instance, "
              +:+ type_name v +:+ " found"))
  end.

Definition join (sep : string) (items : list pyval) : result string :=
  join_from 0 sep items.

End Py.
Export Py.


(** A message is a dict with [str] keys; every value this client stores in
    one is a [str]. *)
Abbreviation msg := (gmap string string).

(** The double quote, and a text between double quotes. *)
Definition dquote : string := String "034"%char "".
Definition quoted (s : string) : string := dquote +:+ s +:+ dquote.

(** ** [LanguageModelClient.create_system_message] *)
Definition create_system_message (tool_names : list string) : msg :=
  let available_tools_str :=
    Text.join ", " ((λ name, "`" +:+ name +:+ "`") <$> tool_names) in
  let content := "You are a helpful assistant for the Vespucci.ai platform. " in
  let content :=
    match tool_names with
    | [] => content
    | _ :: _ =>
        content
        +:+ "You have access to the following MCP tools: "
        +:+ available_tools_str +:+ ". "
        +:+ "These tools can help you gather information and perform various tasks. "
        +:+ "To use tools, format your response like this: <function=tool_name{"
        +:+ quoted "param" +:+ ":" +:+ quoted "value" +:+ "}>. "
        +:+ "For example, to search for information, use: <function=search{"
        +:+ quoted "query" +:+ ":" +:+ quoted "your search query" +:+ ","
        +:+ quoted "searchType" +:+ ":" +:+ quoted "web" +:+ "}>. "
        +:+ "Always include explanatory text along with any function calls. "
        +:+ "IMPORTANT: ONLY use the specific tool names listed above: "
        +:+ available_tools_str +:+ ". "
        +:+ "Do not invent or try to use tools that aren't in this list."
    end in
  {[ "role" := "system"; "content" := content ]}.

(** The reminder [generate_completion] adds to the system message. *)
Definition tool_reminder : string :=
  " For queries that require searching for information or performing specific tasks, "
  +:+ "please use the available tools to get real-time information. "
  +:+ "Always use <function=tool_name{...}> syntax when appropriate.".

Definition tool_terms : list string :=
  ["search"; "find"; "lookup"; "information"; "data"; "how to"; "what is"].

(** An entry of [self.tools]. *)
Record tool := Tool {
  name : string;
  description : string;
  input_schema : pyval
}.

(** [msg.get("role") == r] *)
Definition role_is (r : string) (m : msg) : bool :=
  bool_decide (m !! "role" = Some r).

(** What [log_conversation] keeps of one message. *)
Definition serializable_message (message : msg) : result msg :=
  match message !! "role" with
  | None => Err (Exn "KeyError" "'role'")
  | Some role =>
      let m := {[ "role" := role ]} : msg in
      let m := <["content" := default "" (message !! "content")]> m in
      let m := match message !! "tool_calls" with
               | Some v => <["tool_calls" := v]> m
               | None => m
               end in
      let m := match message !! "tool_call_id" with
               | Some v => <["tool_call_id" := v]> m
               | None => m
               end in
      Ok m
  end.

Fixpoint serializable_conversation (conv : list msg) : result (list msg) :=
  match conv with
  | [] => Ok []
  | message :: conv' =>
      m ← serializable_message message;
      ms ← serializable_conversation conv';
      Ok (m :: ms)
  end.

(** What the client did, in order.  The trace is written and never read: it
    is there to state what a run handed to its collaborators. *)
Inductive event :=
| Generate (handed sent : list msg)
| Log (conversation : list msg)
| CallTool (tool_name : string) (tool_args : pyval).

(** ** The client *)
Section Client.

(** The collaborators of the client, each with a state of its own: the
    completion service, the tool session and the file system. *)
Context {P T L : Type}.

(** [self.llm.chat.completions.create] with the request parameters, read at
    [response.choices[0].message.content]. *)
Variable chat_completions_create :
  list msg → P → result (option string) * P.

(** [self.session.call_tool(name, args)], read at [result.content]. *)
Variable call_tool : string → pyval → T → result pyval * T.

(** The file-system part of [log_conversation]: [os.makedirs], [open] and
    [json.dump] of the serialisable conversation. *)
Variable write_conversation : list msg → L → result unit * L.

(** [json.loads], [json.dumps(_, indent=2)] and the built-in [str] on a
    value that is no [str]. *)
Variable json_loads : string → result pyval.
Variable json_dumps : pyval → result string.
Variable builtin_str : pyval → result string.

(** The client object and the objects it refers to.  Message dicts live in
    [heap] and are named by their index in it; [self_messages] is the list
    [self.messages] of such references; [llm], [session] and [files] are
    the states of the collaborators; [trace] lists what the client did so
    far. *)
Record state := State {
  heap : list msg;
  self_messages : list nat;
  self_tools : list tool;
  llm : P;
  session : T;
  files : L;
  trace : list event
}.

Definition set_heap (h : list msg) (s : state) : state :=
  State h (self_messages s) (self_tools s) (llm s) (session s) (files s)
    (trace s).
Definition set_messages (l : list nat) (s : state) : state :=
  State (heap s) l (self_tools s) (llm s) (session s) (files s) (trace s).
Definition set_llm (p : P) (s : state) : state :=
  State (heap s) (self_messages s) (self_tools s) p (session s) (files s)
    (trace s).
Definition set_session (t : T) (s : state) : state :=
  State (heap s) (self_messages s) (self_tools s) (llm s) t (files s)
    (trace s).
Definition set_files (l : L) (s : state) : state :=
  State (heap s) (self_messages s) (self_tools s) (llm s) (session s) l
    (trace s).
Definition set_trace (tr : list event) (s : state) : state :=
  State (heap s) (self_messages s) (self_tools s) (llm s) (session s)
    (files s) tr.

(** The dict a reference names. *)
Definition deref (h : list msg) (l : nat) : msg := default ∅ (h !! l).

(** The conversation as a reader of [self.messages] sees it. *)
Definition conversation (s : state) : list msg :=
  deref (heap s) <$> self_messages s.

(** A computation of the client: it ends with a value or a raised
    exception, or is cut off when the loop runs out of fuel ([None]). *)
Definition M (A : Type) : Type := state → option (result A) * state.

#[global] Instance M_ret : MRet M := λ A a s, (Some (Ok a), s).
#[global] Instance M_bind : MBind M := λ A B k m s,
  match m s with
  | (Some (Ok a), s') => k a s'
  | (Some (Err e), s') => (Some (Err e), s')
  | (None, s') => (None, s')
  end.

Definition raise {A} (e : exn) : M A := λ s, (Some (Err e), s).
Definition cut_off {A} : M A := λ s, (None, s).
Definition lift {A} (r : result A) : M A := λ s, (Some r, s).
Definition gets {A} (f : state → A) : M A := λ s, (Some (Ok (f s)), s).
Definition modify (f : state → state) : M unit := λ s, (Some (Ok tt), f s).

(** [try: body except Exception as e: handler e] *)
Definition try_except {A} (body : M A) (handler : exn → M A) : M A := λ s,
  match body s with
  | (Some (Err e), s') => handler e s'
  | r => r
  end.

(** [for x in l: body x] *)
Fixpoint for_each {A} (l : list A) (body : A → M unit) : M unit :=
  match l with
  | [] => mret tt
  | x :: l' => body x;; for_each l' body
  end.

(** A dict display: a new object. *)
Definition new_dict (m : msg) : M nat := λ s,
  (Some (Ok (length (heap s))), set_heap (heap s ++ [m]) s).

(** [self.messages.append(m)] *)
Definition append (m : nat) : M unit :=
  modify (λ s, set_messages (self_messages s ++ [m]) s).

Definition record (ev : event) : M unit :=
  modify (λ s, set_trace (trace s ++ [ev]) s).

(** The calls to the collaborators. *)
Definition completions_create (sent : list msg) : M (option string) := λ s,
  let '(r, p) := chat_completions_create sent (llm s) in
  (Some r, set_llm p s).
Definition session_call_tool (tool_name : string) (tool_args : pyval)
  : M pyval := λ s,
  let '(r, t) := call_tool tool_name tool_args (session s) in
  (Some r, set_session t s).
Definition dump_conversation (serializable : list msg) : M unit := λ s,
  let '(r, l) := write_conversation serializable (files s) in
  (Some r, set_files l s).

(** *** [LanguageModelClient.generate_completion] *)

(** The content of the last [user] message, lowered. *)
Definition last_user_msg (msgs : list msg) : option string :=
  m ← head (filter (λ m, role_is "user" m = true) (reverse msgs));
  Some (Text.lower (default "" (m !! "content"))).

Definition wants_tools (msgs : list msg) (tools : list tool) : bool :=
  bool_decide (3 ≤ length msgs)
  && bool_decide (tools ≠ [])
  && match last_user_msg msgs with
     | Some text =>
         bool_decide (text ≠ "")
         && existsb (λ term, Text.contains term text) tool_terms
     | None => false
     end.

(** [messages_copy[i]["content"] += tool_reminder] at the first system
    message. *)
Fixpoint remind (messages_copy : list nat) : M unit :=
  match messages_copy with
  | [] => mret tt
  | l :: rest =>
      h ← gets heap;
      if role_is "system" (deref h l) then
        match deref h l !! "content" with
        | Some c =>
            modify (λ s,
              set_heap (<[l := <["content" := c +:+ tool_reminder]>
                                 (deref (heap s) l)]> (heap s)) s)
        | None => raise (Exn "KeyError" "'content'")
        end
      else remind rest
  end.

Definition generate_completion (messages : list nat) (tools : list tool)
  : M (option string) :=
  try_except
    (h ← gets heap;
     let handed := deref h <$> messages in
     (* messages_copy = messages.copy() *)
     let messages_copy := messages in
     let tool_names := name <$> tools in
     messages_copy ←
       (if existsb (role_is "system") (deref h <$> messages_copy)
        then mret messages_copy
        else
          system_message ← new_dict (create_system_message tool_names);
          mret (system_message :: messages_copy));
     h ← gets heap;
     let should_encourage_tools :=
       wants_tools (deref h <$> messages_copy) tools in
     (if should_encourage_tools then remind messages_copy else mret tt);;
     h ← gets heap;
     let sent := deref h <$> messages_copy in
     record (Generate handed sent);;
     completions_create sent)
    (λ e, raise e).

(** *** [MCPClient._format_tool_result] *)

(** [try: str(v) except: placeholder] *)
Definition str_or (placeholder : string) (v : pyval) : pyval :=
  match v with
  | VStr _ => v
  | _ => match builtin_str v with
         | Ok s => VStr s
         | Err _ => VStr placeholder
         end
  end.

(** What one item of a list contributes. *)
Definition item_text (item : pyval) : pyval :=
  match item with
  | VObj _ (Some text) => text
  | VDict d =>
      match dict_get "text" d with
      | Some text => text
      | None => str_or "[Unprintable item]" item
      end
  | _ => str_or "[Unprintable item]" item
  end.

Definition format_tool_result (content : pyval) : result pyval :=
  match content with
  | VNone => Ok (VStr "")
  | VStr _ => Ok content
  | VList items =>
      s ← Py.join (String "010"%char "") (item_text <$> items);
      Ok (VStr s)
  | VDict d =>
      match dict_get "text" d with
      | Some text => Ok text
      | None =>
          match json_dumps content with
          | Ok s => Ok (VStr s)
          | Err _ => Ok (str_or "[Unprintable content]" content)
          end
      end
  | _ => Ok (str_or "[Unprintable content]" content)
  end.

(** A replacement field of an f-string: [str] of the value. *)
Definition format_field (v : pyval) : result string :=
  match v with
  | VStr s => Ok s
  | _ => builtin_str v
  end.

(** *** [MCPClient.log_conversation]

  The source creates the directory before it serialises the messages; here
  the steps on the file system are one call, made after the serialisation.
  The two orders raise different exceptions only for a message without a
  role in a directory that cannot be created, and every message the loop
  appends has a role. *)
Definition log_conversation : M unit :=
  conv ← gets conversation;
  record (Log conv);;
  serializable ← lift (serializable_conversation conv);
  dump_conversation serializable.

(** *** [MCPClient.process_query] *)

Definition user_says (content : string) : msg :=
  {[ "role" := "user"; "content" := content ]}.
Definition assistant_says (content : string) : msg :=
  {[ "role" := "assistant"; "content" := content ]}.

Definition tool_result_content (tool_name text : string) : string :=
  "Tool '" +:+ tool_name +:+ "' returned: " +:+ text.
Definition tool_error_content (tool_name : string) (e : exn) : string :=
  "Error using tool '" +:+ tool_name +:+ "': " +:+ exc_str e.
Definition fallback_content (e : exn) : string :=
  "I'm sorry, I encountered an error: " +:+ exc_str e.

(** The argument text as handed to [json.loads]. *)
Definition wrap_args (tool_args_str : string) : string :=
  if Text.startswith "{" (Text.strip tool_args_str) then tool_args_str
  else "{" +:+ tool_args_str +:+ "}".

(** The body of the loop over [function_matches]. *)
Definition process_call (call : string * string) : M unit :=
  let '(tool_name, tool_args_str) := call in
  try_except
    (tool_args ← lift (json_loads (wrap_args tool_args_str));
     record (CallTool tool_name tool_args);;
     content ← session_call_tool tool_name tool_args;
     content ← lift (format_tool_result content);
     text ← lift (format_field content);
     tool_result_message ←
       new_dict (user_says (tool_result_content tool_name text));
     append tool_result_message;;
     log_conversation)
    (λ e,
     tool_error_message ←
       new_dict (user_says (tool_error_content tool_name e));
     append tool_error_message;;
     log_conversation).

(** The [while True] loop, [fuel] rounds of it at most. *)
Fixpoint conversation_loop (fuel : nat) : M unit :=
  match fuel with
  | 0 => cut_off
  | S fuel' =>
      messages ← gets self_messages;
      tools ← gets self_tools;
      response ← generate_completion messages tools;
      let assistant_content := default "" response in
      let function_matches := Re.findall assistant_content in
      match function_matches with
      | [] =>
          assistant_message ← new_dict (assistant_says assistant_content);
          append assistant_message;;
          log_conversation
      | _ :: _ =>
          assistant_message ← new_dict (assistant_says assistant_content);
          append assistant_message;;
          log_conversation;;
          for_each function_matches process_call;;
          conversation_loop fuel'
      end
  end.

(** [process_query]; the value returned is the list [self.messages] as the
    caller reads it.  The statement before the binding of [user_message]
    only writes to the application log, so the handler always finds the
    variable bound. *)
Definition process_query (fuel : nat) (query : string) : M (list msg) :=
  user_message ← new_dict (user_says query);
  try_except
    (modify (set_messages [user_message]);;
     conversation_loop fuel;;
     gets conversation)
    (λ e,
     error_message ← new_dict (assistant_says (fallback_content e));
     conv ← gets conversation;
     (if bool_decide (conv = []) || negb (existsb (role_is "user") conv)
      then modify (set_messages [user_message; error_message])
      else append error_message);;
     gets conversation).

(** *** Vocabulary of the statements *)

(** Every reference of [self.messages] names an object of the heap. *)
Definition wf (s : state) : Prop :=
  Forall (λ l, l < length (heap s)) (self_messages s).

(** The state after [m = {...}; self.messages.append(m)]. *)
Definition pushed (m : msg) (s : state) : state :=
  set_messages (self_messages s ++ [length (heap s)])
    (set_heap (heap s ++ [m]) s).

(** The system message [generate_completion] puts in front of a conversation
    without one, and the list it sends then. *)
Definition system_for (tools : list tool) (conv : list msg) : msg :=
  let sys := create_system_message (name <$> tools) in
  if wants_tools (sys :: conv) tools
  then <["content" := default "" (sys !! "content") +:+ tool_reminder]> sys
  else sys.

Definition request (tools : list tool) (conv : list msg) : list msg :=
  system_for tools conv :: conv.

(** The state after a completion request from [s] that came back with the
    service in state [p]. *)
Definition requested (p : P) (s : state) : state :=
  let sent := request (self_tools s) (conversation s) in
  set_llm p
    (set_trace (trace s ++ [Generate (conversation s) sent])
       (set_heap (heap s ++ [system_for (self_tools s) (conversation s)]) s)).

(** The state after [log_conversation] left the file system in state [l]. *)
Definition logged (l : L) (s : state) : state :=
  set_files l (set_trace (trace s ++ [Log (conversation s)]) s).

(** The messages this client writes: [role] and [content], nothing else. *)
Definition plain (m : msg) : Prop :=
  ∃ c, m = user_says c ∨ m = assistant_says c.

(** The messages the loop appends: a completion (or the answer that reports
    an error), a tool result, a tool error. *)
Inductive written : msg → Prop :=
| written_assistant content : written (assistant_says content)
| written_result tool_name text :
    written (user_says (tool_result_content tool_name text))
| written_error tool_name e :
    written (user_says (tool_error_content tool_name e)).

(** The conversation starts with the query; the loop wrote the rest. *)
Definition seeded (query : string) (s : state) : Prop :=
  wf s
  ∧ ∃ rest, conversation s = user_says query :: rest ∧ Forall written rest.

(** The conversations a trace shows: the lists handed to
    [generate_completion] and the ones [log_conversation] read. *)
Definition snapshot_of (ev : event) : option (list msg) :=
  match ev with
  | Generate handed _ => Some handed
  | Log conv => Some conv
  | CallTool _ _ => None
  end.

Definition snapshots (tr : list event) : list (list msg) :=
  omap snapshot_of tr.

(** Since the trace was [old], every conversation shown is a prefix of the
    ones shown after it and of the current one. *)
Definition chain (old : list event) (s : state) : Prop :=
  ∃ new, trace s = old ++ new
         ∧ StronglySorted prefix (snapshots new ++ [conversation s]).

Definition inv (old : list event) (query : string) (s : state) : Prop :=
  seeded query s ∧ chain old s.

(** The state in which the loop starts: [self.messages = [user_message]]. *)
Definition seed (query : string) (s : state) : state :=
  set_messages [length (heap s)] (set_heap (heap s ++ [user_says query]) s).

(** The lists handed to [generate_completion], round by round. *)
Definition handed_lists (tr : list event) : list (list msg) :=
  omap (λ ev, match ev with
              | Generate handed _ => Some handed
              | _ => None
              end) tr.

(** The file system takes every write. *)
Definition log_writable : Prop :=
  ∀ conv l, (write_conversation conv l).1 = Ok tt.

(** The state after the completion [content] was appended. *)
Definition answered (content : string) (p : P) (s : state) : state :=
  pushed (assistant_says content) (requested p s).

(** The text [process_call] puts in the tool result message. *)
Definition result_text (content : pyval) : result string :=
  v ← format_tool_result content; format_field v.

(** The state after the tool was called. *)
Definition called (tool_name : string) (tool_args : pyval) (s : state)
  : state :=
  set_session (call_tool tool_name tool_args (session s)).2
    (set_trace (trace s ++ [CallTool tool_name tool_args]) s).

(** What the loop appends for the call [call] when the tool session is in
    state [t] and the log can be written, and the state in which the call
    leaves the session: the tool result when the arguments decode, the
    session answers the call and the answer can be formatted; the error
    notice with the exception in every other case. *)
Definition call_outcome (call : string * string) (t : T) : msg * T :=
  match json_loads (wrap_args call.2) with
  | Err e => (user_says (tool_error_content call.1 e), t)
  | Ok args =>
      let out := call_tool call.1 args t in
      (match content ← out.1; result_text content with
       | Ok text => user_says (tool_result_content call.1 text)
       | Err e => user_says (tool_error_content call.1 e)
       end, out.2)
  end.

(** The messages for the calls of one response, each call made in the
    state in which the calls before it left the session. *)
Fixpoint call_outcomes (calls : list (string * string)) (t : T) : list msg :=
  match calls with
  | [] => []
  | call :: calls' =>
      (call_outcome call t).1 :: call_outcomes calls' (call_outcome call t).2
  end.

(** A part of a run without completion requests. *)
Definition quiet (s s' : state) : Prop :=
  self_tools s' = self_tools s ∧ llm s' = llm s
  ∧ ∃ evs, trace s' = trace s ++ evs ∧ handed_lists evs = [].

(** The canonical exchange: the first completion, the arguments of its call,
    what the tool gives, the message that reports it. *)
Definition canonical_args : string := quoted "query" +:+ ":" +:+ quoted "x".
Definition canonical_round1 : string :=
  "Let me check. " +:+ Re.fragment "search" canonical_args.
Definition canonical_payload : pyval := VDict [("text", VStr "42")].
Definition canonical_conversation (q : string) : list msg :=
  [user_says q;
   assistant_says canonical_round1;
   user_says "Tool 'search' returned: 42";
   assistant_says "Here is the answer."].

(** * Properties *)

(** ** Texts *)

Lemma app_nil_l (s : string) : "" +:+ s = s.
Proof. reflexivity. Qed.

Lemma app_cons (c : ascii) (s t : string) :
  String c s +:+ t = String c (s +:+ t).
Proof. reflexivity. Qed.

Lemma app_nil_r (s : string) : s +:+ "" = s.
Proof. induction s as [|c s IH]; [done|]. by rewrite app_cons, IH. Qed.

Lemma app_assoc (s t u : string) : (s +:+ t) +:+ u = s +:+ t +:+ u.
Proof. induction s as [|c s IH]; [done|]. by rewrite !app_cons, IH. Qed.

Lemma app_length (s t : string) :
  String.length (s +:+ t) = String.length s + String.length t.
Proof. induction s as [|c s IH]; [done|]. rewrite app_cons. simpl. lia. Qed.

Lemma after_prefix_Some (p s r : string) :
  Text.after_prefix p s = Some r ↔ s = p +:+ r.
Proof.
  revert s. induction p as [|a p IH]; intros s; simpl.
  - rewrite app_nil_l. split; congruence.
  - destruct s as [|b s]; rewrite app_cons; [split; discriminate|].
    destruct (Ascii.eqb_spec a b) as [->|Hne].
    + rewrite IH. split; congruence.
    + split; [discriminate|]. intros [= ? _]. congruence.
Qed.

Lemma after_prefix_app (p r : string) : Text.after_prefix p (p +:+ r) = Some r.
Proof. by apply after_prefix_Some. Qed.

Lemma all_chars_app (f : ascii → bool) (s t : string) :
  Re.all_chars f (s +:+ t) = Re.all_chars f s && Re.all_chars f t.
Proof.
  induction s as [|c s IH]; [done|]. rewrite app_cons. simpl.
  rewrite IH. by destruct (f c).
Qed.

(** ** The greedy run of word characters *)

(** [s] does not go on with a word character. *)
Definition word_stop (s : string) : Prop :=
  match s with
  | "" => True
  | String c _ => Text.is_word c = false
  end.

Lemma word_run_sound (s w r : string) :
  Re.word_run s = (w, r) →
  s = w +:+ r ∧ Re.all_chars Text.is_word w = true ∧ word_stop r.
Proof.
  revert w r. induction s as [|c s IH]; intros w r; simpl.
  - intros [= <- <-]. done.
  - destruct (Text.is_word c) eqn:Hc.
    + destruct (Re.word_run s) as [w' r'] eqn:Hrun. intros [= <- <-].
      destruct (IH _ _ eq_refl) as (-> & Hw & Hr).
      rewrite app_cons. simpl. by rewrite Hc.
    + intros [= <- <-]. done.
Qed.

Lemma word_run_complete (w r : string) :
  Re.all_chars Text.is_word w = true → word_stop r →
  Re.word_run (w +:+ r) = (w, r).
Proof.
  intros Hw Hr. induction w as [|c w IH].
  - rewrite app_nil_l. destruct r as [|c r]; [done|]. simpl in *. by rewrite Hr.
  - rewrite app_cons. simpl in *. apply andb_true_iff in Hw as [-> Hw].
    by rewrite IH.
Qed.

(** ** The lazy run up to the closing text *)

Lemma lazy_dots_sound (close s a r : string) :
  Re.lazy_dots close s = Some (a, r) →
  s = a +:+ close +:+ r ∧ Re.one_line a
  ∧ ∀ a1 a2, a = a1 +:+ a2 → a2 ≠ "" →
             Text.after_prefix close (a2 +:+ close +:+ r) = None.
Proof.
  revert a r. induction s as [|c s IH]; intros a r; simpl.
  - destruct (Text.after_prefix close "") as [rest|] eqn:Hp; [|done].
    intros [= <- <-]. apply after_prefix_Some in Hp.
    split_and!; [done..|]. intros [|??] a2 Ha Hne; [|done].
    rewrite app_nil_l in Ha. congruence.
  - destruct (Text.after_prefix close (String c s)) as [rest|] eqn:Hp.
    { intros [= <- <-]. apply after_prefix_Some in Hp.
      split_and!; [done..|]. intros [|??] a2 Ha Hne; [|done].
      rewrite app_nil_l in Ha. congruence. }
    destruct (Text.is_dot c) eqn:Hc; [|done].
    destruct (Re.lazy_dots close s) as [[a' r']|] eqn:Hl; [|done].
    simpl. intros [= <- <-].
    destruct (IH _ _ eq_refl) as (-> & Hone & Hmin).
    split_and!; [done| |].
    + unfold Re.one_line in *. simpl. by rewrite Hc.
    + intros [|c1 a1] a2 Ha Hne.
      * rewrite app_nil_l in Ha. subst a2. by rewrite app_cons.
      * rewrite app_cons in Ha. injection Ha as -> Ha. eauto.
Qed.

Lemma lazy_dots_eq (close s : string) :
  Re.lazy_dots close s =
  match Text.after_prefix close s with
  | Some rest => Some ("", rest)
  | None =>
      match s with
      | "" => None
      | String c s' =>
          if Text.is_dot c
          then '(a, r) ← Re.lazy_dots close s'; Some (String c a, r)
          else None
      end
  end.
Proof. by destruct s. Qed.

Lemma lazy_dots_complete (close a r : string) :
  Re.one_line a → is_Some (Re.lazy_dots close (a +:+ close +:+ r)).
Proof.
  intros Ha. induction a as [|c a IH]; rewrite lazy_dots_eq.
  - rewrite app_nil_l, after_prefix_app. eauto.
  - rewrite app_cons. unfold Re.one_line in *. simpl in Ha.
    apply andb_true_iff in Ha as [Hc Ha]. destruct (IH Ha) as [[a' r'] Hl].
    destruct (Text.after_prefix close _); [eauto|].
    rewrite Hc, Hl. simpl. eauto.
Qed.

(** ** One attempt of the pattern *)

#[local] Arguments Text.after_prefix : simpl never.
#[local] Arguments Re.word_run : simpl never.
#[local] Arguments Re.lazy_dots : simpl never.

Lemma fragment_app (name args rest : string) :
  Re.fragment name args +:+ rest =
  "<function=" +:+ name +:+ "{" +:+ args +:+ "}>" +:+ rest.
Proof. unfold Re.fragment. by rewrite !app_assoc. Qed.

Lemma contains_false (p a : string) :
  (∀ a1 a2, a = a1 +:+ a2 → Text.startswith p a2 = false) →
  Text.contains p a = false.
Proof.
  induction a as [|c a IH]; intros H; simpl.
  - rewrite (H "" ""); done.
  - rewrite (H "" (String c a)) by done. simpl. apply IH.
    intros a1 a2 ->. by apply (H (String c a1)).
Qed.

Lemma function_pattern_sound (s name args rest : string) :
  Re.function_pattern s = Some (name, args, rest) →
  s = Re.fragment name args +:+ rest ∧ Re.identifier name
  ∧ Re.one_line args ∧ Text.contains "}>" args = false.
Proof.
  unfold Re.function_pattern.
  destruct (Text.after_prefix "<function=" s) as [s1|] eqn:H1; [|done].
  simpl. destruct (Re.word_run s1) as [w s2] eqn:H2.
  destruct (decide (w = "")) as [|Hw]; [done|].
  destruct (Text.after_prefix "{" s2) as [s3|] eqn:H3; simpl; [|done].
  destruct (Re.lazy_dots "}>" s3) as [[a r]|] eqn:H4; simpl; [|done].
  intros [= <- <- <-].
  apply after_prefix_Some in H1 as ->. apply after_prefix_Some in H3 as ->.
  apply word_run_sound in H2 as (-> & Hall & _).
  apply lazy_dots_sound in H4 as (-> & Hone & Hmin).
  rewrite fragment_app. split_and!; [done..|].
  apply contains_false. intros a1 a2 ->.
  unfold Text.startswith. apply bool_decide_eq_false. intros [x Hx].
  apply after_prefix_Some in Hx as ->.
  specialize (Hmin a1 ("}>" +:+ x) eq_refl). rewrite app_assoc in Hmin.
  rewrite after_prefix_app in Hmin. by discriminate Hmin.
Qed.

Lemma function_pattern_complete (s : string) :
  Re.starts_call s → is_Some (Re.function_pattern s).
Proof.
  intros (name & args & rest & [Hne Hall] & Hone & ->).
  rewrite fragment_app. unfold Re.function_pattern.
  rewrite after_prefix_app. simpl.
  rewrite (word_run_complete name) by done.
  destruct (decide (name = "")) as [|_]; [done|].
  rewrite (after_prefix_app "{"). simpl.
  destruct (lazy_dots_complete "}>" args rest Hone) as [[a r] ->].
  simpl. eauto.
Qed.

Lemma function_pattern_shorter (s name args rest : string) :
  Re.function_pattern s = Some (name, args, rest) →
  String.length rest < String.length s.
Proof.
  intros (-> & _)%function_pattern_sound.
  rewrite fragment_app, !app_length. simpl. lia.
Qed.

(** ** The scan *)

Lemma scan_skip (c : ascii) (s : string) (l : list (string * string)) :
  ¬ Re.starts_call (String c s) → Re.scan s l → Re.scan (String c s) l.
Proof.
  intros Hno Hscan. destruct Hscan as [s Hnone|pre name args rest l Hleft].
  - apply Re.scan_done. intros [|c' pre] suf Heq.
    + rewrite app_nil_l in Heq. by subst.
    + rewrite app_cons in Heq. injection Heq as _ ->. eauto.
  - rewrite <-app_cons. apply Re.scan_call; try done.
    intros [|c' p] q Heq Hq.
    + rewrite app_nil_l in Heq. subst q. by rewrite app_cons.
    + rewrite app_cons in Heq. injection Heq as _ ->. eauto.
Qed.

Lemma findall_from_scan (fuel : nat) (s : string) :
  String.length s < fuel → Re.scan s (Re.findall_from fuel s).
Proof.
  revert s. induction fuel as [|fuel IH]; intros s Hlen; [lia|]. simpl.
  destruct (Re.function_pattern s) as [[[name args] rest]|] eqn:Hpat.
  - pose proof (function_pattern_shorter _ _ _ _ Hpat).
    apply function_pattern_sound in Hpat as (-> & Hid & Hone & Hmin).
    rewrite <-(app_nil_l (Re.fragment name args +:+ rest)).
    apply Re.scan_call; try done.
    + intros [|??] q Heq; [|done]. rewrite app_nil_l in Heq. by subst q.
    + apply IH. lia.
  - assert (¬ Re.starts_call s) as Hno.
    { intros [x Hx]%function_pattern_complete. congruence. }
    destruct s as [|c s].
    + apply Re.scan_done. intros [|??] suf Heq; [|done].
      rewrite app_nil_l in Heq. by subst suf.
    + apply scan_skip; [done|]. apply IH. simpl in Hlen. lia.
Qed.

Lemma findall_scan (text : string) : Re.scan text (Re.findall text).
Proof. apply findall_from_scan. lia. Qed.

(** The parser finds nothing exactly when the pattern matches nowhere. *)
Lemma findall_nil (text : string) :
  Re.findall text = []
  ↔ ∀ pre suf, text = pre +:+ suf → ¬ Re.starts_call suf.
Proof.
  split.
  - intros Hnil. pose proof (findall_scan text) as Hscan.
    rewrite Hnil in Hscan. by inversion Hscan.
  - intros Hno. pose proof (findall_scan text) as Hscan.
    destruct Hscan as [|pre name args rest l _ Hid Hline]; [done|].
    destruct (Hno pre (Re.fragment name args +:+ rest) eq_refl).
    by exists name, args, rest.
Qed.

(** ** Messages and the heap *)

Lemma role_user_says (r c : string) :
  role_is r (user_says c) = bool_decide (r = "user").
Proof.
  unfold role_is, user_says. rewrite lookup_insert_eq.
  apply bool_decide_ext. split; congruence.
Qed.

Lemma role_assistant_says (r c : string) :
  role_is r (assistant_says c) = bool_decide (r = "assistant").
Proof.
  unfold role_is, assistant_says. rewrite lookup_insert_eq.
  apply bool_decide_ext. split; congruence.
Qed.

Lemma plain_not_system (m : msg) : plain m → role_is "system" m = false.
Proof.
  intros [c [->| ->]]; by rewrite ?role_user_says, ?role_assistant_says.
Qed.

Lemma lookup_says (r c k : string) :
  ({[ "role" := r; "content" := c ]} : msg) !! k =
  if decide (k = "role") then Some r
  else if decide (k = "content") then Some c else None.
Proof.
  destruct (decide (k = "role")) as [->|Hrole].
  { by rewrite lookup_insert_eq. }
  rewrite lookup_insert_ne by done.
  destruct (decide (k = "content")) as [->|Hcontent].
  { by rewrite lookup_singleton_eq. }
  by rewrite lookup_singleton_ne.
Qed.

Lemma says_serializable (r c : string) :
  serializable_message {[ "role" := r; "content" := c ]}
  = Ok {[ "role" := r; "content" := c ]}.
Proof.
  unfold serializable_message. rewrite !lookup_says. simpl.
  f_equal.
Qed.

Lemma serializable_plain (m : msg) : plain m → serializable_message m = Ok m.
Proof. intros [c [->| ->]]; apply says_serializable. Qed.

Lemma serializable_conversation_plain (conv : list msg) :
  Forall plain conv → serializable_conversation conv = Ok conv.
Proof.
  induction 1 as [|m conv Hm _ IH]; [done|]. simpl.
  by rewrite serializable_plain, IH.
Qed.

Lemma deref_old (h : list msg) (m : msg) (l : nat) :
  l < length h → deref (h ++ [m]) l = deref h l.
Proof. intros Hl. unfold deref. by rewrite lookup_app_l. Qed.

Lemma deref_new (h : list msg) (m : msg) : deref (h ++ [m]) (length h) = m.
Proof. unfold deref. by rewrite list_lookup_middle. Qed.

Lemma derefs_old (h : list msg) (m : msg) (ls : list nat) :
  Forall (λ l, l < length h) ls → deref (h ++ [m]) <$> ls = deref h <$> ls.
Proof.
  induction 1 as [|l ls Hl _ IH]; [done|]. rewrite !fmap_cons.
  by rewrite deref_old, IH.
Qed.

Lemma conversation_alloc (m : msg) (s : state) :
  wf s → conversation (set_heap (heap s ++ [m]) s) = conversation s.
Proof. intros Hwf. unfold conversation. simpl. by apply derefs_old. Qed.

Lemma pushed_conversation (m : msg) (s : state) :
  wf s → conversation (pushed m s) = conversation s ++ [m].
Proof.
  intros Hwf. unfold conversation, pushed. simpl.
  rewrite fmap_app, derefs_old by done. by rewrite list_fmap_singleton, deref_new.
Qed.

Lemma pushed_wf (m : msg) (s : state) : wf s → wf (pushed m s).
Proof.
  unfold wf, pushed. simpl. intros Hwf. rewrite length_app. simpl.
  apply Forall_app. split.
  - eapply Forall_impl; [done|]. simpl. lia.
  - repeat constructor. lia.
Qed.

Lemma push_run {B} (m : msg) (k : M B) (s : state) :
  (l ← new_dict m; append l;; k) s = k (pushed m s).
Proof. reflexivity. Qed.

(** ** The primitives of the loop *)

Lemma try_reraise {A} (m : M A) (s : state) : try_except m raise s = m s.
Proof. unfold try_except, raise. by destruct (m s) as [[[a|e]|] s']. Qed.

Lemma log_run (s : state) :
  Forall plain (conversation s) →
  log_conversation s =
  (Some (write_conversation (conversation s) (files s)).1,
   logged (write_conversation (conversation s) (files s)).2 s).
Proof.
  intros Hplain. unfold log_conversation, logged.
  unfold mbind, M_bind, gets, record, modify, lift, dump_conversation. simpl.
  change (conversation (set_trace _ s)) with (conversation s).
  rewrite (serializable_conversation_plain _ Hplain). simpl.
  by destruct (write_conversation _ _).
Qed.

Lemma system_message_says (tool_names : list string) :
  ∃ c, create_system_message tool_names
       = {[ "role" := "system"; "content" := c ]}.
Proof. unfold create_system_message. eauto. Qed.

Lemma no_system_plain (conv : list msg) :
  Forall plain conv → existsb (role_is "system") conv = false.
Proof.
  induction 1 as [|m conv Hm _ IH]; [done|]. simpl.
  by rewrite plain_not_system, IH.
Qed.

Lemma generate_run (s : state) :
  wf s → Forall plain (conversation s) →
  let sent := request (self_tools s) (conversation s) in
  generate_completion (self_messages s) (self_tools s) s =
  (Some (chat_completions_create sent (llm s)).1,
   requested (chat_completions_create sent (llm s)).2 s).
Proof.
  intros Hwf Hplain sent. subst sent.
  unfold generate_completion, requested, request, system_for.
  rewrite try_reraise.
  destruct (system_message_says (name <$> self_tools s)) as [c ->].
  unfold mbind at 1. unfold M_bind at 1. simpl.
  fold (conversation s). rewrite (no_system_plain _ Hplain).
  unfold mbind, M_bind, new_dict, mret, M_ret, gets. simpl.
  rewrite deref_new, (derefs_old _ _ _ Hwf). fold (conversation s).
  destruct (wants_tools _ _) eqn:Hwants.
  - unfold mbind, M_bind, gets. simpl. rewrite deref_new.
    unfold role_is. rewrite !lookup_says. simpl.
    unfold modify, record, modify. simpl.
    rewrite deref_new.
    rewrite insert_app_r_alt by done. rewrite Nat.sub_diag. simpl.
    rewrite deref_new, (derefs_old _ _ _ Hwf). fold (conversation s).
    unfold completions_create. simpl.
    by destruct (chat_completions_create _ _).
  - unfold record, modify. simpl.
    rewrite deref_new, (derefs_old _ _ _ Hwf). fold (conversation s).
    unfold completions_create. simpl.
    by destruct (chat_completions_create _ _).
Qed.

(** ** The invariant of a run *)

Lemma chain_grow (old : list event) (s s' : state) :
  chain old s → conversation s `prefix_of` conversation s' →
  trace s' = trace s → chain old s'.
Proof.
  intros (new & Htr & Hsorted) Hpre Heq. exists new. split; [congruence|].
  apply StronglySorted_app in Hsorted as (Hle & Hnew & _).
  apply StronglySorted_app. split_and!; [|done|repeat constructor].
  intros c1 c2 Hc1 ->%list_elem_of_singleton.
  etrans; [|done]. apply Hle; [done|]. by apply list_elem_of_singleton.
Qed.

Lemma chain_show (old : list event) (ev : event) (s s' : state) :
  chain old s → conversation s' = conversation s →
  trace s' = trace s ++ [ev] →
  (∀ c, snapshot_of ev = Some c → c = conversation s) →
  chain old s'.
Proof.
  intros (new & Htr & Hsorted) Hconv Heq Hev. exists (new ++ [ev]).
  split; [by rewrite Heq, Htr, (assoc_L (++))|].
  rewrite Hconv. unfold snapshots in *. rewrite omap_app. simpl.
  destruct (snapshot_of ev) as [c|] eqn:Hc; simpl;
    [|by rewrite (right_id_L [] (++))].
  rewrite (Hev c eq_refl), <-(assoc_L (++)).
  pose proof Hsorted as (Hle & Hnew & _)%StronglySorted_app.
  apply StronglySorted_app. split_and!; [|done|].
  - intros c1 c2 Hc1 [->| ->%list_elem_of_singleton]%elem_of_cons;
      apply Hle; try done; by apply list_elem_of_singleton.
  - repeat constructor. done.
Qed.

Lemma written_plain (m : msg) : written m → plain m.
Proof. intros [c|n t|n e]; eexists; eauto. Qed.

Lemma inv_pushed (old : list event) (q : string) (m : msg) (s : state) :
  written m → inv old q s → inv old q (pushed m s).
Proof.
  intros Hm [[Hwf (rest & Hconv & Hrest)] Hchain].
  pose proof (pushed_conversation m s Hwf) as Hpush.
  split; [split|].
  - by apply pushed_wf.
  - exists (rest ++ [m]). rewrite Hpush, Hconv. split; [done|].
    apply Forall_app. by repeat constructor.
  - eapply chain_grow; [done| |done]. rewrite Hpush. by apply prefix_app_r.
Qed.

Lemma inv_plain (old : list event) (q : string) (s : state) :
  inv old q s → wf s ∧ Forall plain (conversation s).
Proof.
  intros [[Hwf (rest & -> & Hrest)] _]. split; [done|].
  constructor; [exists q; by left|].
  eapply Forall_impl; [done|]. apply written_plain.
Qed.

Lemma inv_logged (old : list event) (q : string) (l : L) (s : state) :
  inv old q s → inv old q (logged l s).
Proof.
  intros [Hseed Hchain]. split; [done|].
  eapply (chain_show _ (Log (conversation s))); [done..|].
  by intros c [= <-].
Qed.

Lemma inv_requested (old : list event) (q : string) (p : P) (s : state) :
  inv old q s → inv old q (requested p s).
Proof.
  intros [[Hwf (rest & Hconv & Hrest)] Hchain].
  assert (conversation (requested p s) = conversation s) as Heq.
  { unfold conversation, requested. simpl. by apply derefs_old. }
  split; [split|].
  - unfold wf, requested in *. simpl. rewrite length_app.
    eapply Forall_impl; [done|]. simpl. lia.
  - exists rest. by rewrite Heq.
  - eapply chain_show; [done..|]. by intros c [= <-].
Qed.

Lemma inv_silent (old : list event) (q : string) (s s' : state) :
  heap s' = heap s → self_messages s' = self_messages s →
  trace s' = trace s → inv old q s → inv old q s'.
Proof.
  intros Hh Hm Ht [[Hwf Hseed] Hchain].
  assert (conversation s' = conversation s) as Hconv.
  { unfold conversation. by rewrite Hh, Hm. }
  split; [split|].
  - unfold wf. by rewrite Hh, Hm.
  - by rewrite Hconv.
  - eapply chain_grow; [done| |done]. by rewrite Hconv.
Qed.

Lemma inv_called (old : list event) (q : string) n a (s : state) :
  inv old q s → inv old q (set_trace (trace s ++ [CallTool n a]) s).
Proof.
  intros [Hseed Hchain]. split; [done|].
  by eapply (chain_show _ (CallTool n a)).
Qed.

(** A computation keeps the invariant. *)
Definition keeps (old : list event) (q : string) {A} (m : M A) : Prop :=
  ∀ s, inv old q s → inv old q (m s).2.

Lemma keeps_bind old q {A B} (m : M A) (k : A → M B) :
  keeps old q m → (∀ a, keeps old q (k a)) → keeps old q (m ≫= k).
Proof.
  intros Hm Hk s Hs. specialize (Hm s Hs). unfold mbind, M_bind.
  destruct (m s) as [[[a|e]|] s']; try done. by apply Hk.
Qed.

Lemma keeps_try old q {A} (body : M A) (handler : exn → M A) :
  keeps old q body → (∀ e, keeps old q (handler e)) →
  keeps old q (try_except body handler).
Proof.
  intros Hm Hk s Hs. specialize (Hm s Hs). unfold try_except.
  destruct (body s) as [[[a|e]|] s']; try done. by apply Hk.
Qed.

Lemma keeps_lift old q {A} (r : result A) : keeps old q (lift r).
Proof. by intros s Hs. Qed.

Lemma keeps_push old q {B} (m : msg) (k : M B) :
  written m → keeps old q k → keeps old q (l ← new_dict m; append l;; k).
Proof. intros Hm Hk s Hs. rewrite push_run. by apply Hk, inv_pushed. Qed.

Lemma keeps_log old q : keeps old q log_conversation.
Proof.
  intros s Hs. destruct (inv_plain _ _ _ Hs) as [_ Hplain].
  rewrite (log_run _ Hplain). by apply inv_logged.
Qed.

Lemma keeps_process_call old q (call : string * string) :
  keeps old q (process_call call).
Proof.
  destruct call as [tool_name tool_args_str]. unfold process_call.
  apply keeps_try.
  - apply keeps_bind; [apply keeps_lift|]. intros tool_args.
    apply keeps_bind; [by intros s Hs; apply inv_called|]. intros _.
    apply keeps_bind.
    { intros s Hs. unfold session_call_tool.
      destruct (call_tool _ _ _). by eapply inv_silent. }
    intros content. apply keeps_bind; [apply keeps_lift|]. intros content'.
    apply keeps_bind; [apply keeps_lift|]. intros text.
    apply keeps_push; [constructor|apply keeps_log].
  - intros e. apply keeps_push; [constructor|apply keeps_log].
Qed.

Lemma keeps_for_each old q {A} (l : list A) (body : A → M unit) :
  (∀ x, keeps old q (body x)) → keeps old q (for_each l body).
Proof.
  intros Hbody. induction l as [|x l IH]; simpl; [by intros s Hs|].
  by apply keeps_bind.
Qed.

Lemma keeps_loop old q (fuel : nat) : keeps old q (conversation_loop fuel).
Proof.
  induction fuel as [|fuel IH]; [by intros s Hs|].
  intros s Hs. simpl.
  change ((gets self_messages ≫= _) s) with
    ((response ← generate_completion (self_messages s) (self_tools s);
      let assistant_content := default "" response in
      match Re.findall assistant_content with
      | [] =>
          assistant_message ← new_dict (assistant_says assistant_content);
          append assistant_message;; log_conversation
      | _ :: _ =>
          assistant_message ← new_dict (assistant_says assistant_content);
          append assistant_message;;
          log_conversation;;
          for_each (Re.findall assistant_content) process_call;;
          conversation_loop fuel
      end) s).
  revert s Hs. apply keeps_bind.
  { intros s Hs. destruct (inv_plain _ _ _ Hs) as [Hwf Hplain].
    rewrite (generate_run _ Hwf Hplain). by apply inv_requested. }
  intros response. simpl. destruct (Re.findall _) as [|call calls].
  - apply keeps_push; [constructor|apply keeps_log].
  - apply keeps_push; [constructor|].
    apply keeps_bind; [apply keeps_log|]. intros _.
    apply keeps_bind; [|done].
    apply keeps_for_each, keeps_process_call.
Qed.

(** ** The whole query *)

Lemma seed_conversation (q : string) (s : state) :
  conversation (seed q s) = [user_says q].
Proof. unfold conversation, seed. simpl. by rewrite deref_new. Qed.

Lemma inv_seed (q : string) (s : state) : inv (trace s) q (seed q s).
Proof.
  split; [split|].
  - unfold wf, seed. simpl. rewrite length_app. simpl.
    repeat constructor. lia.
  - exists []. by rewrite seed_conversation.
  - exists []. split; [by rewrite (right_id_L [] (++))|].
    simpl. repeat constructor.
Qed.

Lemma role_user_head (q : string) (rest : list msg) :
  bool_decide (user_says q :: rest = [])
  || negb (existsb (role_is "user") (user_says q :: rest)) = false.
Proof. simpl. by rewrite role_user_says. Qed.

Lemma process_query_run (fuel : nat) (q : string) (s0 : state) :
  process_query fuel q s0 =
  match conversation_loop fuel (seed q s0) with
  | (Some (Ok _), s) => (Some (Ok (conversation s)), s)
  | (Some (Err e), s) =>
      let s' := pushed (assistant_says (fallback_content e)) s in
      (Some (Ok (conversation s')), s')
  | (None, s) => (None, s)
  end.
Proof.
  pose proof (keeps_loop _ _ fuel _ (inv_seed q s0)) as Hinv.
  unfold process_query. unfold mbind at 1. unfold M_bind at 1. simpl.
  unfold try_except.
  unfold mbind at 1. unfold M_bind at 1. simpl.
  unfold mbind at 1. unfold M_bind at 1. fold (seed q s0).
  destruct (conversation_loop fuel (seed q s0)) as [[[[]|e]|] s]; try done.
  simpl in Hinv. destruct Hinv as [[Hwf (rest & Hconv & _)] _].
  unfold mbind, M_bind, new_dict, gets. simpl.
  rewrite !(conversation_alloc _ _ Hwf), Hconv, role_user_head.
  reflexivity.
Qed.

Lemma handed_in_snapshots (tr : list event) (c : list msg) :
  c ∈ handed_lists tr → c ∈ snapshots tr.
Proof.
  unfold handed_lists, snapshots. rewrite !list_elem_of_omap.
  intros (ev & Hev & Hc). exists ev. split; [done|]. by destruct ev.
Qed.

Lemma handed_sorted (tr : list event) :
  StronglySorted prefix (snapshots tr) →
  StronglySorted prefix (handed_lists tr).
Proof.
  induction tr as [|ev tr IH]; [done|].
  destruct ev as [handed sent|conv|n a]; simpl.
  - intros [Hall Hs]%StronglySorted_cons. apply StronglySorted_cons.
    split; [|by apply IH]. apply Forall_forall. intros c Hc.
    rewrite Forall_forall in Hall. by apply Hall, handed_in_snapshots.
  - intros [_ Hs]%StronglySorted_cons. by apply IH.
  - done.
Qed.

Lemma process_query_inv (fuel : nat) (q : string) (s0 : state) :
  inv (trace s0) q (process_query fuel q s0).2
  ∧ ∀ conv, (process_query fuel q s0).1 = Some (Ok conv) →
            conv = conversation (process_query fuel q s0).2.
Proof.
  pose proof (keeps_loop _ _ fuel _ (inv_seed q s0)) as Hinv.
  rewrite process_query_run.
  destruct (conversation_loop fuel (seed q s0)) as [[[[]|e]|] s]; simpl in *.
  - split; [done|]. by intros conv [= <-].
  - split; [by apply inv_pushed; [constructor|]|]. by intros conv [= <-].
  - done.
Qed.

Lemma requested_conversation (p : P) (s : state) :
  wf s → conversation (requested p s) = conversation s.
Proof. intros Hwf. unfold conversation, requested. simpl. by apply derefs_old. Qed.

Lemma requested_wf (p : P) (s : state) : wf s → wf (requested p s).
Proof.
  unfold wf, requested. simpl. rewrite length_app. intros Hwf.
  eapply Forall_impl; [done|]. simpl. lia.
Qed.

(** One round of the loop, from a state of the loop. *)
Lemma loop_run (fuel : nat) (s : state) :
  wf s → Forall plain (conversation s) →
  conversation_loop (S fuel) s =
  let out :=
    chat_completions_create (request (self_tools s) (conversation s)) (llm s)
  in
  let s1 := requested out.2 s in
  match out.1 with
  | Err e => (Some (Err e), s1)
  | Ok response =>
      let content := default "" response in
      let s2 := pushed (assistant_says content) s1 in
      match Re.findall content with
      | [] => log_conversation s2
      | _ :: _ =>
          (log_conversation;;
           for_each (Re.findall content) process_call;;
           conversation_loop fuel) s2
      end
  end.
Proof.
  intros Hwf Hplain. simpl.
  unfold mbind at 1. unfold M_bind at 1. simpl.
  unfold mbind at 1. unfold M_bind at 1. simpl.
  unfold mbind at 1. unfold M_bind at 1.
  rewrite (generate_run _ Hwf Hplain). simpl.
  destruct (chat_completions_create _ _).1 as [response|e]; [|done].
  destruct (Re.findall _); by rewrite push_run.
Qed.

Lemma process_query_trace (fuel : nat) (q : string) (s0 : state) :
  trace (process_query fuel q s0).2
  = trace (conversation_loop fuel (seed q s0)).2.
Proof.
  rewrite process_query_run.
  by destruct (conversation_loop fuel (seed q s0)) as [[[[]|e]|] s].
Qed.

Lemma no_exception_escapes (fuel : nat) (q : string) (s0 : state) (e : exn) :
  (process_query fuel q s0).1 ≠ Some (Err e).
Proof.
  rewrite process_query_run.
  by destruct (conversation_loop fuel (seed q s0)) as [[[[]|e']|] s].
Qed.

(** ** No exception escapes, and the conversation only grows *)

(** C2.  No exception escapes [process_query]: whatever the collaborators
    do and however many rounds are run, the call never ends by raising; and
    when the completion service raises on every call, the query returns
    normally, after one round, with exactly two messages: the user message
    and one assistant message that reports the error the service raised. *)
Theorem process_query_never_raises :
  (∀ fuel q s0 e, (process_query fuel q s0).1 ≠ Some (Err e))
  ∧ (∀ fuel q s0,
       (∀ sent p, ∃ e, (chat_completions_create sent p).1 = Err e) →
       ∃ e,
         (chat_completions_create
            (request (self_tools s0) [user_says q]) (llm s0)).1 = Err e
         ∧ (process_query (S fuel) q s0).1
           = Some (Ok [user_says q; assistant_says (fallback_content e)])).
Proof.
  split; [apply no_exception_escapes|].
  - intros fuel q s0 Hraises.
    destruct (inv_plain _ _ _ (inv_seed q s0)) as [Hwf Hplain].
    destruct (Hraises (request (self_tools s0) [user_says q]) (llm s0))
      as [e He].
    exists e. split; [done|].
    rewrite process_query_run, (loop_run _ _ Hwf Hplain). simpl.
    rewrite seed_conversation.
    change (self_tools (seed q s0)) with (self_tools s0).
    change (llm (seed q s0)) with (llm s0).
    rewrite He. simpl.
    rewrite pushed_conversation by by apply requested_wf.
    by rewrite requested_conversation, seed_conversation.
Qed.

(** C9.  The conversation only grows.  In every run of [process_query],
    complete or cut off after any number of rounds, the conversations the run
    shows after seeding (the list handed to [generate_completion] in each
    round, the list [log_conversation] reads after each append) and the
    conversation at the end are ordered by the prefix relation: each one is a
    prefix of all later ones, so no message is reordered, removed or changed
    in place; in particular the list handed to a round extends the list
    handed to the round before, and the list returned is the conversation at
    the end. *)
Theorem conversation_only_grows (fuel : nat) (q : string) (s0 : state) :
  ∃ new,
    trace (process_query fuel q s0).2 = trace s0 ++ new
    ∧ StronglySorted prefix
        (snapshots new ++ [conversation (process_query fuel q s0).2])
    ∧ StronglySorted prefix (handed_lists new)
    ∧ ∀ conv, (process_query fuel q s0).1 = Some (Ok conv) →
              conv = conversation (process_query fuel q s0).2.
Proof.
  destruct (process_query_inv fuel q s0) as [[_ (new & Htr & Hs)] Hret].
  exists new. split_and!; try done.
  apply handed_sorted. by apply StronglySorted_app in Hs as (_ & ? & _).
Qed.

(** C10.  Every message of a returned conversation has role user or
    assistant.  The list starts with the query as a user message; every
    message after it is a completion or the answer that reports an error
    (assistant), a tool result of the form Tool 'name' returned: text (user)
    or a tool error notice (user); no message has a [tool_call_id] field, and
    none has role system or tool. *)
Theorem returned_roles (fuel : nat) (q : string) (s0 : state)
    (conv : list msg) :
  (process_query fuel q s0).1 = Some (Ok conv) →
  (∃ rest, conv = user_says q :: rest ∧ Forall written rest)
  ∧ Forall (λ m : msg,
      (m !! "role" = Some "user" ∨ m !! "role" = Some "assistant")
      ∧ m !! "role" ≠ Some "system" ∧ m !! "role" ≠ Some "tool"
      ∧ m !! "tool_call_id" = None) conv.
Proof.
  intros Hret. destruct (process_query_inv fuel q s0) as [Hinv Heq].
  rewrite (Heq _ Hret). split; [apply Hinv|].
  destruct (inv_plain _ _ _ Hinv) as [_ Hplain].
  eapply Forall_impl; [done|]. intros m [c [->| ->]];
    unfold user_says, assistant_says; rewrite !lookup_says; simpl;
    split_and!; auto; discriminate.
Qed.

(** ** Runs in which the log can be written, or cannot *)

Lemma log_ok (s : state) :
  log_writable → Forall plain (conversation s) →
  log_conversation s =
  (Some (Ok tt),
   logged (write_conversation (conversation s) (files s)).2 s).
Proof. intros Hlog Hplain. by rewrite (log_run _ Hplain), Hlog. Qed.

Lemma answered_conversation (c : string) (p : P) (s : state) :
  wf s → conversation (answered c p s) = conversation s ++ [assistant_says c].
Proof.
  intros Hwf. unfold answered.
  rewrite pushed_conversation by by apply requested_wf.
  by rewrite requested_conversation.
Qed.

Lemma inv_answered old q (c : string) (p : P) (s : state) :
  inv old q s → inv old q (answered c p s).
Proof. intros Hs. apply inv_pushed; [constructor|]. by apply inv_requested. Qed.

(** C8, as the code has it.  A completion without a call ends the query
    after one round, with one message more when the conversation log cannot
    be written.  For every query text, the empty one included: when the
    first response of the completion service holds no call, that is when at
    no position of its text (the empty text for a response without content)
    the pattern matches, [process_query] returns, whatever fuel is left, the
    user message with the query and one assistant message with the text of
    the response, and nothing more when the write of the log that follows
    succeeds; when that write raises, a second assistant message that
    reports the error of the write follows.  Exactly one completion was
    requested, and the log was written once, in both cases. *)
Theorem single_round (fuel : nat) (q : string) (s0 : state)
    (response : option string) (p1 : P) :
  chat_completions_create (request (self_tools s0) [user_says q]) (llm s0)
  = (Ok response, p1) →
  (∀ pre suf, default "" response = pre +:+ suf → ¬ Re.starts_call suf) →
  let exchange := [user_says q; assistant_says (default "" response)] in
  (process_query (S fuel) q s0).1
  = Some (Ok (exchange
              ++ match (write_conversation exchange (files s0)).1 with
                 | Ok _ => []
                 | Err e => [assistant_says (fallback_content e)]
                 end))
  ∧ trace (process_query (S fuel) q s0).2
    = trace s0
      ++ [Generate [user_says q] (request (self_tools s0) [user_says q]);
          Log exchange].
Proof.
  intros Hchat Hnone%findall_nil exchange.
  pose proof (inv_seed q s0) as Hinv.
  destruct (inv_plain _ _ _ Hinv) as [Hwf Hplain].
  set (s2 := answered (default "" response) p1 (seed q s0)).
  pose proof (inv_answered _ _ (default "" response) p1 _ Hinv) as Hinv2.
  fold s2 in Hinv2. destruct (inv_plain _ _ _ Hinv2) as [Hwf2 Hplain2].
  assert (conversation s2 = exchange) as Hconv.
  { unfold s2. by rewrite answered_conversation, seed_conversation. }
  assert (conversation_loop (S fuel) (seed q s0) = log_conversation s2)
    as Hloop.
  { rewrite (loop_run _ _ Hwf Hplain). simpl. rewrite seed_conversation.
    change (self_tools (seed q s0)) with (self_tools s0).
    change (llm (seed q s0)) with (llm s0).
    rewrite Hchat. simpl. by rewrite Hnone. }
  rewrite process_query_trace, process_query_run, Hloop, (log_run _ Hplain2).
  rewrite Hconv. change (files s2) with (files s0).
  assert (trace s2 = trace s0
                     ++ [Generate [user_says q]
                           (request (self_tools s0) [user_says q])])
    as Htrace.
  { unfold s2, answered, pushed, requested. simpl.
    by rewrite seed_conversation. }
  split.
  - destruct (write_conversation exchange (files s0)) as [[[]|e] l1];
      cbn [fst snd].
    + change (conversation (logged l1 s2)) with (conversation s2).
      by rewrite Hconv, (right_id_L [] (++)).
    + rewrite pushed_conversation by done.
      change (conversation (logged l1 s2)) with (conversation s2).
      by rewrite Hconv.
  - cbn [snd].
    change (trace (logged ?l s2)) with (trace s2 ++ [Log (conversation s2)]).
    by rewrite Htrace, Hconv, <-(assoc_L (++)).
Qed.

(** A failed write after the assistant message of a round, from any state
    of the loop: the loop ends by raising the error of the write. *)
Lemma failed_write_raises old (fuel : nat) (q : string) (s : state)
    (response : option string) (p1 : P) (e : exn) (l1 : L) :
  inv old q s →
  chat_completions_create (request (self_tools s) (conversation s)) (llm s)
  = (Ok response, p1) →
  write_conversation
    (conversation s ++ [assistant_says (default "" response)]) (files s)
  = (Err e, l1) →
  conversation_loop (S fuel) s
  = (Some (Err e), logged l1 (answered (default "" response) p1 s)).
Proof.
  intros Hinv Hchat Hwrite.
  destruct (inv_plain _ _ _ Hinv) as [Hwf Hplain].
  pose proof (inv_answered _ _ (default "" response) p1 _ Hinv) as Hinv2.
  destruct (inv_plain _ _ _ Hinv2) as [Hwf2 Hplain2].
  rewrite (loop_run _ _ Hwf Hplain). simpl. rewrite Hchat. simpl.
  fold (answered (default "" response) p1 s).
  assert (log_conversation (answered (default "" response) p1 s)
          = (Some (Err e), logged l1 (answered (default "" response) p1 s)))
    as Hlog.
  { rewrite (log_run _ Hplain2). rewrite answered_conversation by done.
    change (files (answered ?c ?p ?s)) with (files s).
    by rewrite Hwrite. }
  destruct (Re.findall _); [done|].
  unfold mbind at 1. unfold M_bind at 1. by rewrite Hlog.
Qed.

(** C3, as the code has it.  A failed write of the conversation log never
    reaches the caller of [process_query] as an exception, but it does end
    the loop.  In every round, that is from every state [s] of the loop
    ([inv]), when the write that follows the assistant message fails, the
    loop raises the error of the write: no call of the response is
    processed and no further completion is requested.  An exception that
    leaves the loop makes the query return the conversation built so far
    followed by one assistant message that reports it.  So a failed write
    in the first round gives three messages: the query, the response, the
    report of the write error. *)
Theorem failed_log_write_ends_query :
  (∀ fuel q s0 e, (process_query fuel q s0).1 ≠ Some (Err e))
  ∧ (∀ old fuel q s response p1 e l1,
       inv old q s →
       chat_completions_create (request (self_tools s) (conversation s))
         (llm s)
       = (Ok response, p1) →
       write_conversation
         (conversation s ++ [assistant_says (default "" response)]) (files s)
       = (Err e, l1) →
       (conversation_loop (S fuel) s).1 = Some (Err e)
       ∧ conversation (conversation_loop (S fuel) s).2
         = conversation s ++ [assistant_says (default "" response)]
       ∧ trace (conversation_loop (S fuel) s).2
         = trace s
           ++ [Generate (conversation s)
                 (request (self_tools s) (conversation s));
               Log (conversation s
                    ++ [assistant_says (default "" response)])])
  ∧ (∀ fuel q s0 e,
       (conversation_loop fuel (seed q s0)).1 = Some (Err e) →
       (process_query fuel q s0).1
       = Some (Ok (conversation (conversation_loop fuel (seed q s0)).2
                   ++ [assistant_says (fallback_content e)])))
  ∧ (∀ fuel q s0 response p1 e l1,
       chat_completions_create (request (self_tools s0) [user_says q]) (llm s0)
       = (Ok response, p1) →
       write_conversation
         [user_says q; assistant_says (default "" response)] (files s0)
       = (Err e, l1) →
       (process_query (S fuel) q s0).1
       = Some (Ok [user_says q; assistant_says (default "" response);
                   assistant_says (fallback_content e)])
       ∧ trace (process_query (S fuel) q s0).2
         = trace s0
           ++ [Generate [user_says q] (request (self_tools s0) [user_says q]);
               Log [user_says q; assistant_says (default "" response)]]).
Proof.
  assert (∀ fuel q s0 e,
            (conversation_loop fuel (seed q s0)).1 = Some (Err e) →
            (process_query fuel q s0).1
            = Some (Ok (conversation (conversation_loop fuel (seed q s0)).2
                        ++ [assistant_says (fallback_content e)])))
    as Hfallback.
  { intros fuel q s0 e Hraise.
    pose proof (keeps_loop _ _ fuel _ (inv_seed q s0)) as Hinv.
    rewrite process_query_run.
    destruct (conversation_loop fuel (seed q s0)) as [[[[]|e']|] s];
      simpl in *; try done.
    injection Hraise as ->.
    by rewrite pushed_conversation by apply (inv_plain _ _ _ Hinv). }
  split_and!; [apply no_exception_escapes| |done|].
  - intros old fuel q s response p1 e l1 Hinv Hchat Hwrite.
    rewrite (failed_write_raises _ fuel _ _ _ _ _ _ Hinv Hchat Hwrite).
    cbn [fst snd]. split_and!; [done| |].
    + change (conversation (logged ?l ?s)) with (conversation s).
      by rewrite answered_conversation by apply (inv_plain _ _ _ Hinv).
    + change (trace (logged ?l ?x)) with (trace x ++ [Log (conversation x)]).
      rewrite answered_conversation by apply (inv_plain _ _ _ Hinv).
      simpl. by rewrite <-(assoc_L (++)).
  - intros fuel q s0 response p1 e l1 Hchat Hwrite.
    pose proof (inv_seed q s0) as Hinv.
    assert (conversation_loop (S fuel) (seed q s0)
            = (Some (Err e),
               logged l1 (answered (default "" response) p1 (seed q s0))))
      as Hloop.
    { apply (failed_write_raises _ fuel _ _ _ _ _ _ Hinv);
        by rewrite seed_conversation. }
    rewrite process_query_trace, (Hfallback (S fuel) q s0 e), Hloop
      by by rewrite Hloop.
    cbn [fst snd].
    change (conversation (logged ?l ?s)) with (conversation s).
    change (trace (logged ?l ?x)) with (trace x ++ [Log (conversation x)]).
    rewrite !answered_conversation by apply (inv_plain _ _ _ Hinv).
    rewrite !seed_conversation. simpl. rewrite !seed_conversation.
    split; by rewrite <-?(assoc_L (++)).
Qed.

#[local] Arguments conversation_loop : simpl never.
#[local] Arguments process_call : simpl never.
#[local] Arguments log_conversation : simpl never.

(** ** One call *)

Lemma process_call_run (n a : string) (s : state) :
  process_call (n, a) s =
  match json_loads (wrap_args a) with
  | Err e => log_conversation (pushed (user_says (tool_error_content n e)) s)
  | Ok args =>
      match (content ← (call_tool n args (session s)).1; result_text content)
      with
      | Err e =>
          log_conversation
            (pushed (user_says (tool_error_content n e)) (called n args s))
      | Ok text =>
          match log_conversation
                  (pushed (user_says (tool_result_content n text))
                     (called n args s))
          with
          | (Some (Err e), s') =>
              log_conversation
                (pushed (user_says (tool_error_content n e)) s')
          | out => out
          end
      end
  end.
Proof.
  unfold process_call, try_except, result_text, called.
  unfold mbind at 1. unfold M_bind at 1. unfold lift at 1.
  destruct (json_loads (wrap_args a)) as [args|e]; [|by rewrite push_run].
  unfold mbind at 1. unfold M_bind at 1. unfold record at 1. simpl.
  unfold mbind at 1. unfold M_bind at 1. unfold session_call_tool at 1. simpl.
  destruct (call_tool n args (session s)) as [[content|e] t]; simpl;
    [|by rewrite push_run].
  unfold mbind at 1. unfold M_bind at 1. unfold lift at 1.
  destruct (format_tool_result content) as [v|e]; simpl;
    [|by rewrite push_run].
  unfold mbind at 1. unfold M_bind at 1. unfold lift at 1.
  destruct (format_field v) as [text|e]; simpl; [|by rewrite push_run].
  rewrite push_run.
  destruct (log_conversation _) as [[[[]|e]|] s']; [done| |done].
  by rewrite push_run.
Qed.

Lemma inv_called_tool old q (n : string) (args : pyval) (s : state) :
  inv old q s → inv old q (called n args s).
Proof.
  intros Hs. unfold called.
  eapply inv_silent; [..|by apply (inv_called _ _ n args)]; done.
Qed.

(** C1, as the code has it.  The canonical tool chain, where the
    conversation log can be written.  The completion service answers the
    query with the text Let me check. followed by the call fragment of search
    with arguments query = x and, once it is sent the conversation with the
    tool result, with the plain text Here is the answer.; the tool session
    answers the call of search with those arguments with the payload that
    has the text field 42; the argument text decodes to those arguments and
    the conversation log can be written.  Then [process_query], with two
    rounds of fuel or more, returns exactly four messages in this order: the
    user message with the query, the assistant message of round 1 with the
    fragment still in it, the user message Tool 'search' returned: 42, and
    the assistant message Here is the answer. *)
Theorem canonical_tool_chain (fuel : nat) (q : string) (s0 : state)
    (p1 p2 : P) (t1 : T) :
  chat_completions_create (request (self_tools s0) [user_says q]) (llm s0)
  = (Ok (Some canonical_round1), p1) →
  json_loads ("{" +:+ canonical_args +:+ "}")
  = Ok (VDict [("query", VStr "x")]) →
  call_tool "search" (VDict [("query", VStr "x")]) (session s0)
  = (Ok canonical_payload, t1) →
  chat_completions_create
    (request (self_tools s0)
       [user_says q; assistant_says canonical_round1;
        user_says "Tool 'search' returned: 42"]) p1
  = (Ok (Some "Here is the answer."), p2) →
  log_writable →
  (process_query (S (S fuel)) q s0).1 = Some (Ok (canonical_conversation q))
  ∧ Text.contains (Re.fragment "search" canonical_args) canonical_round1
    = true.
Proof.
  intros Hchat1 Hloads Hcall Hchat2 Hlog. split; [|by vm_compute].
  pose proof (inv_seed q s0) as Hinv.
  destruct (inv_plain _ _ _ Hinv) as [Hwf Hplain].
  (* round 1 *)
  set (s2 := answered canonical_round1 p1 (seed q s0)).
  pose proof (inv_answered _ _ canonical_round1 p1 _ Hinv) as Hinv2.
  fold s2 in Hinv2. destruct (inv_plain _ _ _ Hinv2) as [Hwf2 Hplain2].
  assert (conversation s2 = [user_says q; assistant_says canonical_round1])
    as Hconv2.
  { unfold s2. by rewrite answered_conversation, seed_conversation. }
  set (s3 := logged (write_conversation (conversation s2) (files s2)).2 s2).
  pose proof (inv_logged _ _ (write_conversation (conversation s2) (files s2)).2
                _ Hinv2) as Hinv3. fold s3 in Hinv3.
  set (args := VDict [("query", VStr "x")]) in *.
  set (s4 := pushed (user_says (tool_result_content "search" "42"))
               (called "search" args s3)).
  assert (inv (trace s0) q s4) as Hinv4.
  { apply inv_pushed; [constructor|]. by apply inv_called_tool. }
  destruct (inv_plain _ _ _ Hinv4) as [Hwf4 Hplain4].
  assert (conversation s4
          = [user_says q; assistant_says canonical_round1;
             user_says "Tool 'search' returned: 42"]) as Hconv4.
  { unfold s4. rewrite pushed_conversation
      by apply (inv_plain _ _ _ (inv_called_tool _ _ _ _ _ Hinv3)).
    change (conversation (called _ _ s3)) with (conversation s2).
    by rewrite Hconv2. }
  set (s5 := logged (write_conversation (conversation s4) (files s4)).2 s4).
  pose proof (inv_logged _ _ (write_conversation (conversation s4) (files s4)).2
                _ Hinv4) as Hinv5. fold s5 in Hinv5.
  destruct (inv_plain _ _ _ Hinv5) as [Hwf5 Hplain5].
  assert (process_call ("search", canonical_args) s3 = (Some (Ok tt), s5))
    as Hcall1.
  { rewrite process_call_run.
    change (wrap_args canonical_args) with ("{" +:+ canonical_args +:+ "}").
    rewrite Hloads. fold args.
    change (session s3) with (session s0). rewrite Hcall. simpl.
    fold s4. by rewrite (log_ok _ Hlog Hplain4). }
  (* round 2 *)
  set (s6 := answered "Here is the answer." p2 s5).
  pose proof (inv_answered _ _ "Here is the answer." p2 _ Hinv5) as Hinv6.
  fold s6 in Hinv6. destruct (inv_plain _ _ _ Hinv6) as [Hwf6 Hplain6].
  assert (∃ l, conversation_loop (S fuel) s5 = (Some (Ok tt), logged l s6))
    as [l Hround2].
  { rewrite (loop_run _ _ Hwf5 Hplain5). simpl.
    change (conversation s5) with (conversation s4). rewrite Hconv4.
    change (self_tools s5) with (self_tools s0).
    change (llm s5) with p1. rewrite Hchat2. simpl.
    change (Re.findall "Here is the answer.") with (@nil (string * string)).
    simpl. change (pushed _ (requested p2 s5)) with s6.
    rewrite (log_ok _ Hlog Hplain6). eauto. }
  rewrite process_query_run, (loop_run _ _ Hwf Hplain). simpl.
  rewrite seed_conversation.
  change (self_tools (seed q s0)) with (self_tools s0).
  change (llm (seed q s0)) with (llm s0).
  rewrite Hchat1. simpl.
  change (Re.findall canonical_round1) with [("search", canonical_args)].
  simpl. change (pushed _ (requested p1 (seed q s0))) with s2.
  unfold mbind at 1. unfold M_bind at 1.
  rewrite (log_ok _ Hlog Hplain2). fold s3.
  unfold mbind at 1. unfold M_bind at 1.
  unfold mbind at 1. unfold M_bind at 1.
  change (process_call _ s3) with (process_call ("search", canonical_args) s3).
  rewrite Hcall1. simpl. rewrite Hround2.
  change (conversation (logged ?l ?s)) with (conversation s).
  unfold s6. rewrite answered_conversation by done.
  change (conversation s5) with (conversation s4). by rewrite Hconv4.
Qed.

(** ** The calls of one round *)

Lemma quiet_refl (s : state) : quiet s s.
Proof. split_and!; try done. exists []. by rewrite (right_id_L [] (++)). Qed.

Lemma quiet_trans (s1 s2 s3 : state) : quiet s1 s2 → quiet s2 s3 → quiet s1 s3.
Proof.
  intros (Ht1 & Hl1 & evs1 & Htr1 & Hh1) (Ht2 & Hl2 & evs2 & Htr2 & Hh2).
  split_and!; [congruence..|]. exists (evs1 ++ evs2). split.
  - by rewrite Htr2, Htr1, (assoc_L (++)).
  - unfold handed_lists in *. by rewrite omap_app, Hh1, Hh2.
Qed.

Lemma quiet_logged (l : L) (s : state) : quiet s (logged l s).
Proof. split_and!; try done. by exists [Log (conversation s)]. Qed.

Lemma quiet_pushed (m : msg) (s : state) : quiet s (pushed m s).
Proof.
  split_and!; try done. exists []. simpl. by rewrite (right_id_L [] (++)).
Qed.

Lemma quiet_called (n : string) (args : pyval) (s : state) :
  quiet s (called n args s).
Proof. split_and!; try done. by exists [CallTool n args]. Qed.

Lemma process_call_contained old q (call : string * string) (s : state) :
  log_writable → inv old q s →
  ∃ s',
    process_call call s = (Some (Ok tt), s')
    ∧ inv old q s'
    ∧ conversation s' = conversation s ++ [(call_outcome call (session s)).1]
    ∧ session s' = (call_outcome call (session s)).2
    ∧ quiet s s'.
Proof.
  intros Hlog Hs. destruct call as [n a]. rewrite process_call_run.
  assert (∀ m s1, written m → inv old q s1 → quiet s s1 →
            conversation s1 = conversation s →
            ∃ s', log_conversation (pushed m s1) = (Some (Ok tt), s')
                  ∧ inv old q s' ∧ conversation s' = conversation s ++ [m]
                  ∧ session s' = session s1 ∧ quiet s s') as Hpush.
  { intros m s1 Hm Hs1 Hq Hconv.
    pose proof (inv_pushed _ _ m _ Hm Hs1) as Hs2.
    destruct (inv_plain _ _ _ Hs2) as [_ Hplain].
    rewrite (log_ok _ Hlog Hplain). eexists. split_and!; [done|..].
    - by apply inv_logged.
    - change (conversation (logged ?l ?s)) with (conversation s).
      rewrite pushed_conversation by apply (inv_plain _ _ _ Hs1).
      by rewrite Hconv.
    - done.
    - eapply quiet_trans; [done|]. eapply quiet_trans; [apply quiet_pushed|].
      apply quiet_logged. }
  unfold call_outcome. simpl.
  destruct (json_loads (wrap_args a)) as [args|e] eqn:Hloads.
  - pose proof (inv_called_tool _ _ n args _ Hs) as Hs1.
    destruct (_ ← (call_tool n args (session s)).1; _) as [text|e] eqn:Hres.
    + destruct (Hpush (user_says (tool_result_content n text))
                  (called n args s)) as (s' & Hrun & Hinv & Hconv & Ht & Hq);
        [constructor|done|apply quiet_called|done|].
      rewrite Hrun. exists s'. by split_and!.
    + destruct (Hpush (user_says (tool_error_content n e))
                  (called n args s)) as (s' & Hrun & Hinv & Hconv & Ht & Hq);
        [constructor|done|apply quiet_called|done|].
      exists s'. by split_and!.
  - destruct (Hpush (user_says (tool_error_content n e)) s)
      as (s' & Hrun & Hinv & Hconv & Ht & Hq);
      [constructor|done|apply quiet_refl|done|].
    exists s'. by split_and!.
Qed.

Lemma calls_contained old q (calls : list (string * string)) (s : state) :
  log_writable → inv old q s →
  ∃ s',
    for_each calls process_call s = (Some (Ok tt), s')
    ∧ inv old q s'
    ∧ conversation s' = conversation s ++ call_outcomes calls (session s)
    ∧ quiet s s'.
Proof.
  intros Hlog. revert s. induction calls as [|call calls IH]; intros s Hs.
  - exists s. split_and!; try done.
    + simpl. by rewrite (right_id_L [] (++)).
    + apply quiet_refl.
  - destruct (process_call_contained _ _ call _ Hlog Hs)
      as (s1 & Hrun1 & Hs1 & Hconv1 & Ht1 & Hq1).
    destruct (IH _ Hs1) as (s' & Hrun & Hs' & Hconv & Hq).
    exists s'. split_and!.
    + simpl. unfold mbind, M_bind. by rewrite Hrun1.
    + done.
    + simpl. by rewrite Hconv, Hconv1, Ht1, <-(assoc_L (++)).
    + by eapply quiet_trans.
Qed.

Lemma inv_restart old q (s : state) : inv old q s → inv (trace s) q s.
Proof.
  intros [Hseed _]. split; [done|]. exists [].
  split; [by rewrite (right_id_L [] (++))|]. simpl. repeat constructor.
Qed.

Lemma inv_trace old q (s : state) : inv old q s → ∃ new, trace s = old ++ new.
Proof. intros [_ (new & Htr & _)]. eauto. Qed.

(** A round starts with a completion request for the whole conversation. *)
Lemma loop_requests old q (fuel : nat) (s : state) :
  inv old q s →
  ∃ new,
    trace (conversation_loop (S fuel) s).2 =
    trace s
    ++ Generate (conversation s) (request (self_tools s) (conversation s))
       :: new.
Proof.
  intros Hs. destruct (inv_plain _ _ _ Hs) as [Hwf Hplain].
  rewrite (loop_run _ _ Hwf Hplain). simpl.
  set (out := chat_completions_create _ _).
  set (s1 := requested out.2 s).
  assert (inv (trace s1) q s1) as Hs1.
  { by eapply inv_restart, inv_requested. }
  assert (∀ s', (∃ new, trace s' = trace s1 ++ new) →
            ∃ new, trace s' = trace s
                   ++ Generate (conversation s)
                        (request (self_tools s) (conversation s)) :: new)
    as Hnew.
  { intros s' [new ->]. exists new. unfold s1, requested. simpl.
    by rewrite <-(assoc_L (++)). }
  destruct out.1 as [response|e].
  - pose proof (inv_pushed _ _ (assistant_says (default "" response)) _
                  (written_assistant _) Hs1) as Hs2.
    apply Hnew. eapply inv_trace.
    destruct (Re.findall _) as [|call calls].
    + by apply keeps_log.
    + revert Hs2. apply keeps_bind; [apply keeps_log|]. intros _.
      apply keeps_bind; [|intros _; apply keeps_loop].
      apply keeps_for_each, keeps_process_call.
  - apply Hnew. exists []. by rewrite (right_id_L [] (++)).
Qed.

Lemma contains_intro (p a r : string) : Text.contains p (a +:+ p +:+ r) = true.
Proof.
  assert (Text.startswith p (p +:+ r) = true) as Hstart.
  { unfold Text.startswith. rewrite after_prefix_app. by apply bool_decide_eq_true. }
  induction a as [|c a IH].
  - rewrite app_nil_l. destruct (p +:+ r); simpl; by rewrite Hstart.
  - rewrite app_cons. simpl. rewrite IH. apply orb_true_r.
Qed.

(** A round whose response holds calls, from any state of the loop. *)
Lemma round_contained old (fuel : nat) (q : string) (s : state)
    (response : option string) (p1 : P) :
  log_writable → inv old q s →
  chat_completions_create (request (self_tools s) (conversation s)) (llm s)
  = (Ok response, p1) →
  Re.findall (default "" response) ≠ [] →
  ∃ new more,
    trace (conversation_loop (S (S fuel)) s).2 = trace s ++ new
    ∧ handed_lists new
      = conversation s
        :: (conversation s
            ++ assistant_says (default "" response)
               :: call_outcomes (Re.findall (default "" response)) (session s))
        :: more.
Proof.
  intros Hlog Hinv Hchat Hcalls.
  destruct (inv_plain _ _ _ Hinv) as [Hwf Hplain].
  set (content := default "" response) in *.
  set (s2 := answered content p1 s).
  pose proof (inv_answered _ _ content p1 _ Hinv) as Hinv2.
  fold s2 in Hinv2. destruct (inv_plain _ _ _ Hinv2) as [Hwf2 Hplain2].
  set (s3 := logged (write_conversation (conversation s2) (files s2)).2 s2).
  pose proof (inv_logged _ _ (write_conversation (conversation s2) (files s2)).2
                _ Hinv2) as Hinv3. fold s3 in Hinv3.
  destruct (calls_contained _ _ (Re.findall content) _ Hlog Hinv3)
    as (s' & Hrun & Hinv' & Hconv' & _ & _ & evs & Hevs & Hquiet).
  change (session s3) with (session s) in Hconv'.
  destruct (loop_requests _ _ fuel _ Hinv') as [new Hnew].
  assert (conversation_loop (S (S fuel)) s = conversation_loop (S fuel) s')
    as Hloop.
  { rewrite (loop_run _ _ Hwf Hplain). simpl.
    rewrite Hchat. simpl. fold content.
    change (pushed _ (requested p1 s)) with s2.
    destruct (Re.findall content) as [|call calls] eqn:Hfind; [done|].
    unfold mbind at 1. unfold M_bind at 1.
    rewrite (log_ok _ Hlog Hplain2). fold s3.
    unfold mbind at 1. unfold M_bind at 1. by rewrite Hrun. }
  assert (conversation s3 = conversation s ++ [assistant_says content])
    as Hconv3.
  { change (conversation s3) with (conversation s2). unfold s2.
    by rewrite answered_conversation. }
  eexists. exists (handed_lists new).
  rewrite Hloop, Hnew, Hevs.
  split.
  - unfold s3, logged, s2, answered, pushed, requested. simpl.
    rewrite <-!(assoc_L (++)). reflexivity.
  - unfold handed_lists in *. rewrite !omap_app, Hquiet.
    simpl. by rewrite Hconv', Hconv3, <-(assoc_L (++)).
Qed.

(** A failed write of the log after the error notice leaves the call by
    raising the error of the write. *)
Lemma notice_write_raises old q (n : string) (e e' : exn) (l1 : L)
    (s : state) :
  inv old q s →
  write_conversation
    (conversation s ++ [user_says (tool_error_content n e)]) (files s)
  = (Err e', l1) →
  log_conversation (pushed (user_says (tool_error_content n e)) s)
  = (Some (Err e'),
     logged l1 (pushed (user_says (tool_error_content n e)) s)).
Proof.
  intros Hs Hwrite.
  pose proof (inv_pushed _ _ _ _ (written_error n e) Hs) as Hs2.
  destruct (inv_plain _ _ _ Hs2) as [_ Hplain].
  rewrite (log_run _ Hplain).
  rewrite pushed_conversation by apply (inv_plain _ _ _ Hs).
  change (files (pushed ?m s)) with (files s). by rewrite Hwrite.
Qed.

(** C4, as the code has it.  A failing call stays inside the loop as long
    as the conversation log can be written.  Where every write of the log
    succeeds: when the response of a round holds call fragments, the loop
    appends, after the assistant message, one user message per fragment in
    the order of the fragments ([call_outcomes]: each call is made in the
    state in which the calls before it left the tool session) and, with
    fuel left, requests the next completion with all of them in the
    conversation.  This holds in every round, that is from every state [s]
    of the loop ([inv]: the conversation is the query followed by messages
    the loop wrote), and so for the first round of [process_query] from any
    client state.  The message for a fragment whose argument text does not
    decode, or whose call the tool session answers by raising in the state
    it is in, is the error notice for that tool with the text of the
    exception, not a result; the notice names the tool; no exception reaches
    the caller.  The except clause writes the log itself, and a failure of
    that write is not contained: the error of the write leaves the call, in
    any round, with the notice appended; in the first round it ends the
    query, which returns the query, the response, the notice and an
    assistant message that reports the error of the write, without a
    further completion request. *)
Theorem tool_failures_are_contained (fuel : nat) (q : string) :
  (log_writable →
   (∀ old s response p1,
      inv old q s →
      chat_completions_create (request (self_tools s) (conversation s))
        (llm s)
      = (Ok response, p1) →
      Re.findall (default "" response) ≠ [] →
      ∃ new more,
        trace (conversation_loop (S (S fuel)) s).2 = trace s ++ new
        ∧ handed_lists new
          = conversation s
            :: (conversation s
                ++ assistant_says (default "" response)
                   :: call_outcomes (Re.findall (default "" response))
                        (session s))
            :: more)
   ∧ (∀ s0 response p1,
        chat_completions_create (request (self_tools s0) [user_says q])
          (llm s0)
        = (Ok response, p1) →
        Re.findall (default "" response) ≠ [] →
        ∃ new more,
          trace (process_query (S (S fuel)) q s0).2 = trace s0 ++ new
          ∧ handed_lists new
            = [user_says q]
              :: ([user_says q; assistant_says (default "" response)]
                  ++ call_outcomes (Re.findall (default "" response))
                       (session s0))
              :: more))
  ∧ (∀ calls t, length (call_outcomes calls t) = length calls)
  ∧ (∀ call t e,
       json_loads (wrap_args call.2) = Err e →
       (call_outcome call t).1 = user_says (tool_error_content call.1 e))
  ∧ (∀ call t args e,
       json_loads (wrap_args call.2) = Ok args →
       (call_tool call.1 args t).1 = Err e →
       (call_outcome call t).1 = user_says (tool_error_content call.1 e))
  ∧ (∀ tool_name e,
       Text.contains tool_name (tool_error_content tool_name e) = true)
  ∧ (∀ s0 e, (process_query (S (S fuel)) q s0).1 ≠ Some (Err e))
  ∧ (∀ old s tool_name tool_args_str e e' l1,
       inv old q s →
       json_loads (wrap_args tool_args_str) = Err e
       ∨ (∃ args, json_loads (wrap_args tool_args_str) = Ok args
                  ∧ (call_tool tool_name args (session s)).1 = Err e) →
       write_conversation
         (conversation s ++ [user_says (tool_error_content tool_name e)])
         (files s)
       = (Err e', l1) →
       (process_call (tool_name, tool_args_str) s).1 = Some (Err e')
       ∧ conversation (process_call (tool_name, tool_args_str) s).2
         = conversation s ++ [user_says (tool_error_content tool_name e)])
  ∧ (∀ s0 response p1 l1 tool_name tool_args_str calls e e' l2,
       chat_completions_create (request (self_tools s0) [user_says q])
         (llm s0)
       = (Ok response, p1) →
       Re.findall (default "" response)
       = (tool_name, tool_args_str) :: calls →
       write_conversation
         [user_says q; assistant_says (default "" response)] (files s0)
       = (Ok tt, l1) →
       json_loads (wrap_args tool_args_str) = Err e →
       write_conversation
         [user_says q; assistant_says (default "" response);
          user_says (tool_error_content tool_name e)] l1
       = (Err e', l2) →
       (process_query (S fuel) q s0).1
       = Some (Ok [user_says q; assistant_says (default "" response);
                   user_says (tool_error_content tool_name e);
                   assistant_says (fallback_content e')])
       ∧ ∃ new,
           trace (process_query (S fuel) q s0).2 = trace s0 ++ new
           ∧ handed_lists new = [[user_says q]]).
Proof.
  split_and!.
  - intros Hlog. split.
    + intros old s response p1 Hinv Hchat Hcalls.
      by eapply round_contained.
    + intros s0 response p1 Hchat Hcalls.
      rewrite process_query_trace.
      destruct (round_contained _ fuel _ _ response p1 Hlog (inv_seed q s0))
        as (new & more & Htr & Hhanded); [|done|].
      { by rewrite seed_conversation. }
      rewrite seed_conversation in Hhanded. eauto 10.
  - intros calls. induction calls as [|call calls IH]; intros t; [done|].
    simpl. by rewrite IH.
  - intros call t e Hloads. unfold call_outcome. by rewrite Hloads.
  - intros call t args e Hloads Hcall. unfold call_outcome.
    rewrite Hloads. simpl. by rewrite Hcall.
  - intros n e. apply contains_intro.
  - intros s0 e. apply no_exception_escapes.
  - intros old s n a e e' l1 Hs Hcause Hwrite.
    rewrite process_call_run.
    destruct Hcause as [Hloads|(args & Hloads & Hcall)]; rewrite Hloads.
    + rewrite (notice_write_raises _ _ _ _ _ _ _ Hs Hwrite). cbn [fst snd].
      split; [done|].
      change (conversation (logged ?l ?x)) with (conversation x).
      by rewrite pushed_conversation by apply (inv_plain _ _ _ Hs).
    + rewrite Hcall. simpl.
      pose proof (inv_called_tool _ _ n args _ Hs) as Hs1.
      rewrite (notice_write_raises _ _ _ _ _ _ _ Hs1 Hwrite). cbn [fst snd].
      split; [done|].
      change (conversation (logged ?l ?x)) with (conversation x).
      by rewrite pushed_conversation by apply (inv_plain _ _ _ Hs1).
  - intros s0 response p1 l1 n a calls e e' l2 Hchat Hfind Hw1 Hloads Hw2.
    pose proof (inv_seed q s0) as Hinv.
    destruct (inv_plain _ _ _ Hinv) as [Hwf Hplain].
    set (content := default "" response) in *.
    set (s2 := answered content p1 (seed q s0)).
    pose proof (inv_answered _ _ content p1 _ Hinv) as Hinv2.
    fold s2 in Hinv2. destruct (inv_plain _ _ _ Hinv2) as [Hwf2 Hplain2].
    assert (conversation s2 = [user_says q; assistant_says content])
      as Hconv2.
    { unfold s2. by rewrite answered_conversation, seed_conversation. }
    set (s3 := logged l1 s2).
    pose proof (inv_logged _ _ l1 _ Hinv2) as Hinv3. fold s3 in Hinv3.
    set (s4 := logged l2 (pushed (user_says (tool_error_content n e)) s3)).
    assert (process_call (n, a) s3 = (Some (Err e'), s4)) as Hcall.
    { rewrite process_call_run, Hloads.
      apply (notice_write_raises _ _ _ _ _ _ _ Hinv3).
      change (conversation s3) with (conversation s2).
      change (files s3) with l1. by rewrite Hconv2. }
    assert (conversation_loop (S fuel) (seed q s0) = (Some (Err e'), s4))
      as Hloop.
    { rewrite (loop_run _ _ Hwf Hplain). simpl. rewrite seed_conversation.
      change (self_tools (seed q s0)) with (self_tools s0).
      change (llm (seed q s0)) with (llm s0).
      rewrite Hchat. simpl. fold content. rewrite Hfind.
      change (pushed _ (requested p1 (seed q s0))) with s2.
      unfold mbind at 1. unfold M_bind at 1.
      rewrite (log_run _ Hplain2), Hconv2.
      change (files s2) with (files s0). rewrite Hw1. cbn [fst snd].
      fold s3.
      unfold mbind at 1. unfold M_bind at 1.
      simpl. unfold mbind at 1. unfold M_bind at 1. by rewrite Hcall. }
    assert (conversation s4
            = [user_says q; assistant_says content;
               user_says (tool_error_content n e)]) as Hconv4.
    { unfold s4. change (conversation (logged ?l ?x)) with (conversation x).
      rewrite pushed_conversation by apply (inv_plain _ _ _ Hinv3).
      change (conversation s3) with (conversation s2). by rewrite Hconv2. }
    assert (wf s4) as Hwf4.
    { unfold s4. apply (pushed_wf _ s3). apply (inv_plain _ _ _ Hinv3). }
    rewrite process_query_trace, process_query_run, Hloop. cbn [fst snd].
    split.
    + by rewrite pushed_conversation, Hconv4 by done.
    + eexists. split.
      * unfold s4, s3, logged, pushed, s2, answered, pushed, requested.
        simpl. rewrite <-!(assoc_L (++)). reflexivity.
      * by rewrite seed_conversation.
Qed.

(** ** The result formatter *)

Lemma join_strs (sep : string) (texts : list string) (i : nat) :
  join_from i sep (VStr <$> texts) = Ok (Text.join sep texts).
Proof.
  revert i. induction texts as [|t texts IH]; intros i; [done|].
  rewrite fmap_cons. simpl. rewrite IH. simpl.
  by destruct texts.
Qed.


(** ** The parser *)

Lemma all_chars_impl (f g : ascii → bool) (s : string) :
  (∀ c, f c = true → g c = true) →
  Re.all_chars f s = true → Re.all_chars g s = true.
Proof.
  intros Hfg. induction s as [|c s IH]; [done|]. simpl.
  intros [Hc Hs]%andb_true_iff. by rewrite (Hfg c Hc), IH.
Qed.

Lemma ascii_word_is_word (c : ascii) :
  Text.is_ascii_word c = true → Text.is_word c = true.
Proof. unfold Text.is_word. by intros ->. Qed.

Lemma findall_from_step (fuel : nat) (s : string) :
  Re.findall_from (S fuel) s =
  match Re.function_pattern s with
  | Some (name, args, rest) => (name, args) :: Re.findall_from fuel rest
  | None =>
      match s with
      | "" => []
      | String _ s' => Re.findall_from fuel s'
      end
  end.
Proof. reflexivity. Qed.

Lemma findall_from_empty (fuel : nat) : Re.findall_from fuel "" = [].
Proof. by destruct fuel. Qed.

(** C5, as the code has it.  The parser returns the calls of the text in
    the order of the text: each pair is the name and the raw argument text of
    the leftmost fragment after the end of the fragment before it, where the
    name is a run of word characters of Python ([A-Za-z0-9_] are word
    characters, and so are the alphanumeric characters beyond ASCII) and the
    argument text is the shortest text without a newline that the closing
    brace and angle follow.  A text that is the fragment of such a name with
    the arguments a = b (as a JSON interior) gives this one pair, and the
    text handed to [json.loads] for it is that interior between braces. *)
Theorem findall_lists_the_calls :
  (∀ text, Re.scan text (Re.findall text))
  ∧ (∀ name,
       Re.identifier name →
       let args := quoted "a" +:+ ":" +:+ quoted "b" in
       Re.findall (Re.fragment name args) = [(name, args)]
       ∧ wrap_args args = "{" +:+ args +:+ "}")
  ∧ (∀ name,
       name ≠ "" → Re.all_chars Text.is_ascii_word name = true →
       Re.identifier name).
Proof.
  split_and!.
  - apply findall_scan.
  - intros name [Hne Hall] args. split; [|by vm_compute].
    assert (Re.function_pattern (Re.fragment name args)
            = Some (name, args, "")) as Hpat.
    { rewrite <-(app_nil_r (Re.fragment name args)), fragment_app.
      unfold Re.function_pattern. rewrite after_prefix_app. simpl.
      rewrite (word_run_complete name) by done.
      destruct (decide (name = "")); [done|]. by vm_compute. }
    unfold Re.findall. rewrite findall_from_step, Hpat.
    by rewrite findall_from_empty.
  - intros name Hne Hall. split; [done|].
    eapply all_chars_impl; [apply ascii_word_is_word|done].
Qed.

Lemma no_call_without (f : ascii → bool) (text : string) :
  f "{"%char = false ∨ f "<"%char = false →
  Re.all_chars f text = true →
  ¬ ∃ pre name args rest,
      Re.identifier name ∧ text = pre +:+ Re.fragment name args +:+ rest.
Proof.
  intros Hf Hall (pre & name & args & rest & _ & ->).
  rewrite fragment_app, !all_chars_app in Hall. simpl in Hall.
  destruct Hf as [Hf|Hf]; rewrite Hf in Hall;
    rewrite ?andb_false_r in Hall; simpl in Hall;
    rewrite ?andb_false_r in Hall; done.
Qed.

(** C6, as the code has it.  A text without a call gives no match, where
    a call is what the pattern matches: the opening, a name that is a run of
    word characters of Python ([A-Za-z0-9_] and the alphanumeric characters
    beyond ASCII), the brace, an argument text without a newline, the
    closing brace and angle.  The parser returns the empty list exactly when
    no part of the text is such a call (it is a total function: there is no
    text on which it raises).  So it does for a text without an opening
    angle or without an opening brace, whatever else it holds, and for the
    form without braces, the name directly followed by the quoted pair and
    the closing angle. *)
Theorem findall_without_call :
  (∀ text,
     Re.findall text = []
     ↔ ¬ ∃ pre name args rest,
           Re.identifier name ∧ Re.one_line args
           ∧ text = pre +:+ Re.fragment name args +:+ rest)
  ∧ (∀ text,
       Re.all_chars (λ c, negb (Ascii.eqb c "<")) text = true
       ∨ Re.all_chars (λ c, negb (Ascii.eqb c "{")) text = true →
       Re.findall text = [])
  ∧ (∀ name,
       Re.all_chars Text.is_word name = true →
       Re.findall
         ("<function=" +:+ name +:+ quoted "a" +:+ ":" +:+ quoted "b" +:+ ">")
       = []).
Proof.
  assert (∀ text,
            (¬ ∃ pre name args rest,
                 Re.identifier name
                 ∧ text = pre +:+ Re.fragment name args +:+ rest) →
            Re.findall text = []) as Hnone.
  { intros text Hno. apply findall_nil.
    intros pre suf -> (name & args & rest & Hid & _ & ->).
    destruct Hno. by exists pre, name, args, rest. }
  split_and!.
  - intros text. rewrite findall_nil. split.
    + intros Hno (pre & name & args & rest & Hid & Hline & ->).
      destruct (Hno pre (Re.fragment name args +:+ rest) eq_refl).
      by exists name, args, rest.
    + intros Hno pre suf -> (name & args & rest & Hid & Hline & ->).
      destruct Hno. by exists pre, name, args, rest.
  - intros text [Hall|Hall]; apply Hnone;
      eapply no_call_without; try done; auto.
  - intros name Hall. apply Hnone.
    apply (no_call_without (λ c, negb (Ascii.eqb c "{"))); [by left|].
    rewrite !all_chars_app. rewrite andb_true_iff. split; [done|].
    rewrite andb_true_iff. split; [|done].
    eapply all_chars_impl; [|done].
    intros c Hc. destruct (Ascii.eqb_spec c "{") as [->|]; done.
Qed.

End Client.

(** * Examples

    A Python runtime and collaborators to run the client on. *)
Module Fixture.

(** ** [json.loads], on texts without string escapes and fractions *)

Definition is_json_space (c : ascii) : bool :=
  (Text.code c =? 32)%N || (Text.code c =? 9)%N || (Text.code c =? 10)%N
  || (Text.code c =? 13)%N.

Fixpoint skip_space (s : string) : string :=
  match s with
  | String c s' => if is_json_space c then skip_space s' else s
  | "" => ""
  end.

(** The characters of a string up to its closing quote. *)
Fixpoint string_body (s : string) : option (string * string) :=
  match s with
  | "" => None
  | String c s' =>
      if (Text.code c =? 34)%N then Some ("", s')
      else if (Text.code c =? 92)%N || (Text.code c <? 32)%N then None
      else '(t, r) ← string_body s'; Some (String c t, r)
  end.

Fixpoint digits (acc : Z) (s : string) : Z * string :=
  match s with
  | String c s' =>
      if Text.between 48 57 c
      then digits (10 * acc + Z.of_N (Text.code c) - 48) s'
      else (acc, s)
  | "" => (acc, "")
  end.

Definition number (s : string) : option (pyval * string) :=
  match s with
  | String "-" (String c _ as s') =>
      if Text.between 48 57 c
      then Some (VInt (- (digits 0 s').1), (digits 0 s').2) else None
  | String c _ =>
      if Text.between 48 57 c
      then Some (VInt (digits 0 s).1, (digits 0 s).2) else None
  | "" => None
  end.

Definition literal (s : string) : option (pyval * string) :=
  match Text.after_prefix "true" s, Text.after_prefix "false" s,
        Text.after_prefix "null" s with
  | Some r, _, _ => Some (VBool true, r)
  | _, Some r, _ => Some (VBool false, r)
  | _, _, Some r => Some (VNone, r)
  | _, _, _ => number s
  end.

Fixpoint value (fuel : nat) (s : string) : option (pyval * string) :=
  match fuel with
  | 0 => None
  | S fuel =>
      match skip_space s with
      | String "{" r =>
          match skip_space r with
          | String "}" r' => Some (VDict [], r')
          | r' => '(d, r'') ← members fuel r'; Some (VDict d, r'')
          end
      | String "[" r =>
          match skip_space r with
          | String "]" r' => Some (VList [], r')
          | r' => '(l, r'') ← elements fuel r'; Some (VList l, r'')
          end
      | String "034" r => '(t, r') ← string_body r; Some (VStr t, r')
      | s' => literal s'
      end
  end
with members (fuel : nat) (s : string)
  : option (list (string * pyval) * string) :=
  match fuel with
  | 0 => None
  | S fuel =>
      match s with
      | String "034" r =>
          '(k, r) ← string_body r;
          match skip_space r with
          | String ":" r =>
              '(v, r) ← value fuel r;
              match skip_space r with
              | String "," r =>
                  '(d, r) ← members fuel (skip_space r); Some ((k, v) :: d, r)
              | String "}" r => Some ([(k, v)], r)
              | _ => None
              end
          | _ => None
          end
      | _ => None
      end
  end
with elements (fuel : nat) (s : string) : option (list pyval * string) :=
  match fuel with
  | 0 => None
  | S fuel =>
      '(v, r) ← value fuel s;
      match skip_space r with
      | String "," r => '(l, r) ← elements fuel r; Some (v :: l, r)
      | String "]" r => Some ([v], r)
      | _ => None
      end
  end.

Definition json_loads (s : string) : result pyval :=
  match value (S (String.length s)) s with
  | Some (v, r) =>
      match skip_space r with
      | "" => Ok v
      | _ => Err (Exn "JSONDecodeError" "Extra data")
      end
  | None => Err (Exn "JSONDecodeError" "Expecting value")
  end.

(** ** [json.dumps(_, indent=2)] *)

Definition hex (n : N) : ascii :=
  ascii_of_N (if (n <? 10)%N then 48 + n else 87 + n).

Definition escape_char (c : ascii) : string :=
  let n := Text.code c in
  let bs := String "092"%char "" in
  if (n =? 34)%N then bs +:+ dquote
  else if (n =? 92)%N then bs +:+ bs
  else if (n =? 8)%N then bs +:+ "b"
  else if (n =? 9)%N then bs +:+ "t"
  else if (n =? 10)%N then bs +:+ "n"
  else if (n =? 12)%N then bs +:+ "f"
  else if (n =? 13)%N then bs +:+ "r"
  else if (n <? 32)%N || (126 <? n)%N
       then bs +:+ "u00" +:+ String (hex (n / 16)) (String (hex (n mod 16)) "")
  else String c "".

Fixpoint escape (s : string) : string :=
  match s with
  | "" => ""
  | String c s' => escape_char c +:+ escape s'
  end.

Fixpoint indent (level : nat) : string :=
  match level with
  | 0 => ""
  | S level => "  " +:+ indent level
  end.

Definition block (opening closing : string) (level : nat)
    (items : list string) : string :=
  let nl := String "010"%char "" in
  opening +:+ nl +:+ indent (S level)
  +:+ Text.join ("," +:+ nl +:+ indent (S level)) items
  +:+ nl +:+ indent level +:+ closing.

Fixpoint dumps (level : nat) (v : pyval) : result string :=
  match v with
  | VNone => Ok "null"
  | VBool b => Ok (if b then "true" else "false")
  | VInt z => Ok (pretty z)
  | VStr s => Ok (quoted (escape s))
  | VList [] => Ok "[]"
  | VList l =>
      items ← (fix go (l : list pyval) : result (list string) :=
                 match l with
                 | [] => Ok []
                 | x :: l' =>
                     s ← dumps (S level) x; r ← go l'; Ok (s :: r)
                 end) l;
      Ok (block "[" "]" level items)
  | VDict [] => Ok "{}"
  | VDict d =>
      items ← (fix go (d : list (string * pyval)) : result (list string) :=
                 match d with
                 | [] => Ok []
                 | (k, x) :: d' =>
                     s ← dumps (S level) x; r ← go d';
                     Ok ((quoted (escape k) +:+ ": " +:+ s) :: r)
                 end) d;
      Ok (block "{" "}" level items)
  | VObj cls _ =>
      Err (Exn "TypeError"
             ("Object of type " +:+ cls +:+ " is not JSON serializable"))
  end.

Definition json_dumps (v : pyval) : result string := dumps 0 v.

(** ** [str] on a value that is no [str]: scalars and containers as
    Python prints them, an object as an instance of a class without fields *)

Definition repr_char (q : ascii) (c : ascii) : string :=
  let n := Text.code c in
  let bs := String "092"%char "" in
  if Ascii.eqb c q then bs +:+ String q ""
  else if (n =? 92)%N then bs +:+ bs
  else if (n =? 9)%N then bs +:+ "t"
  else if (n =? 10)%N then bs +:+ "n"
  else if (n =? 13)%N then bs +:+ "r"
  else if (n <? 32)%N || Text.between 127 160 c || (n =? 173)%N
       then bs +:+ "x" +:+ String (hex (n / 16)) (String (hex (n mod 16)) "")
  else String c "".

Fixpoint repr_chars (q : ascii) (s : string) : string :=
  match s with
  | "" => ""
  | String c s' => repr_char q c +:+ repr_chars q s'
  end.

Definition repr_str (s : string) : string :=
  let q := if Text.contains "'" s && negb (Text.contains dquote s)
           then "034"%char else "'"%char in
  String q "" +:+ repr_chars q s +:+ String q "".

Fixpoint repr (v : pyval) : string :=
  match v with
  | VNone => "None"
  | VBool b => if b then "True" else "False"
  | VInt z => pretty z
  | VStr s => repr_str s
  | VList l =>
      "[" +:+ Text.join ", "
                ((fix go (l : list pyval) : list string :=
                    match l with
                    | [] => []
                    | x :: l' => repr x :: go l'
                    end) l) +:+ "]"
  | VDict d =>
      "{" +:+ Text.join ", "
                ((fix go (d : list (string * pyval)) : list string :=
                    match d with
                    | [] => []
                    | (k, x) :: d' => (repr_str k +:+ ": " +:+ repr x) :: go d'
                    end) d) +:+ "}"
  | VObj cls _ => cls +:+ "()"
  end.

Definition builtin_str (v : pyval) : result string :=
  match v with
  | VStr s => Ok s
  | _ => Ok (repr v)
  end.

(** ** Collaborators *)

(** A completion service that plays a script and is unreachable once the
    script is over. *)
Definition scripted (sent : list msg) (script : list (option string))
  : result (option string) * list (option string) :=
  match script with
  | response :: script' => (Ok response, script')
  | [] => (Err (Exn "APIConnectionError" "Connection error."), [])
  end.


(** A tool session whose only tool is [search]. *)
Definition search_session (tool_name : string) (tool_args : pyval) (t : unit)
  : result pyval * unit :=
  if decide (tool_name = "search") then (Ok canonical_payload, tt)
  else (Err (Exn "McpError" ("Unknown tool: " +:+ tool_name)), tt).

(** A directory that can be written, and one that cannot. *)
Definition writable (conv : list msg) (l : unit) : result unit * unit :=
  (Ok tt, tt).
Definition read_only (conv : list msg) (l : unit) : result unit * unit :=
  (Err (Exn "OSError" "[Errno 30] Read-only file system: 'conversations'"),
   tt).

(** A disk with room for one write: the state tells whether it is full. *)
Definition no_space_error : exn :=
  Exn "OSError" "[Errno 28] No space left on device".
Definition fills_up (conv : list msg) (full : bool) : result unit * bool :=
  if full then (Err no_space_error, true) else (Ok tt, true).

(** A completion service that cannot be reached. *)
Definition unreachable_error : exn :=
  Exn "APIConnectionError" "Connection error.".
Definition unreachable (sent : list msg) (p : unit)
  : result (option string) * unit :=
  (Err unreachable_error, tt).

(** A client that is connected and has listed the tools. *)
Definition client {P} (p : P) : @state P unit unit :=
  State [] [] [Tool "search" "Search the web" VNone] p tt tt [].

Definition run (files : list msg → unit → result unit * unit)
    (fuel : nat) (q : string) (script : list (option string)) :=
  process_query scripted search_session files json_loads json_dumps
    builtin_str fuel q (client script).

Definition run_on_full_disk (fuel : nat) (q : string)
    (script : list (option string)) :=
  process_query scripted search_session fills_up json_loads json_dumps
    builtin_str fuel q
    (State [] [] [Tool "search" "Search the web" VNone] script tt false []).

Definition run_unreachable (fuel : nat) (q : string) :=
  process_query unreachable search_session writable json_loads json_dumps
    builtin_str fuel q (client tt).

End Fixture.


(** ** The claims on the examples *)

Definition hello : list (option string) := [Some "Hello."].
Definition chain_script : list (option string) :=
  [Some canonical_round1; Some "Here is the answer."].
Definition read_only_error : exn :=
  Exn "OSError" "[Errno 30] Read-only file system: 'conversations'".
Definition newline : string := String "010"%char "".

(** C1 on the scripted service and the search session. *)
Lemma canonical_tool_chain_witness :
  (Fixture.run Fixture.writable 2 "What is x?" chain_script).1
  = Some (Ok (canonical_conversation "What is x?"))
  ∧ Text.contains (Re.fragment "search" canonical_args) canonical_round1
    = true.
Proof.
  apply (canonical_tool_chain Fixture.scripted Fixture.search_session
           Fixture.writable Fixture.json_loads Fixture.json_dumps
           Fixture.builtin_str 0 "What is x?" (Fixture.client chain_script)
           [Some "Here is the answer."] [] tt);
    [reflexivity| vm_compute; reflexivity |reflexivity|reflexivity|].
  intros conv l. reflexivity.
Defined.

(** The claim C1 fails on the code: with the same service and the same
    tool session, the query returns three messages, and the tool is never
    called, when the log cannot be written. *)
Lemma canonical_chain_stops_at_a_failed_write :
  (Fixture.run Fixture.read_only 2 "What is x?" chain_script).1
  = Some (Ok [user_says "What is x?"; assistant_says canonical_round1;
              assistant_says (fallback_content read_only_error)])
  ∧ (Fixture.run Fixture.read_only 2 "What is x?" chain_script).1
    ≠ Some (Ok (canonical_conversation "What is x?"))
  ∧ trace (Fixture.run Fixture.read_only 2 "What is x?" chain_script).2
    = [Generate [user_says "What is x?"]
         (request (self_tools (Fixture.client chain_script))
            [user_says "What is x?"]);
       Log [user_says "What is x?"; assistant_says canonical_round1]].
Proof.
  assert ((Fixture.run Fixture.read_only 2 "What is x?" chain_script).1
          = Some (Ok [user_says "What is x?"; assistant_says canonical_round1;
                      assistant_says (fallback_content read_only_error)]))
    as Hrun by (vm_compute; reflexivity).
  split; [done|]. split; [|vm_compute; reflexivity].
  rewrite Hrun. intros [=].
Qed.

(** C2 on a service that cannot be reached. *)
Lemma process_query_never_raises_witness :
  ∃ e,
    (Fixture.unreachable
       (request (self_tools (Fixture.client tt)) [user_says "Anyone there?"])
       (llm (Fixture.client tt))).1 = Err e
    ∧ (Fixture.run_unreachable 1 "Anyone there?").1
      = Some (Ok [user_says "Anyone there?";
                  assistant_says (fallback_content e)]).
Proof.
  apply (proj2 (process_query_never_raises Fixture.unreachable
                  Fixture.search_session Fixture.writable Fixture.json_loads
                  Fixture.json_dumps Fixture.builtin_str)
           0 "Anyone there?" (Fixture.client tt)).
  intros sent p. exists Fixture.unreachable_error. reflexivity.
Defined.

(** C3 on a directory that cannot be written. *)
Lemma failed_log_write_ends_query_witness :
  (Fixture.run Fixture.read_only 1 "Hi" hello).1
  = Some (Ok [user_says "Hi"; assistant_says "Hello.";
              assistant_says (fallback_content read_only_error)])
  ∧ trace (Fixture.run Fixture.read_only 1 "Hi" hello).2
    = [Generate [user_says "Hi"]
         (request (self_tools (Fixture.client hello)) [user_says "Hi"]);
       Log [user_says "Hi"; assistant_says "Hello."]].
Proof.
  destruct (failed_log_write_ends_query Fixture.scripted
              Fixture.search_session Fixture.read_only Fixture.json_loads
              Fixture.json_dumps Fixture.builtin_str) as (_ & _ & _ & Hfirst).
  apply (Hfirst 0 "Hi" (Fixture.client hello) (Some "Hello.") []
           read_only_error tt); reflexivity.
Defined.

(** The claim C3 fails on the code: the same exchange returns two messages
    when the log can be written and three when it cannot. *)
Lemma log_failure_changes_the_conversation :
  (Fixture.run Fixture.writable 1 "Hi" hello).1
  = Some (Ok [user_says "Hi"; assistant_says "Hello."])
  ∧ (Fixture.run Fixture.read_only 1 "Hi" hello).1
    = Some (Ok [user_says "Hi"; assistant_says "Hello.";
                assistant_says (fallback_content read_only_error)]).
Proof. split; vm_compute; reflexivity. Qed.

(** C4 on a response that calls a tool the session does not know and a tool
    with arguments that do not decode. *)
Definition failing_round : string :=
  "Trying. " +:+ Re.fragment "lookup" (quoted "id" +:+ ":1")
  +:+ " and " +:+ Re.fragment "search" "oops".

Lemma tool_failures_are_contained_witness :
  ∃ e new more,
    Fixture.json_loads (wrap_args "oops") = Err e
    ∧ trace (Fixture.run Fixture.writable 2 "Go" [Some failing_round]).2 = new
    ∧ handed_lists new
      = [user_says "Go"]
        :: [user_says "Go"; assistant_says failing_round;
            user_says "Error using tool 'lookup': Unknown tool: lookup";
            user_says (tool_error_content "search" e)]
        :: more.
Proof.
  destruct (tool_failures_are_contained Fixture.scripted
              Fixture.search_session Fixture.writable Fixture.json_loads
              Fixture.json_dumps Fixture.builtin_str 0 "Go")
    as (Hcontained & _).
  destruct Hcontained as [_ Hfirst]; [intros conv l; reflexivity|].
  destruct (Hfirst (Fixture.client [Some failing_round]) (Some failing_round)
              []) as (new & more & Htrace & Hhanded);
    [reflexivity|by vm_compute|].
  exists (Exn "JSONDecodeError" "Expecting value"), new, more.
  split; [reflexivity|]. split; [exact Htrace|].
  rewrite Hhanded. reflexivity.
Defined.

(** The claim C4 fails on the code: the log is written after the response,
    the session does not know the tool of the first call, and the write of
    the log after the error notice fails; the query ends there, with an
    assistant message that reports the write error, the second call is not
    processed and no further completion is requested. *)
Lemma a_failed_write_after_a_tool_error_ends_the_loop :
  Re.findall failing_round
  = [("lookup", quoted "id" +:+ ":1"); ("search", "oops")]
  ∧ (Fixture.run_on_full_disk 2 "Go" [Some failing_round; Some "Done."]).1
    = Some (Ok [user_says "Go"; assistant_says failing_round;
                user_says "Error using tool 'lookup': Unknown tool: lookup";
                assistant_says (fallback_content Fixture.no_space_error)])
  ∧ handed_lists
      (trace
         (Fixture.run_on_full_disk 2 "Go"
            [Some failing_round; Some "Done."]).2)
    = [[user_says "Go"]].
Proof. split_and!; vm_compute; reflexivity. Qed.

(** C5 on the name [search]. *)
Lemma findall_lists_the_calls_witness :
  let args := quoted "a" +:+ ":" +:+ quoted "b" in
  Re.findall (Re.fragment "search" args) = [("search", args)]
  ∧ wrap_args args = "{" +:+ args +:+ "}".
Proof.
  destruct findall_lists_the_calls as (_ & Hcall & Hascii).
  apply Hcall, Hascii; [discriminate|reflexivity].
Defined.

(** The claim C5 fails on the code: an argument text on two lines is a
    fragment of the grammar that the parser does not return, and the parser
    returns a name with a letter beyond [A-Za-z0-9_]. *)
Definition cafe : string := "caf" +:+ String "233"%char "".

Lemma calls_the_grammar_and_the_parser_disagree_on :
  Re.all_chars Text.is_ascii_word "search" = true
  ∧ Re.findall
      (Re.fragment "search"
         (quoted "query" +:+ ":" +:+ newline +:+ quoted "x")) = []
  ∧ Re.all_chars Text.is_ascii_word cafe = false
  ∧ Re.findall (Re.fragment cafe "") = [(cafe, "")].
Proof. split_and!; vm_compute; reflexivity. Qed.

(** C6 on a comparison, on a set display and on the form without braces. *)
Lemma findall_without_call_witness :
  Re.findall "if a < b then" = []
  ∧ Re.findall "the set {1, 2}" = []
  ∧ Re.findall
      ("<function=NAME" +:+ quoted "a" +:+ ":" +:+ quoted "b" +:+ ">") = [].
Proof.
  destruct findall_without_call as (Hnone & Hchar & Hbraceless).
  split_and!.
  - apply Hnone. intros (pre & name & args & rest & Hid & _ & Heq).
    apply (no_call_without (λ c, negb (Ascii.eqb c "{")) "if a < b then");
      [by left|reflexivity|].
    by exists pre, name, args, rest.
  - apply Hchar. left. reflexivity.
  - apply (Hbraceless "NAME"). reflexivity.
Defined.

Lemma string_cons_inj (c1 c2 : ascii) (s1 s2 : string) :
  String c1 s1 = String c2 s2 → c1 = c2 ∧ s1 = s2.
Proof. by intros [= -> ->]. Qed.

(** The claim C6 fails on the code: no part of this text is a call of the
    grammar, whose names are runs of [A-Za-z0-9_], and the parser returns a
    match for it. *)
Lemma a_name_beyond_the_grammar_is_matched :
  (¬ ∃ pre name args rest,
       name ≠ "" ∧ Re.all_chars Text.is_ascii_word name = true
       ∧ Re.fragment cafe "" = pre +:+ Re.fragment name args +:+ rest)
  ∧ Re.findall (Re.fragment cafe "") = [(cafe, "")].
Proof.
  split; [|by vm_compute].
  intros (pre & name & args & rest & Hne & Hall & Heq).
  rewrite fragment_app in Heq.
  destruct pre as [|c pre].
  - vm_compute in Heq. fold String.append in Heq.
    do 10 (apply string_cons_inj in Heq as [_ Heq]).
    repeat (destruct name as [|c name];
            [first [done | vm_compute in Heq; discriminate Heq]|];
            vm_compute in Heq; fold String.append in Heq;
            apply string_cons_inj in Heq as [<- Heq];
            simpl in Hall; try discriminate Hall; try clear Hne).
  - vm_compute in Heq; fold String.append in Heq.
    repeat (apply string_cons_inj in Heq as [_ Heq];
            destruct pre as [|? pre];
            [vm_compute in Heq; discriminate Heq|];
            vm_compute in Heq; fold String.append in Heq).
    discriminate Heq.
Qed.



(** C8 on the empty query. *)
Lemma single_round_witness :
  (Fixture.run Fixture.writable 1 "" hello).1
  = Some (Ok [user_says ""; assistant_says "Hello."])
  ∧ trace (Fixture.run Fixture.writable 1 "" hello).2
    = [Generate [user_says ""]
         (request (self_tools (Fixture.client hello)) [user_says ""]);
       Log [user_says ""; assistant_says "Hello."]].
Proof.
  apply (single_round Fixture.scripted Fixture.search_session
           Fixture.writable Fixture.json_loads Fixture.json_dumps
           Fixture.builtin_str 0 "" (Fixture.client hello) (Some "Hello.")
           []); [reflexivity|].
  apply findall_nil. reflexivity.
Defined.

(** The claim C8 fails on the code: the response to the empty query holds
    no call, and the query returns three messages when the log cannot be
    written. *)
Lemma a_single_round_returns_three_messages :
  Re.findall "Hello." = []
  ∧ (Fixture.run Fixture.read_only 1 "" hello).1
    = Some (Ok [user_says ""; assistant_says "Hello.";
                assistant_says (fallback_content read_only_error)])
  ∧ length [user_says ""; assistant_says "Hello.";
            assistant_says (fallback_content read_only_error)] = 3.
Proof. split_and!; vm_compute; reflexivity. Qed.

(** C10 on the canonical exchange. *)
Lemma returned_roles_witness :
  (∃ rest,
     canonical_conversation "What is x?" = user_says "What is x?" :: rest
     ∧ Forall written rest)
  ∧ Forall (λ m : msg,
      (m !! "role" = Some "user" ∨ m !! "role" = Some "assistant")
      ∧ m !! "role" ≠ Some "system" ∧ m !! "role" ≠ Some "tool"
      ∧ m !! "tool_call_id" = None) (canonical_conversation "What is x?").
Proof.
  apply (returned_roles Fixture.scripted Fixture.search_session
           Fixture.writable Fixture.json_loads Fixture.json_dumps
           Fixture.builtin_str 2 "What is x?" (Fixture.client chain_script)).
  vm_compute. reflexivity.
Defined.


(** * Around the loop

  The rest of the two client modules and the callers of the client: the
  request that [generate_completion] builds, the connection to the tool
  server ([MCPClient.connect_to_server], [get_mcp_tools]), the HTTP routes
  of [api/routes.py], the Discord handlers of [discord_bot/events.py] and
  [discord_bot/commands.py], and the message helpers of
  [client/conversation.py]. *)

(** ** More of Python [str]: slices, [endswith], [replace] *)
Module Str.

(** [s[n:]] *)
Fixpoint drop (n : nat) (s : string) : string :=
  match n, s with
  | 0, _ => s
  | S _, "" => ""
  | S n', String _ s' => drop n' s'
  end.

(** [s[:n]] *)
Fixpoint take (n : nat) (s : string) : string :=
  match n, s with
  | 0, _ => ""
  | S _, "" => ""
  | S n', String c s' => String c (take n' s')
  end.

(** [s[i:j]] for [0 <= i <= j] *)
Definition slice (i j : nat) (s : string) : string := take (j - i) (drop i s).

(** [range(start, stop, step)] for a positive step: [start], [start + step],
    and so on while below [stop]. *)
Fixpoint range_from (fuel start stop step : nat) : list nat :=
  match fuel with
  | 0 => []
  | S fuel' =>
      if start <? stop
      then start :: range_from fuel' (start + step) stop step
      else []
  end.

Definition range (start stop step : nat) : list nat :=
  range_from stop start stop step.

(** [[s[i:i+size] for i in range(0, len(s), size)]] *)
Definition chunks (s : string) (size : nat) : list string :=
  (λ i, slice i (i + size) s) <$> range 0 (String.length s) size.

(** [""].join(l)] *)
Fixpoint concat (l : list string) : string :=
  match l with
  | [] => ""
  | s :: l' => s +:+ concat l'
  end.

(** [s.endswith(suffix)] *)
Definition endswith (suffix s : string) : bool :=
  bool_decide (drop (String.length s - String.length suffix) s = suffix)
  && (String.length suffix <=? String.length s).

(** [s.replace(old, new)] for a one-character [old]. *)
Fixpoint replace_char (old : ascii) (new : string) (s : string) : string :=
  match s with
  | "" => ""
  | String c s' =>
      (if Ascii.eqb c old then new else String c "")
      +:+ replace_char old new s'
  end.

End Str.

Lemma drop_length (n : nat) (s : string) :
  String.length (Str.drop n s) = String.length s - n.
Proof.
  revert s. induction n as [|n IH]; intros [|c s]; simpl; auto with lia.
Qed.

Lemma take_length (n : nat) (s : string) :
  String.length (Str.take n s) = n `min` String.length s.
Proof.
  revert s. induction n as [|n IH]; intros [|c s]; simpl; auto with lia.
Qed.

Lemma take_drop (n : nat) (s : string) : Str.take n s +:+ Str.drop n s = s.
Proof.
  revert s. induction n as [|n IH]; intros [|c s]; simpl; try done.
  by rewrite app_cons, IH.
Qed.

Lemma drop_drop (n m : nat) (s : string) :
  Str.drop m (Str.drop n s) = Str.drop (n + m) s.
Proof.
  revert s. induction n as [|n IH]; intros [|c s]; simpl; try done.
  by destruct m.
Qed.

Lemma drop_all (n : nat) (s : string) :
  String.length s ≤ n → Str.drop n s = "".
Proof.
  revert s. induction n as [|n IH]; intros [|c s]; simpl; try done; try lia.
  intros. apply IH. lia.
Qed.

(** The pieces from position [start] on give the text from there on. *)
Lemma chunks_from (s : string) (size fuel start : nat) :
  0 < size → String.length s - start ≤ fuel →
  Str.concat ((λ i, Str.slice i (i + size) s)
              <$> Str.range_from fuel start (String.length s) size)
  = Str.drop start s.
Proof.
  intros Hsize. revert start. induction fuel as [|fuel IH]; intros start Hfuel.
  - simpl. symmetry. apply drop_all. lia.
  - simpl. destruct (Nat.ltb_spec start (String.length s)) as [Hlt|Hge].
    + rewrite fmap_cons. simpl. rewrite IH by lia.
      unfold Str.slice. replace (start + size - start) with size by lia.
      rewrite <-drop_drop. apply take_drop.
    + simpl. symmetry. apply drop_all. lia.
Qed.

Lemma range_from_spec (fuel start stop step : nat) :
  0 < step → stop - start ≤ fuel →
  Forall (λ i, start ≤ i < stop) (Str.range_from fuel start stop step)
  ∧ length (Str.range_from fuel start stop step) * step < stop - start + step
  ∧ stop - start ≤ length (Str.range_from fuel start stop step) * step.
Proof.
  intros Hstep. revert start. induction fuel as [|fuel IH]; intros start Hfuel.
  - simpl. split_and!; [done|lia..].
  - simpl. destruct (Nat.ltb_spec start stop) as [Hlt|Hge].
    + destruct (IH (start + step)) as (Hall & Hlen1 & Hlen2); [lia|].
      split_and!.
      * constructor; [lia|]. eapply Forall_impl; [done|]. simpl. lia.
      * simpl. destruct (length _); simpl in *; lia.
      * simpl. lia.
    + simpl. split_and!; [done|lia..].
Qed.

Lemma range_from_lookup (fuel start stop step k i : nat) :
  Str.range_from fuel start stop step !! k = Some i → i = start + k * step.
Proof.
  revert start k. induction fuel as [|fuel IH]; intros start k; [done|].
  simpl. destruct (start <? stop); [|done].
  destruct k as [|k]; simpl.
  - intros [= <-]. lia.
  - intros ->%IH. lia.
Qed.

Lemma slice_length (i size : nat) (s : string) :
  String.length (Str.slice i (i + size) s)
  = size `min` (String.length s - i).
Proof.
  unfold Str.slice. rewrite take_length, drop_length. f_equal. lia.
Qed.

Lemma chunks_spec (text : string) (size : nat) :
  0 < size →
  Str.concat (Str.chunks text size) = text
  ∧ Forall (λ chunk, 0 < String.length chunk ≤ size) (Str.chunks text size)
  ∧ (∀ i chunk,
       Str.chunks text size !! i = Some chunk →
       S i < length (Str.chunks text size) →
       String.length chunk = size)
  ∧ String.length text ≤ length (Str.chunks text size) * size
      < String.length text + size.
Proof.
  intros Hsize. unfold Str.chunks, Str.range.
  destruct (range_from_spec (String.length text) 0 (String.length text) size)
    as (Hall & Hlen1 & Hlen2); [done|lia|].
  split_and!.
  - by rewrite chunks_from by lia.
  - apply Forall_fmap. eapply Forall_impl; [done|]. simpl.
    intros i Hi. rewrite slice_length. lia.
  - intros i chunk. rewrite length_fmap, list_lookup_fmap.
    destruct (Str.range_from _ _ _ _ !! i) as [j|] eqn:Hj; [|done].
    intros [= <-] Hnext.
    destruct (lookup_lt_is_Some_2 _ _ Hnext) as [j' Hj'].
    pose proof (range_from_lookup _ _ _ _ _ _ Hj) as ->.
    pose proof (range_from_lookup _ _ _ _ _ _ Hj') as Hj'eq.
    rewrite Forall_forall in Hall.
    pose proof (Hall _ (list_elem_of_lookup_2 _ _ _ Hj')) as Hbound.
    rewrite slice_length. simpl in *. lia.
  - rewrite length_fmap. lia.
  - rewrite length_fmap. lia.
Qed.

Lemma chunks_short (text : string) (size : nat) :
  text ≠ "" → String.length text ≤ size → Str.chunks text size = [text].
Proof.
  intros Hne Hfits.
  assert (0 < size) as Hsize by (destruct text; simpl in *; [done|lia]).
  destruct (chunks_spec text size Hsize) as (Hcat & Hall & Hfull & Hn1 & Hn2).
  destruct (Str.chunks text size) as [|c1 [|c2 rest]]; simpl in *.
  - by destruct Hne.
  - by rewrite app_nil_r in Hcat; subst.
  - lia.
Qed.

(** The split of a long text, as [on_message] and [tools_command] do it:
    the pieces, in order, give the text back; no piece is empty or longer
    than the limit; all pieces but the last have the full length, so there
    are as few of them as the limit allows; and a text that is not empty and
    fits the limit is its own single piece. *)
Theorem chunks_cover_the_text (text : string) (size : nat) :
  0 < size →
  Str.concat (Str.chunks text size) = text
  ∧ Forall (λ chunk, 0 < String.length chunk ≤ size) (Str.chunks text size)
  ∧ (∀ i chunk,
       Str.chunks text size !! i = Some chunk →
       S i < length (Str.chunks text size) →
       String.length chunk = size)
  ∧ String.length text ≤ length (Str.chunks text size) * size
      < String.length text + size
  ∧ (text ≠ "" → String.length text ≤ size → Str.chunks text size = [text]).
Proof.
  intros Hsize.
  destruct (chunks_spec text size Hsize) as (Hcat & Hall & Hfull & Hn1 & Hn2).
  split_and!; try done. apply chunks_short.
Qed.

(** ** Messages as the callers read them *)

(** A conversation as [process_query] returns it and as the helpers below
    take it: a list of [Dict[str, Any]]. *)
Abbreviation message := (gmap string pyval).

(** A message of the client, whose values are all [str], as such a dict. *)
Definition as_message (m : msg) : message := VStr <$> m.

(** [msg.get("role") == "assistant" and isinstance(msg.get("content"), str)],
    with [msg.get("content", "")] when it holds. *)
Definition assistant_text (m : message) : option string :=
  match m !! "role" with
  | Some (VStr role) =>
      if decide (role = "assistant") then
        match m !! "content" with
        | Some (VStr content) => Some content
        | _ => None
        end
      else None
  | _ => None
  end.

(** The loop [for msg in ...: if ...: return ...] and the [return ""] after
    it. *)
Fixpoint first_assistant_text (msgs : list message) : string :=
  match msgs with
  | [] => ""
  | m :: rest =>
      match assistant_text m with
      | Some content => content
      | None => first_assistant_text rest
      end
  end.

(** [EventHandler._get_latest_assistant_message] of [discord_bot/events.py] *)
Definition get_latest_assistant_message (messages : list message) : string :=
  first_assistant_text (reverse messages).

(** [ConversationManager.get_last_assistant_message] of
    [client/conversation.py] *)
Definition get_last_assistant_message (messages : list message) : string :=
  first_assistant_text (reverse messages).

Lemma latest_snoc (messages : list message) (m : message) :
  get_latest_assistant_message (messages ++ [m])
  = match assistant_text m with
    | Some content => content
    | None => get_latest_assistant_message messages
    end.
Proof. unfold get_latest_assistant_message. by rewrite reverse_snoc. Qed.

Lemma latest_none (messages : list message) :
  Forall (λ m, assistant_text m = None) messages →
  get_latest_assistant_message messages = "".
Proof.
  induction messages as [|m messages IH] using rev_ind; [done|].
  intros [Hall Hm%Forall_inv]%Forall_app. rewrite latest_snoc, Hm. by apply IH.
Qed.

Lemma latest_found (pre post : list message) (m : message) (c : string) :
  assistant_text m = Some c →
  Forall (λ m', assistant_text m' = None) post →
  get_latest_assistant_message (pre ++ m :: post) = c.
Proof.
  intros Hm. induction post as [|m' post IH] using rev_ind; intros Hpost.
  - by rewrite latest_snoc, Hm.
  - apply Forall_app in Hpost as [Hpost Hm'%Forall_inv].
    rewrite app_comm_cons, (assoc_L (++)), latest_snoc, Hm'. by apply IH.
Qed.

(** The last assistant text of a conversation.  Both helpers return the
    content of the last message that has role assistant and a [str] content:
    messages after it that are no such message do not matter, whatever they
    are; they return the empty text exactly when the list holds no such
    message or the last one has the empty text; and they are the same
    function. *)
Theorem latest_assistant_message_found :
  (∀ pre post m c,
     assistant_text m = Some c →
     Forall (λ m', assistant_text m' = None) post →
     get_latest_assistant_message (pre ++ m :: post) = c)
  ∧ (∀ messages,
       Forall (λ m, assistant_text m = None) messages →
       get_latest_assistant_message messages = "")
  ∧ (∀ messages,
       get_latest_assistant_message messages ≠ "" →
       ∃ pre m post,
         messages = pre ++ m :: post
         ∧ assistant_text m = Some (get_latest_assistant_message messages)
         ∧ Forall (λ m', assistant_text m' = None) post)
  ∧ (∀ messages,
       get_last_assistant_message messages
       = get_latest_assistant_message messages).
Proof.
  split_and!; [apply latest_found|apply latest_none| |done].
  induction messages as [|m messages IH] using rev_ind; [done|].
  rewrite latest_snoc. destruct (assistant_text m) as [c|] eqn:Hm.
  - intros _. exists messages, m, []. by rewrite Hm.
  - intros (pre & m' & post & -> & Hm' & Hpost)%IH.
    exists pre, m', (post ++ [m]). split_and!.
    + by rewrite <-(assoc_L (++)).
    + done.
    + apply Forall_app. by repeat constructor.
Qed.

(** ** What a query returns *)
Section Queries.

Context {P T L : Type}.
Variable chat_completions_create :
  list msg → P → result (option string) * P.
Variable call_tool : string → pyval → T → result pyval * T.
Variable write_conversation : list msg → L → result unit * L.
Variable json_loads : string → result pyval.
Variable json_dumps : pyval → result string.
Variable builtin_str : pyval → result string.

Local Abbreviation loop :=
  (conversation_loop chat_completions_create call_tool write_conversation
     json_loads json_dumps builtin_str).
Local Abbreviation query :=
  (process_query chat_completions_create call_tool write_conversation
     json_loads json_dumps builtin_str).
Local Abbreviation call :=
  (process_call call_tool write_conversation json_loads json_dumps
     builtin_str).
Local Abbreviation log := (log_conversation write_conversation).
Local Abbreviation state := (@state P T L).

Lemma bind_ok {A B} (m : M A) (k : A → M B) (s s' : state) (b : B) :
  (m ≫= k) s = (Some (Ok b), s') →
  ∃ a s1, m s = (Some (Ok a), s1) ∧ k a s1 = (Some (Ok b), s').
Proof.
  unfold mbind, M_bind. destruct (m s) as [[[a|e]|] s1]; try done. eauto.
Qed.

(** A loop that ends normally leaves an assistant message without a call at
    the end of the conversation. *)
Lemma loop_ends_with_answer old (fuel : nat) (q : string) (s s' : state) :
  inv old q s → loop fuel s = (Some (Ok tt), s') →
  ∃ pre c,
    conversation s' = pre ++ [assistant_says c] ∧ Re.findall c = [].
Proof.
  revert s. induction fuel as [|fuel IH]; intros s Hinv; [done|].
  destruct (inv_plain _ _ _ Hinv) as [Hwf Hplain].
  rewrite (loop_run _ _ _ _ _ _ _ _ Hwf Hplain). cbv zeta.
  destruct (chat_completions_create _ _) as [[response|e] p1]; [|done].
  cbn [fst snd]. set (content := default "" response).
  pose proof (inv_answered _ _ content p1 _ Hinv) as Hinv2.
  change (pushed (assistant_says content) (requested p1 s))
    with (answered content p1 s).
  destruct (Re.findall content) as [|c1 calls] eqn:Hfind.
  - destruct (inv_plain _ _ _ Hinv2) as [_ Hplain2].
    rewrite (log_run _ _ Hplain2). intros [= _ <-].
    exists (conversation s), content. split; [|done].
    change (conversation (logged ?l ?x)) with (conversation x).
    by apply answered_conversation.
  - intros ([] & s3 & Hlog & ([] & s4 & Hcalls & Hloop)%bind_ok)%bind_ok.
    assert (inv old q s3) as Hinv3.
    { pose proof (keeps_log write_conversation old q _ Hinv2) as Hkeep.
      by rewrite Hlog in Hkeep. }
    assert (inv old q s4) as Hinv4.
    { pose proof (keeps_for_each old q (c1 :: calls) call
                    (keeps_process_call _ _ _ _ _ old q) _ Hinv3) as Hkeep.
      by rewrite Hcalls in Hkeep. }
    by eapply IH.
Qed.

Lemma returned_shape (fuel : nat) (q : string) (s0 : state)
    (conv : list msg) :
  (query fuel q s0).1 = Some (Ok conv) →
  ∃ pre c,
    conv = user_says q :: pre ++ [assistant_says c]
    ∧ Forall written pre
    ∧ (Re.findall c = [] ∨ ∃ e, c = fallback_content e).
Proof.
  rewrite process_query_run.
  pose proof (keeps_loop chat_completions_create call_tool write_conversation
                json_loads json_dumps builtin_str _ _ fuel _ (inv_seed q s0))
    as Hinv.
  destruct (loop fuel (seed q s0)) as [[[[]|e]|] s] eqn:Hloop; [| |done].
  - intros [= <-]. cbn [snd] in Hinv.
    destruct (loop_ends_with_answer _ _ _ _ _ (inv_seed q s0) Hloop)
      as (pre & c & Hconv & Hc).
    destruct Hinv as [[_ (rest & Hrest & Hwritten)] _].
    rewrite Hrest in Hconv. destruct pre as [|m pre]; simplify_eq/=.
    exists pre, c. split_and!; [done| |by left].
    by apply Forall_app in Hwritten as [? _].
  - cbn [snd] in Hinv. cbv zeta. intros [= <-].
    destruct Hinv as [[Hwf (rest & Hrest & Hwritten)] _].
    rewrite pushed_conversation, Hrest by done.
    exists rest, (fallback_content e). split_and!; eauto.
Qed.

(** The conversation a query returns ends with an assistant message, and
    that message is an answer or an apology: the text of a completion that
    holds no call, or the report of the exception that ended the loop.
    Before it come the query and what the loop wrote, so the list has two
    messages at least. *)
Theorem query_ends_with_an_answer (fuel : nat) (q : string) (s0 : state)
    (conv : list msg) :
  (query fuel q s0).1 = Some (Ok conv) →
  2 ≤ length conv
  ∧ ∃ pre c,
      conv = user_says q :: pre ++ [assistant_says c]
      ∧ Forall written pre
      ∧ (Re.findall c = [] ∨ ∃ e, c = fallback_content e).
Proof.
  intros Hret. destruct (returned_shape _ _ _ _ Hret) as (pre & c & -> & H).
  split; [|by exists pre, c].
  simpl. rewrite length_app. simpl. lia.
Qed.

Lemma assistant_text_says (c : string) :
  assistant_text (as_message (assistant_says c)) = Some c.
Proof.
  unfold assistant_text, as_message, assistant_says.
  rewrite !lookup_fmap, !lookup_says. simpl. done.
Qed.

(** What the Discord handler reads from a query.  On every conversation
    that [process_query] returns, [_get_latest_assistant_message] gives the
    text of the last message of the list: the handler always finds the
    answer to the query it sent, or the apology for it, never the text of an
    earlier round. *)
Theorem latest_message_of_a_query (fuel : nat) (q : string) (s0 : state)
    (conv : list msg) :
  (query fuel q s0).1 = Some (Ok conv) →
  ∃ c, last conv = Some (assistant_says c)
       ∧ get_latest_assistant_message (as_message <$> conv) = c
       ∧ (Re.findall c = [] ∨ ∃ e, c = fallback_content e).
Proof.
  intros (pre & c & -> & _ & Hc)%returned_shape. exists c.
  split_and!; [|..|done].
  - by rewrite app_comm_cons, last_snoc.
  - rewrite app_comm_cons, fmap_app, list_fmap_singleton.
    by rewrite latest_snoc, assistant_text_says.
Qed.

(** The first request of a query.  Whatever the query says and whatever
    tools there are, the first completion request of [process_query] is the
    system message as [create_system_message] builds it, without the
    reminder to use tools, followed by the query: the reminder needs a
    request of three messages, and the first one has two. *)
Theorem first_request_has_no_reminder (fuel : nat) (q : string) (s0 : state) :
  ∃ new,
    trace (query (S fuel) q s0).2
    = trace s0
      ++ Generate [user_says q]
           [create_system_message (name <$> self_tools s0); user_says q]
         :: new.
Proof.
  rewrite process_query_trace.
  destruct (loop_requests chat_completions_create call_tool write_conversation
              json_loads json_dumps builtin_str _ _ fuel _ (inv_seed q s0))
    as [new Hnew].
  exists new. rewrite Hnew, seed_conversation. done.
Qed.

(** *** Queries do not depend on earlier ones *)

(** Two states of the client that differ only in what earlier queries left
    behind: the objects of the heap, the names of the messages, the trace. *)
Definition same_view (s s' : state) : Prop :=
  wf s ∧ wf s' ∧ Forall plain (conversation s)
  ∧ conversation s' = conversation s
  ∧ self_tools s' = self_tools s ∧ llm s' = llm s
  ∧ session s' = session s ∧ files s' = files s.

(** A computation that cannot tell such states apart. *)
Definition blind {A} (m : M A) : Prop :=
  ∀ s s', same_view s s' → (m s).1 = (m s').1 ∧ same_view (m s).2 (m s').2.

Lemma blind_bind {A B} (m : M A) (k : A → M B) :
  blind m → (∀ a, blind (k a)) → blind (m ≫= k).
Proof.
  intros Hm Hk s s' Hs. destruct (Hm s s' Hs) as [Heq Hs1].
  unfold mbind, M_bind.
  destruct (m s) as [[[a|e]|] s1], (m s') as [[[a'|e']|] s1'];
    simplify_eq/=; try done.
  by apply Hk.
Qed.

Lemma blind_try {A} (body : M A) (handler : exn → M A) :
  blind body → (∀ e, blind (handler e)) → blind (try_except body handler).
Proof.
  intros Hm Hk s s' Hs. destruct (Hm s s' Hs) as [Heq Hs1].
  unfold try_except.
  destruct (body s) as [[[a|e]|] s1], (body s') as [[[a'|e']|] s1'];
    simplify_eq/=; try done.
  by apply Hk.
Qed.

Lemma blind_lift {A} (r : result A) : blind (lift r).
Proof. by intros s s' Hs. Qed.

Lemma same_view_pushed (m : msg) (s s' : state) :
  plain m → same_view s s' → same_view (pushed m s) (pushed m s').
Proof.
  intros Hm (Hwf & Hwf' & Hplain & Hconv & Htools & Hllm & Hsession & Hfiles).
  split_and!; try done; try by apply pushed_wf.
  - rewrite pushed_conversation by done. apply Forall_app. by repeat constructor.
  - rewrite !pushed_conversation by done. by rewrite Hconv.
Qed.

Lemma blind_push {B} (m : msg) (k : M B) :
  plain m → blind k → blind (l ← new_dict m; append l;; k).
Proof.
  intros Hm Hk s s' Hs. rewrite !push_run. by apply Hk, same_view_pushed.
Qed.

Lemma blind_log : blind log.
Proof.
  intros s s' (Hwf & Hwf' & Hplain & Hconv & Htools & Hllm & Hsession & Hfiles).
  rewrite !log_run by (by rewrite ?Hconv). rewrite Hconv, Hfiles.
  split; [done|]. split_and!; done.
Qed.

Lemma blind_record (ev : event) : blind (record ev).
Proof. intros s s' Hs. split; [done|]. apply Hs. Qed.

Lemma blind_call_tool (n : string) (args : pyval) :
  blind (session_call_tool call_tool n args).
Proof.
  intros s s' (Hwf & Hwf' & Hplain & Hconv & Htools & Hllm & Hsession & Hfiles).
  unfold session_call_tool. rewrite Hsession.
  destruct (call_tool n args (session s)) as [r t]. split; [done|].
  split_and!; done.
Qed.

Lemma blind_process_call (c : string * string) : blind (call c).
Proof.
  destruct c as [tool_name tool_args_str]. unfold process_call.
  apply blind_try.
  - apply blind_bind; [apply blind_lift|]. intros tool_args.
    apply blind_bind; [apply blind_record|]. intros _.
    apply blind_bind; [apply blind_call_tool|]. intros content.
    apply blind_bind; [apply blind_lift|]. intros content'.
    apply blind_bind; [apply blind_lift|]. intros text.
    apply blind_push; [eexists; eauto|apply blind_log].
  - intros e. apply blind_push; [eexists; eauto|apply blind_log].
Qed.

Lemma blind_for_each {A} (l : list A) (body : A → M unit) :
  (∀ x, blind (body x)) → blind (for_each l body).
Proof.
  intros Hbody. induction l as [|x l IH]; simpl; [by intros s s' Hs|].
  by apply blind_bind.
Qed.

Lemma same_view_requested (p : P) (s s' : state) :
  same_view s s' → same_view (requested p s) (requested p s').
Proof.
  intros (Hwf & Hwf' & Hplain & Hconv & Htools & Hllm & Hsession & Hfiles).
  split_and!; try done; try by apply requested_wf.
  - by rewrite requested_conversation.
  - by rewrite !requested_conversation.
Qed.

Lemma blind_loop (fuel : nat) : blind (loop fuel).
Proof.
  induction fuel as [|fuel IH]; [by intros s s' Hs|].
  intros s s' Hs.
  pose proof Hs as (Hwf & Hwf' & Hplain & Hconv & Htools & Hllm & _).
  rewrite !loop_run by (by rewrite ?Hconv). cbv zeta.
  rewrite Hconv, Htools, Hllm.
  destruct (chat_completions_create _ _) as [[response|e] p1]; cbn [fst snd].
  - pose proof (same_view_pushed (assistant_says (default "" response)) _ _
                  ltac:(eexists; eauto) (same_view_requested p1 _ _ Hs))
      as Hs2.
    destruct (Re.findall _) as [|c1 calls]; [by apply blind_log|].
    revert Hs2. apply blind_bind; [apply blind_log|]. intros _.
    apply blind_bind; [|done].
    apply blind_for_each, blind_process_call.
  - split; [done|]. by apply same_view_requested.
Qed.

(** Queries are independent.  [process_query] starts a new conversation and
    reads nothing of an earlier one: from two states of the client with the
    same tools and the same states of the completion service, the tool
    session and the file system, whatever conversations they hold, a query
    has the same outcome, returns the same conversation and leaves the three
    collaborators in the same states. *)
Theorem queries_are_independent (fuel : nat) (q : string) (s s' : state) :
  self_tools s' = self_tools s → llm s' = llm s →
  session s' = session s → files s' = files s →
  (query fuel q s').1 = (query fuel q s).1
  ∧ llm (query fuel q s').2 = llm (query fuel q s).2
  ∧ session (query fuel q s').2 = session (query fuel q s).2
  ∧ files (query fuel q s').2 = files (query fuel q s).2.
Proof.
  intros Htools Hllm Hsession Hfiles.
  assert (same_view (seed q s) (seed q s')) as Hseed.
  { destruct (inv_plain _ _ _ (inv_seed q s)) as [Hwf Hplain].
    destruct (inv_plain _ _ _ (inv_seed q s')) as [Hwf' _].
    split_and!; try done. by rewrite !seed_conversation. }
  destruct (blind_loop fuel _ _ Hseed) as [Hout Hview].
  rewrite !process_query_run.
  destruct (loop fuel (seed q s)) as [[[[]|e]|] s1],
           (loop fuel (seed q s')) as [[[[]|e']|] s1']; simplify_eq/=.
  - destruct Hview as (_ & _ & _ & -> & _ & -> & -> & ->). done.
  - pose proof (same_view_pushed (assistant_says (fallback_content e')) _ _
                  ltac:(eexists; eauto) Hview)
      as (_ & _ & _ & -> & _ & Hl & Hs & Hf).
    done.
  - destruct Hview as (_ & _ & _ & _ & _ & -> & -> & ->). done.
Qed.

(** *** The request of [generate_completion] and the caller's messages *)

Local Abbreviation generate :=
  (generate_completion chat_completions_create).

(** The state after the reminder was added to the message [l]. *)
Definition reminded (l : nat) (c : string) (s : state) : state :=
  set_heap (<[l := <["content" := c +:+ tool_reminder]> (deref (heap s) l)]>
              (heap s)) s.

Lemma remind_run (pre post : list nat) (l : nat) (s : state) :
  Forall (λ l', role_is "system" (deref (heap s) l') = false) pre →
  role_is "system" (deref (heap s) l) = true →
  remind (pre ++ l :: post) s =
  match deref (heap s) l !! "content" with
  | Some c => (Some (Ok tt), reminded l c s)
  | None => (Some (Err (Exn "KeyError" "'content'")), s)
  end.
Proof.
  intros Hpre Hl. induction Hpre as [|l' pre Hl' _ IH]; simpl.
  - unfold mbind, M_bind, gets. simpl. rewrite Hl.
    by destruct (deref (heap s) l !! "content").
  - unfold mbind, M_bind, gets. simpl. by rewrite Hl'.
Qed.

Lemma existsb_system (h : list msg) (pre post : list nat) (l : nat) :
  role_is "system" (deref h l) = true →
  existsb (role_is "system") (deref h <$> pre ++ l :: post) = true.
Proof.
  intros Hl. rewrite fmap_app, existsb_app, fmap_cons. simpl.
  rewrite Hl. apply orb_true_r.
Qed.

(** A request for a list that holds a system message, step by step. *)
Lemma generate_with_system (pre post : list nat) (l : nat) (tools : list tool)
    (s : state) :
  Forall (λ l', role_is "system" (deref (heap s) l') = false) pre →
  role_is "system" (deref (heap s) l) = true →
  let messages := pre ++ l :: post in
  let handed := deref (heap s) <$> messages in
  generate messages tools s =
  if wants_tools handed tools then
    match deref (heap s) l !! "content" with
    | Some c =>
        let s1 := reminded l c s in
        let sent := deref (heap s1) <$> messages in
        let out := chat_completions_create sent (llm s) in
        (Some out.1,
         set_llm out.2 (set_trace (trace s ++ [Generate handed sent]) s1))
    | None => (Some (Err (Exn "KeyError" "'content'")), s)
    end
  else
    let out := chat_completions_create handed (llm s) in
    (Some out.1,
     set_llm out.2 (set_trace (trace s ++ [Generate handed handed]) s)).
Proof.
  intros Hpre Hl messages handed.
  assert (existsb (role_is "system") handed = true) as Hsystem
    by by apply existsb_system.
  unfold generate_completion. rewrite try_reraise.
  unfold mbind at 1. unfold M_bind at 1. unfold gets at 1. cbn [fst snd].
  fold messages. fold handed. rewrite Hsystem.
  unfold mbind at 1. unfold M_bind at 1. unfold mret at 1, M_ret at 1.
  unfold mbind at 1. unfold M_bind at 1. unfold gets at 1. cbn [fst snd].
  fold handed.
  destruct (wants_tools handed tools).
  - unfold mbind at 1. unfold M_bind at 1. unfold messages at 1.
    rewrite (remind_run _ _ _ _ Hpre Hl).
    destruct (deref (heap s) l !! "content") as [c|]; [|done].
    unfold mbind, M_bind, gets, record, modify, completions_create. simpl.
    by destruct (chat_completions_create _ _).
  - unfold mbind, M_bind, mret, M_ret, gets, record, modify,
      completions_create. simpl.
    fold handed. by destruct (chat_completions_create _ _).
Qed.

Lemma deref_insert (h : list msg) (l l' : nat) (m : msg) :
  l < length h →
  deref (<[l := m]> h) l' = if decide (l' = l) then m else deref h l'.
Proof.
  intros Hl. unfold deref. destruct (decide (l' = l)) as [->|Hne].
  - by rewrite list_lookup_insert_eq.
  - by rewrite list_lookup_insert_ne.
Qed.

Lemma deref_is_object (h : list msg) (l : nat) (k v : string) :
  deref h l !! k = Some v → l < length h.
Proof.
  unfold deref. destruct (h !! l) as [m|] eqn:Hm; [|done].
  intros _. by eapply lookup_lt_Some.
Qed.

Lemma last_user_msg_ext {A} (f g : A → msg) (l : list A) :
  (∀ x, role_is "user" (f x) = role_is "user" (g x)) →
  (∀ x, role_is "user" (f x) = true → f x = g x) →
  last_user_msg (f <$> l) = last_user_msg (g <$> l).
Proof.
  intros Hrole Hsame. unfold last_user_msg. rewrite <-!fmap_reverse.
  induction (reverse l) as [|x l' IH]; [done|].
  rewrite !fmap_cons, !filter_cons.
  destruct (decide (role_is "user" (f x) = true)) as [Hx|Hx].
  - rewrite decide_True by by rewrite <-Hrole. simpl. by rewrite (Hsame x).
  - rewrite decide_False by by rewrite <-Hrole. done.
Qed.

Lemma wants_tools_reminded (h : list msg) (l : nat) (m : msg)
    (messages : list nat) (tools : list tool) :
  l < length h →
  role_is "user" (deref h l) = false → role_is "user" m = false →
  wants_tools (deref (<[l := m]> h) <$> messages) tools
  = wants_tools (deref h <$> messages) tools.
Proof.
  intros Hl Hold Hnew. unfold wants_tools. rewrite !length_fmap.
  rewrite (last_user_msg_ext (deref (<[l := m]> h)) (deref h)); [done|..];
    intros l'; rewrite deref_insert by done;
    destruct (decide (l' = l)) as [->|]; congruence.
Qed.

Lemma system_is_no_user (m : msg) :
  m !! "role" = Some "system" → role_is "user" m = false.
Proof. unfold role_is. intros ->. by apply bool_decide_eq_false. Qed.

(** The copy does not protect the messages.  [generate_completion] copies
    the list it is given, not the dicts in it: when the list holds a system
    message and the reminder is due, the reminder is appended to the content
    of the caller's own first system message.  The request sent holds the
    changed message, every other object is as it was and no message is
    created; and a second request for the same list appends the reminder
    once more. *)
Theorem reminder_is_written_into_the_callers_message
    (pre post : list nat) (l : nat) (tools : list tool) (s : state)
    (c : string) :
  Forall (λ l', role_is "system" (deref (heap s) l') = false) pre →
  deref (heap s) l !! "role" = Some "system" →
  deref (heap s) l !! "content" = Some c →
  wants_tools (deref (heap s) <$> pre ++ l :: post) tools = true →
  let messages := pre ++ l :: post in
  let s1 := (generate messages tools s).2 in
  let s2 := (generate messages tools s1).2 in
  deref (heap s1) l = <["content" := c +:+ tool_reminder]> (deref (heap s) l)
  ∧ (∀ l', l' ≠ l → deref (heap s1) l' = deref (heap s) l')
  ∧ length (heap s1) = length (heap s)
  ∧ trace s1
    = trace s ++ [Generate (deref (heap s) <$> messages)
                    (deref (heap s1) <$> messages)]
  ∧ deref (heap s2) l !! "content"
    = Some (c +:+ tool_reminder +:+ tool_reminder).
Proof.
  intros Hpre Hrole Hcontent Hwants messages s1 s2.
  pose proof (deref_is_object _ _ _ _ Hrole) as Hl.
  assert (role_is "system" (deref (heap s) l) = true) as Hsys
    by by apply bool_decide_eq_true.
  assert (s1 = set_llm (llm s1)
                 (set_trace (trace s ++ [Generate (deref (heap s) <$> messages)
                                           (deref (heap (reminded l c s))
                                            <$> messages)])
                    (reminded l c s))) as Hs1.
  { unfold s1, messages. rewrite (generate_with_system _ _ _ _ _ Hpre Hsys).
    cbv zeta. by rewrite Hwants, Hcontent. }
  assert (heap s1 = heap (reminded l c s)) as Hheap by by rewrite Hs1.
  assert (∀ l', deref (heap s1) l'
                = if decide (l' = l)
                  then <["content" := c +:+ tool_reminder]> (deref (heap s) l)
                  else deref (heap s) l') as Hderef.
  { intros l'. rewrite Hheap. unfold reminded. simpl.
    by rewrite deref_insert. }
  split_and!.
  - by rewrite Hderef, decide_True.
  - intros l' Hne. by rewrite Hderef, decide_False.
  - rewrite Hheap. unfold reminded. simpl. by rewrite length_insert.
  - rewrite Hs1 at 1. simpl. by rewrite Hheap.
  - assert (Forall (λ l', role_is "system" (deref (heap s1) l') = false) pre)
      as Hpre1.
    { eapply Forall_impl; [done|]. simpl. intros l' Hl'. rewrite Hderef.
      destruct (decide (l' = l)) as [->|]; [|done]. congruence. }
    assert (deref (heap s1) l !! "role" = Some "system") as Hrole1.
    { rewrite Hderef, decide_True by done. by rewrite lookup_insert_ne. }
    assert (deref (heap s1) l !! "content" = Some (c +:+ tool_reminder))
      as Hcontent1.
    { rewrite Hderef, decide_True by done. by rewrite lookup_insert_eq. }
    assert (role_is "system" (deref (heap s1) l) = true) as Hsys1
      by by apply bool_decide_eq_true.
    assert (wants_tools (deref (heap s1) <$> messages) tools = true)
      as Hwants1.
    { rewrite Hheap. unfold reminded. simpl.
      rewrite wants_tools_reminded; try done.
      - by apply system_is_no_user.
      - apply system_is_no_user. by rewrite lookup_insert_ne. }
    unfold s2, messages.
    rewrite (generate_with_system _ _ _ _ _ Hpre1 Hsys1).
    cbv zeta. fold messages. rewrite Hwants1, Hcontent1. simpl.
    rewrite deref_insert by (rewrite Hheap; unfold reminded; simpl;
                             by rewrite length_insert).
    rewrite decide_True by done. rewrite lookup_insert_eq.
    by rewrite app_assoc.
Qed.

(** A system message without content.  When the reminder is due and the
    first system message of the list has no [content], the request raises
    [KeyError] for that key: the completion service is not called, and
    nothing has changed. *)
Theorem reminder_needs_a_content
    (pre post : list nat) (l : nat) (tools : list tool) (s : state) :
  Forall (λ l', role_is "system" (deref (heap s) l') = false) pre →
  deref (heap s) l !! "role" = Some "system" →
  deref (heap s) l !! "content" = None →
  wants_tools (deref (heap s) <$> pre ++ l :: post) tools = true →
  generate (pre ++ l :: post) tools s
  = (Some (Err (Exn "KeyError" "'content'")), s).
Proof.
  intros Hpre Hrole Hcontent Hwants.
  assert (role_is "system" (deref (heap s) l) = true) as Hsys
    by by apply bool_decide_eq_true.
  rewrite (generate_with_system _ _ _ _ _ Hpre Hsys). cbv zeta.
  by rewrite Hwants, Hcontent.
Qed.

(** A list without a system message is left alone.  The request sent for
    it is a new system message, with the reminder when it is due, followed
    by the messages of the list; the system message is a new object, and no
    object that existed before the request is changed by it. *)
Theorem request_leaves_the_messages_alone
    (messages : list nat) (tools : list tool) (s : state) :
  Forall (λ l, l < length (heap s)) messages →
  existsb (role_is "system") (deref (heap s) <$> messages) = false →
  let conv := deref (heap s) <$> messages in
  let sent := system_for tools conv :: conv in
  let s1 := (generate messages tools s).2 in
  (generate messages tools s).1
  = Some (chat_completions_create sent (llm s)).1
  ∧ trace s1 = trace s ++ [Generate conv sent]
  ∧ heap s1 = heap s ++ [system_for tools conv]
  ∧ (∀ l, l < length (heap s) → deref (heap s1) l = deref (heap s) l)
  ∧ deref (heap s1) <$> messages = conv
  ∧ self_messages s1 = self_messages s.
Proof.
  intros Hwf Hnone conv sent s1.
  assert (generate messages tools s
          = (Some (chat_completions_create sent (llm s)).1,
             set_llm (chat_completions_create sent (llm s)).2
               (set_trace (trace s ++ [Generate conv sent])
                  (set_heap (heap s ++ [system_for tools conv]) s))))
    as Hrun.
  { unfold generate_completion. rewrite try_reraise.
    unfold mbind at 1. unfold M_bind at 1. unfold gets at 1. cbn [fst snd].
    rewrite Hnone.
    destruct (system_message_says (name <$> tools)) as [c Hsys].
    unfold sent, system_for. rewrite Hsys.
    unfold mbind, M_bind, new_dict, mret, M_ret, gets. simpl.
    rewrite deref_new, (derefs_old _ _ _ Hwf). fold conv.
    destruct (wants_tools _ _) eqn:Hwants.
    - unfold mbind, M_bind, gets. simpl. rewrite deref_new.
      unfold role_is. rewrite !lookup_says. simpl.
      unfold modify, record, modify. simpl.
      rewrite deref_new.
      rewrite insert_app_r_alt by done. rewrite Nat.sub_diag. simpl.
      rewrite deref_new, (derefs_old _ _ _ Hwf). fold conv.
      unfold completions_create. simpl.
      by destruct (chat_completions_create _ _).
    - unfold record, modify. simpl.
      rewrite deref_new, (derefs_old _ _ _ Hwf). fold conv.
      unfold completions_create. simpl.
      by destruct (chat_completions_create _ _). }
  unfold s1. rewrite Hrun. cbn [fst snd]. simpl.
  split_and!; try done.
  - intros l Hl. by apply deref_old.
  - by apply derefs_old.
Qed.

End Queries.

(** ** The system message and the reminder *)

Lemma contains_split (p s : string) :
  Text.contains p s = true → ∃ a r, s = a +:+ p +:+ r.
Proof.
  induction s as [|c s IH]; simpl.
  - rewrite orb_false_r. unfold Text.startswith.
    intros [r Hr]%bool_decide_eq_true. exists "", r.
    rewrite app_nil_l. by apply after_prefix_Some.
  - intros [[r Hr]%bool_decide_eq_true|Hs]%orb_true_iff.
    + exists "", r. rewrite app_nil_l. by apply after_prefix_Some.
    + destruct (IH Hs) as (a & r & ->). by exists (String c a), r.
Qed.

Lemma contains_inside (p a b c : string) :
  Text.contains p b = true → Text.contains p (a +:+ b +:+ c) = true.
Proof.
  intros (a' & r & ->)%contains_split.
  rewrite !app_assoc, <-(app_assoc a a'). apply contains_intro.
Qed.

Lemma join_elem (sep x : string) (l : list string) :
  x ∈ l → ∃ a r, Text.join sep l = a +:+ x +:+ r.
Proof.
  induction l as [|y l IH]; [by intros ?%elem_of_nil|].
  intros [->|Hx]%elem_of_cons.
  - destruct l as [|z l]; [exists "", ""; by rewrite app_nil_r|].
    by exists "", (sep +:+ Text.join sep (z :: l)).
  - destruct (IH Hx) as (a & r & Heq). destruct l as [|z l].
    { by apply elem_of_nil in Hx. }
    exists (y +:+ sep +:+ a), r.
    change (Text.join sep (y :: z :: l))
      with (y +:+ sep +:+ Text.join sep (z :: l)).
    by rewrite Heq, !app_assoc.
Qed.

Lemma contains_app_l (p a b : string) :
  Text.contains p a = true → Text.contains p (a +:+ b) = true.
Proof. intros Ha. by apply (contains_inside p "" a b). Qed.

Lemma contains_app_r (p a b : string) :
  Text.contains p b = true → Text.contains p (a +:+ b) = true.
Proof.
  intros Hb. rewrite <-(app_nil_r b). by apply contains_inside.
Qed.

Lemma contains_refl (p : string) : Text.contains p p = true.
Proof.
  rewrite <-(app_nil_r p) at 2. apply (contains_intro p "" "").
Qed.

(** The system message tells the model its tools.  It always has role
    system.  Without tools it is the greeting alone, and says nothing of
    calls; with tools, its content holds the name of every tool between
    backquotes and shows the call syntax that the parser of the loop
    reads. *)
Theorem system_message_names_every_tool :
  (∀ tool_names, create_system_message tool_names !! "role" = Some "system")
  ∧ create_system_message []
    = {[ "role" := "system";
         "content" :=
           "You are a helpful assistant for the Vespucci.ai platform. " ]}
  ∧ (∀ content,
       create_system_message [] !! "content" = Some content →
       Text.contains "<function=" content = false)
  ∧ (∀ tool_names tool_name,
       tool_name ∈ tool_names →
       ∃ content,
         create_system_message tool_names !! "content" = Some content
         ∧ Text.contains ("`" +:+ tool_name +:+ "`") content = true
         ∧ Text.contains "<function=tool_name{" content = true).
Proof.
  split_and!.
  - intros tool_names. unfold create_system_message.
    by rewrite lookup_says.
  - done.
  - intros content. unfold create_system_message. rewrite lookup_says.
    simpl. by intros [= <-].
  - intros tool_names tool_name Hin. unfold create_system_message.
    rewrite lookup_says. simpl. eexists. split; [done|].
    destruct tool_names as [|n tool_names]; [by apply elem_of_nil in Hin|].
    split.
    + apply contains_app_r, contains_app_r, contains_app_l.
      destruct (join_elem ", " ("`" +:+ tool_name +:+ "`")
                  ((λ name, "`" +:+ name +:+ "`") <$> n :: tool_names))
        as (a & r & ->).
      { apply list_elem_of_fmap. by exists tool_name. }
      apply contains_intro.
    + do 5 apply contains_app_r. apply contains_app_l. by vm_compute.
Qed.

Lemma lower_app (a b : string) :
  Text.lower (a +:+ b) = Text.lower a +:+ Text.lower b.
Proof. induction a as [|c a IH]; [done|]. simpl. by rewrite IH. Qed.

Lemma last_user_msg_snoc (pre : list msg) (text : string) :
  last_user_msg (pre ++ [user_says text]) = Some (Text.lower text).
Proof.
  unfold last_user_msg. rewrite reverse_snoc, filter_cons.
  rewrite decide_True by by rewrite role_user_says.
  simpl. unfold user_says. by rewrite lookup_says.
Qed.

(** When the reminder is due.  Never for a request of fewer than three
    messages, and never without tools.  For a request that ends with a user
    message, it is due exactly when there are three messages or more, there
    are tools, and the text of that last message holds one of the seven
    terms, in upper or lower case.  The notice that reports the result of a
    tool holds the name of the tool: after a result of a tool whose name
    holds a term, as [search] does, the reminder is due whatever the result
    is. *)
Theorem reminder_follows_the_last_user_message :
  (∀ msgs tools, length msgs < 3 → wants_tools msgs tools = false)
  ∧ (∀ msgs, wants_tools msgs [] = false)
  ∧ (∀ pre text tools,
       wants_tools (pre ++ [user_says text]) tools
       = bool_decide (2 ≤ length pre) && bool_decide (tools ≠ [])
         && existsb (λ term, Text.contains term (Text.lower text)) tool_terms)
  ∧ (∀ tool_name text term,
       Text.contains term (Text.lower tool_name) = true →
       Text.contains term
         (Text.lower (tool_result_content tool_name text)) = true)
  ∧ (∀ pre text tools,
       2 ≤ length pre → tools ≠ [] →
       wants_tools (pre ++ [user_says (tool_result_content "search" text)])
         tools = true).
Proof.
  assert (∀ pre text tools,
            wants_tools (pre ++ [user_says text]) tools
            = bool_decide (2 ≤ length pre) && bool_decide (tools ≠ [])
              && existsb (λ term, Text.contains term (Text.lower text))
                   tool_terms) as Hlast.
  { intros pre text tools. unfold wants_tools.
    rewrite last_user_msg_snoc, length_app. simpl.
    f_equal; [f_equal; apply bool_decide_ext; lia|].
    destruct (Text.lower text) as [|c t]; [done|].
    by rewrite bool_decide_eq_true_2. }
  assert (∀ tool_name text term,
            Text.contains term (Text.lower tool_name) = true →
            Text.contains term
              (Text.lower (tool_result_content tool_name text)) = true)
    as Hname.
  { intros tool_name text term Hterm. unfold tool_result_content.
    rewrite !lower_app. by apply contains_inside. }
  split_and!; [| |done|done|].
  - intros msgs tools Hlen. unfold wants_tools.
    by rewrite bool_decide_eq_false_2 by lia.
  - intros msgs. unfold wants_tools. rewrite andb_false_r. done.
  - intros pre text tools Hlen Htools. rewrite Hlast.
    rewrite !bool_decide_eq_true_2 by done.
    apply existsb_exists. exists "search". split; [by left|].
    by apply Hname.
Qed.

(** ** The argument text *)

Lemma startswith_brace (s : string) :
  Text.startswith "{" (Text.strip (String "{" s)) = true.
Proof.
  unfold Text.strip. simpl. by destruct (Text.rstrip s).
Qed.

Lemma lstrip_spec (s : string) :
  ∃ space,
    Re.all_chars Text.is_space space = true ∧ s = space +:+ Text.lstrip s.
Proof.
  induction s as [|c s (space & Hspace & Hs)]; [by exists ""|]. simpl.
  destruct (Text.is_space c) eqn:Hc.
  - exists (String c space). simpl. rewrite Hc, Hspace. split; [done|].
    by rewrite app_cons, <-Hs.
  - by exists "".
Qed.

Lemma lstrip_space (space rest : string) :
  Re.all_chars Text.is_space space = true →
  Text.lstrip (space +:+ String "{" rest) = String "{" rest.
Proof.
  induction space as [|c space IH]; [done|]. simpl.
  intros [Hc Hspace]%andb_true_iff. rewrite Hc. by apply IH.
Qed.

Lemma startswith_head (c : ascii) (s : string) :
  Text.startswith "{" (String c s) = true → c = "{"%char.
Proof.
  unfold Text.startswith.
  change (Text.after_prefix "{" (String c s))
    with (if Ascii.eqb "{" c then Some s else None).
  destruct (Ascii.eqb_spec "{" c) as [<-|]; [done|].
  intros Hsome%bool_decide_eq_true. by destruct Hsome.
Qed.

Lemma strip_head (s : string) :
  Text.startswith "{" (Text.strip s) = true →
  ∃ rest, Text.lstrip s = String "{" rest.
Proof.
  unfold Text.strip. destruct (Text.lstrip s) as [|c r]; [done|].
  simpl. destruct (Text.rstrip r).
  - destruct (Text.is_space c); [done|]. intros ->%startswith_head. eauto.
  - intros ->%startswith_head. eauto.
Qed.

(** What [json.loads] is handed.  The argument text of a call is passed on
    as it is exactly when its first character after leading white space is
    an opening brace, and between a pair of braces otherwise; either way
    the text handed to [json.loads] starts, after white space, with an
    opening brace, and wrapping a wrapped text again changes nothing. *)
Theorem wrapped_arguments_open_with_a_brace (tool_args_str : string) :
  let opens :=
    ∃ space rest,
      Re.all_chars Text.is_space space = true
      ∧ tool_args_str = space +:+ String "{" rest in
  (Text.startswith "{" (Text.strip tool_args_str) = true ↔ opens)
  ∧ (opens → wrap_args tool_args_str = tool_args_str)
  ∧ (¬ opens → wrap_args tool_args_str = "{" +:+ tool_args_str +:+ "}")
  ∧ Text.startswith "{" (Text.strip (wrap_args tool_args_str)) = true
  ∧ wrap_args (wrap_args tool_args_str) = wrap_args tool_args_str.
Proof.
  intros opens.
  assert (Text.startswith "{" (Text.strip tool_args_str) = true ↔ opens)
    as Hopens.
  { split.
    - intros [rest Hrest]%strip_head.
      destruct (lstrip_spec tool_args_str) as (space & Hspace & Hs).
      exists space, rest. by rewrite <-Hrest.
    - intros (space & rest & Hspace & ->). unfold Text.strip.
      rewrite (lstrip_space _ _ Hspace). apply startswith_brace. }
  assert (Text.startswith "{" (Text.strip (wrap_args tool_args_str)) = true)
    as Hbrace.
  { unfold wrap_args.
    destruct (Text.startswith "{" (Text.strip tool_args_str)) eqn:Hs; [done|].
    apply startswith_brace. }
  split_and!; [done| | |done|].
  - intros Ho%Hopens. unfold wrap_args. by rewrite Ho.
  - intros Hno. unfold wrap_args.
    destruct (Text.startswith "{" (Text.strip tool_args_str)) eqn:Hs; [|done].
    by destruct Hno; apply Hopens.
  - unfold wrap_args at 1. by rewrite Hbrace.
Qed.

(** ** The connection to the tool server *)

(** [config/settings.py]: the settings and their defaults. *)
Record Settings := {
  mcp_command : string;
  mcp_args : list pyval;
  discord_enabled : bool;
  discord_command_prefix : string
}.

Definition default_settings : Settings :=
  {| mcp_command := "npx";
     mcp_args := [VStr "-y"; VStr "web3-research-mcp@latest"];
     discord_enabled := true;
     discord_command_prefix := "!" |}.

(** A tool as the server lists it: [tool.name], [tool.description],
    [tool.inputSchema]. *)
Record mcp_tool := McpTool {
  tool_name : string;
  tool_description : option string;
  inputSchema : pyval
}.

(** The truth value of a value, as [if v:] and [v or w] read it. *)
Definition truthy (v : pyval) : bool :=
  match v with
  | VNone => false
  | VBool b => b
  | VInt z => negb (z =? 0)%Z
  | VStr s => negb (bool_decide (s = ""))
  | VList l => negb (bool_decide (l = []))
  | VDict d => negb (bool_decide (d = []))
  | VObj _ _ => true
  end.

(** The command that starts the server and its arguments:
    [StdioServerParameters(command=..., args=..., env=None)].  Without a
    script path the settings give them, and the log line joins the
    arguments with spaces. *)
Definition server_parameters (settings : Settings)
    (server_script_path : option string) : result (string * list pyval) :=
  match server_script_path with
  | Some (String _ _ as path) =>
      let is_python := Str.endswith ".py" path in
      let is_js := Str.endswith ".js" path in
      if negb (is_python || is_js)
      then Err (Exn "ValueError" "Server script must be a .py or .js file")
      else Ok (if is_python then "python" else "node", [VStr path])
  | _ =>
      _ ← Py.join " " (mcp_args settings);
      Ok (mcp_command settings, mcp_args settings)
  end.

(** An entry of [self.tools] for a listed tool. *)
Definition tool_entry (t : mcp_tool) : tool :=
  Tool (tool_name t)
       (match tool_description t with
        | Some (String _ _ as d) => d
        | _ => "Tool for " +:+ Str.replace_char "-" " " (tool_name t)
        end)
       (inputSchema t).

Section Connection.

Context {P T L : Type}.

(** Starting the server and opening the session on its pipes:
    [stdio_client], [ClientSession] and [session.initialize]. *)
Variable open_session : string → list pyval → T → result unit * T.

(** [self.session.list_tools()], read at [response.tools]. *)
Variable list_tools : T → result (list mcp_tool) * T.

Variable json_dumps : pyval → result string.

Variable settings : Settings.

Local Abbreviation state := (@state P T L).

Definition set_tools (tools : list tool) (s : state) : state :=
  State (heap s) (self_messages s) tools (llm s) (session s) (files s)
    (trace s).

Definition session_open (command : string) (args : list pyval) : M unit :=
  λ s : state,
  let '(r, t) := open_session command args (session s) in
  (Some r, set_session t s).

Definition session_list_tools : M (list mcp_tool) := λ s : state,
  let '(r, t) := list_tools (session s) in
  (Some r, set_session t s).

(** [MCPClient.get_mcp_tools] *)
Definition get_mcp_tools : M (list mcp_tool) :=
  try_except session_list_tools (λ e, raise e).

(** The log lines for one tool: the schema is serialised when it is
    there. *)
Definition log_tool (t : tool) : @M P T L unit :=
  if truthy (input_schema t)
  then _ ← lift (json_dumps (input_schema t)); mret tt
  else mret tt.

(** [MCPClient.connect_to_server] *)
Definition connect_to_server (server_script_path : option string)
  : @M P T L bool :=
  try_except
    ('(command, args) ← lift (server_parameters settings server_script_path);
     session_open command args;;
     mcp_tools ← get_mcp_tools;
     modify (set_tools (tool_entry <$> mcp_tools));;
     tools ← gets self_tools;
     for_each tools log_tool;;
     mret true)
    (λ e, mret false).

Lemma drop_app_length (a b : string) : Str.drop (String.length a) (a +:+ b) = b.
Proof. induction a as [|c a IH]; [by destruct b|]. by rewrite app_cons. Qed.

Lemma endswith_spec (suffix s : string) :
  Str.endswith suffix s = true ↔ ∃ stem, s = stem +:+ suffix.
Proof.
  unfold Str.endswith. rewrite andb_true_iff, bool_decide_eq_true.
  rewrite Nat.leb_le. split.
  - intros [Hdrop _].
    exists (Str.take (String.length s - String.length suffix) s).
    etrans; [symmetry; apply (take_drop
                               (String.length s - String.length suffix))|].
    by rewrite Hdrop.
  - intros [stem ->]. rewrite app_length.
    replace (String.length stem + String.length suffix
             - String.length suffix) with (String.length stem) by lia.
    split; [apply drop_app_length|lia].
Qed.

Lemma endswith_same_length (a b s : string) :
  String.length a = String.length b →
  Str.endswith a s = true → Str.endswith b s = true → a = b.
Proof.
  unfold Str.endswith. rewrite !andb_true_iff, !bool_decide_eq_true.
  intros Hlen [<- _] [<- _]. by rewrite Hlen.
Qed.

(** How the server is started.  Without a script path, and with the empty
    path, the command and arguments of the settings are used (by default
    [npx -y web3-research-mcp@latest]); a path that ends in [.py] is run by
    [python] and one that ends in [.js] by [node], with the path as the only
    argument; any other path is refused with a [ValueError].  A path
    ends in a suffix when it is some text followed by the suffix. *)
Theorem server_is_started_by_extension (s : Settings) :
  server_parameters s (Some "") = server_parameters s None
  ∧ server_parameters default_settings None
    = Ok ("npx", [VStr "-y"; VStr "web3-research-mcp@latest"])
  ∧ (∀ texts,
       mcp_args s = VStr <$> texts →
       server_parameters s None = Ok (mcp_command s, mcp_args s))
  ∧ (∀ stem,
       server_parameters s (Some (stem +:+ ".py"))
       = Ok ("python", [VStr (stem +:+ ".py")]))
  ∧ (∀ stem,
       server_parameters s (Some (stem +:+ ".js"))
       = Ok ("node", [VStr (stem +:+ ".js")]))
  ∧ (∀ path,
       path ≠ "" →
       Str.endswith ".py" path = false → Str.endswith ".js" path = false →
       server_parameters s (Some path)
       = Err (Exn "ValueError" "Server script must be a .py or .js file"))
  ∧ (∀ suffix path,
       Str.endswith suffix path = true ↔ ∃ stem, path = stem +:+ suffix).
Proof.
  split_and!; try done; [..|apply endswith_spec].
  - intros texts Hargs. unfold server_parameters, Py.join.
    by rewrite Hargs, join_strs.
  - intros stem.
    assert (Str.endswith ".py" (stem +:+ ".py") = true) as Hpy
      by (apply endswith_spec; eauto).
    unfold server_parameters. destruct (stem +:+ ".py") eqn:Hpath.
    { by destruct stem. }
    by rewrite Hpy.
  - intros stem.
    assert (Str.endswith ".js" (stem +:+ ".js") = true) as Hjs
      by (apply endswith_spec; eauto).
    assert (Str.endswith ".py" (stem +:+ ".js") = false) as Hpy.
    { destruct (Str.endswith ".py" _) eqn:Hpy; [|done].
      by pose proof (endswith_same_length ".py" ".js" _ eq_refl Hpy Hjs). }
    unfold server_parameters. destruct (stem +:+ ".js") eqn:Hpath.
    { by destruct stem. }
    by rewrite Hpy, Hjs.
  - intros path Hpath Hpy Hjs. unfold server_parameters.
    destruct path as [|c path]; [done|]. by rewrite Hpy, Hjs.
Qed.

(** The schemas that the log lines serialise can be serialised. *)
Definition schemas_print (tools : list mcp_tool) : Prop :=
  Forall (λ t, truthy (inputSchema t) = true →
               ∃ text, json_dumps (inputSchema t) = Ok text) tools.

Lemma log_tools_run (tools : list mcp_tool) (s : state) :
  schemas_print tools →
  for_each (tool_entry <$> tools) log_tool s = (Some (Ok tt), s).
Proof.
  induction 1 as [|t tools Ht _ IH]; [done|].
  rewrite fmap_cons. simpl. unfold mbind at 1. unfold M_bind at 1.
  unfold log_tool at 1. simpl.
  destruct (truthy (inputSchema t)); [|done].
  destruct Ht as [text ->]; done.
Qed.

Lemma log_tools_total (tools : list tool) (s : state) :
  ∃ r, for_each tools log_tool s = (Some r, s).
Proof.
  induction tools as [|t tools [r IH]]; [by eexists|].
  simpl. unfold mbind at 1. unfold M_bind at 1. unfold log_tool at 1.
  destruct (truthy (input_schema t)); [|by eexists].
  destruct (json_dumps (input_schema t)); simpl; by eexists.
Qed.

Lemma log_tools_fail (tools : list mcp_tool) (t : mcp_tool) (e : exn)
    (s : state) :
  t ∈ tools → truthy (inputSchema t) = true →
  json_dumps (inputSchema t) = Err e →
  ∃ e', for_each (tool_entry <$> tools) log_tool s = (Some (Err e'), s).
Proof.
  intros Hin Htruthy Hdump. induction tools as [|t' tools IH];
    [by apply elem_of_nil in Hin|].
  rewrite fmap_cons. simpl. unfold mbind at 1. unfold M_bind at 1.
  unfold log_tool at 1. simpl.
  apply elem_of_cons in Hin as [<-|Hin].
  - rewrite Htruthy, Hdump. by eexists.
  - destruct (truthy (inputSchema t')); [|by apply IH].
    destruct (json_dumps (inputSchema t')); simpl; [by apply IH|by eexists].
Qed.

(** The connection, step by step. *)
Lemma connect_run (server_script_path : option string) (s : state) :
  connect_to_server server_script_path s =
  match server_parameters settings server_script_path with
  | Err _ => (Some (Ok false), s)
  | Ok (command, args) =>
      match open_session command args (session s) with
      | (Err _, t1) => (Some (Ok false), set_session t1 s)
      | (Ok _, t1) =>
          match list_tools t1 with
          | (Err _, t2) => (Some (Ok false), set_session t2 s)
          | (Ok tools, t2) =>
              let s' := set_tools (tool_entry <$> tools) (set_session t2 s) in
              match (for_each (tool_entry <$> tools) log_tool s').1
              with
              | Some (Ok _) => (Some (Ok true), s')
              | _ => (Some (Ok false), s')
              end
          end
      end
  end.
Proof.
  unfold connect_to_server, try_except.
  unfold mbind at 1. unfold M_bind at 1. unfold lift at 1.
  destruct (server_parameters settings server_script_path)
    as [[command args]|e]; [|done].
  unfold mbind at 1. unfold M_bind at 1. unfold session_open at 1.
  destruct (open_session command args (session s)) as [[[]|e] t1]; [|done].
  unfold mbind at 1. unfold M_bind at 1.
  unfold get_mcp_tools, try_except, session_list_tools, raise. simpl.
  destruct (list_tools t1) as [[tools|e] t2]; [|done].
  unfold mbind at 1. unfold M_bind at 1. unfold modify at 1.
  unfold mbind at 1. unfold M_bind at 1. unfold gets at 1. simpl.
  unfold mbind at 1. unfold M_bind at 1.
  change (set_session t2 (set_session t1 s)) with (set_session t2 s).
  destruct (log_tools_total (tool_entry <$> tools)
              (set_tools (tool_entry <$> tools) (set_session t2 s)))
    as [r ->].
  by destruct r as [[]|e].
Qed.

(** The outcome of a connection.  [connect_to_server] never raises: it
    returns a truth value.  With a script path that is neither a [.py] nor
    a [.js] file it returns false and nothing was started or changed.  When
    the session cannot be opened, or the tools cannot be listed, it returns
    false and the tools of the client are as before.  When the session opens,
    the server lists its tools and their schemas can be serialised, it
    returns true and the tools of the client are the listed ones, in the
    order of the server.  And when a schema of a listed tool cannot be
    serialised for the log, it returns false although the tools of the
    client are already the listed ones. *)
Theorem connection_returns_a_truth_value :
  (∀ path s, ∃ b, (connect_to_server path s).1 = Some (Ok b))
  ∧ (∀ path s,
       path ≠ "" →
       Str.endswith ".py" path = false → Str.endswith ".js" path = false →
       connect_to_server (Some path) s = (Some (Ok false), s))
  ∧ (∀ path s command args e t1,
       server_parameters settings path = Ok (command, args) →
       open_session command args (session s) = (Err e, t1) →
       connect_to_server path s = (Some (Ok false), set_session t1 s))
  ∧ (∀ path s command args t1 e t2,
       server_parameters settings path = Ok (command, args) →
       open_session command args (session s) = (Ok tt, t1) →
       list_tools t1 = (Err e, t2) →
       connect_to_server path s = (Some (Ok false), set_session t2 s))
  ∧ (∀ path s command args t1 tools t2,
       server_parameters settings path = Ok (command, args) →
       open_session command args (session s) = (Ok tt, t1) →
       list_tools t1 = (Ok tools, t2) →
       schemas_print tools →
       connect_to_server path s
       = (Some (Ok true),
          set_tools (tool_entry <$> tools) (set_session t2 s)))
  ∧ (∀ path s command args t1 tools t2 t e,
       server_parameters settings path = Ok (command, args) →
       open_session command args (session s) = (Ok tt, t1) →
       list_tools t1 = (Ok tools, t2) →
       t ∈ tools → truthy (inputSchema t) = true →
       json_dumps (inputSchema t) = Err e →
       connect_to_server path s
       = (Some (Ok false),
          set_tools (tool_entry <$> tools) (set_session t2 s))).
Proof.
  split_and!.
  - intros path s. rewrite connect_run.
    destruct (server_parameters _ _) as [[command args]|e]; [|by eexists].
    destruct (open_session _ _ _) as [[[]|e] t1]; [|by eexists].
    destruct (list_tools t1) as [[tools|e] t2]; [|by eexists].
    cbv zeta. destruct (for_each _ _ _).1 as [[[]|e]|]; by eexists.
  - intros path s Hpath Hpy Hjs. rewrite connect_run.
    unfold server_parameters. destruct path as [|c path]; [done|].
    by rewrite Hpy, Hjs.
  - intros path s command args e t1 Hparams Hopen.
    by rewrite connect_run, Hparams, Hopen.
  - intros path s command args t1 e t2 Hparams Hopen Hlist.
    by rewrite connect_run, Hparams, Hopen, Hlist.
  - intros path s command args t1 tools t2 Hparams Hopen Hlist Hprint.
    rewrite connect_run, Hparams, Hopen, Hlist. cbv zeta.
    by rewrite (log_tools_run _ _ Hprint).
  - intros path s command args t1 tools t2 t e Hparams Hopen Hlist Hin
      Htruthy Hdump.
    rewrite connect_run, Hparams, Hopen, Hlist. cbv zeta.
    set (s' := set_tools _ _).
    by destruct (log_tools_fail _ _ _ s' Hin Htruthy Hdump) as [e' ->].
Qed.

End Connection.

Lemma replace_hyphens (s : string) :
  String.length (Str.replace_char "-" " " s) = String.length s
  ∧ Re.all_chars (λ c, negb (Ascii.eqb c "-")) (Str.replace_char "-" " " s)
    = true
  ∧ (Re.all_chars (λ c, negb (Ascii.eqb c "-")) s = true →
     Str.replace_char "-" " " s = s).
Proof.
  induction s as [|c s (IH1 & IH2 & IH3)]; [done|].
  change (Str.replace_char "-" " " (String c s))
    with ((if Ascii.eqb c "-" then " " else String c "")
          +:+ Str.replace_char "-" " " s).
  cbn [Re.all_chars String.length].
  destruct (Ascii.eqb c "-") eqn:Hc.
  - rewrite !app_cons, !app_nil_l. cbn [Re.all_chars String.length negb andb].
    by rewrite IH1, IH2.
  - rewrite !app_cons, !app_nil_l. cbn [Re.all_chars String.length].
    rewrite Hc, IH1, IH2. split_and!; try done. intros Hs. by rewrite IH3.
Qed.

(** The tools the client keeps.  After a connection the client holds one
    entry for each tool the server listed, in the same order, with the name
    and the schema of the server.  Every entry has a description that is not
    empty: the one of the server when there is one, and otherwise the words
    [Tool for] followed by the name with every hyphen turned into a
    space. *)
Theorem tool_entries_are_described (tools : list mcp_tool) :
  name <$> (tool_entry <$> tools) = tool_name <$> tools
  ∧ input_schema <$> (tool_entry <$> tools) = inputSchema <$> tools
  ∧ Forall (λ t, description t ≠ "") (tool_entry <$> tools)
  ∧ (∀ t d,
       tool_description t = Some d → d ≠ "" → description (tool_entry t) = d)
  ∧ (∀ t,
       tool_description t = None ∨ tool_description t = Some "" →
       description (tool_entry t)
       = "Tool for " +:+ Str.replace_char "-" " " (tool_name t))
  ∧ (∀ n,
       let words := Str.replace_char "-" " " n in
       String.length words = String.length n
       ∧ Re.all_chars (λ c, negb (Ascii.eqb c "-")) words = true
       ∧ (Re.all_chars (λ c, negb (Ascii.eqb c "-")) n = true → words = n)).
Proof.
  split_and!.
  - rewrite <-list_fmap_compose. by apply list_fmap_ext.
  - rewrite <-list_fmap_compose. by apply list_fmap_ext.
  - apply Forall_fmap, Forall_forall. intros [n [[|c d]|] schema] _; done.
  - intros [n [[|c d']|] schema] d; simpl; congruence.
  - intros [n descr schema] Hd.
    by destruct Hd as [Hd|Hd]; simpl in Hd; rewrite Hd.
  - intros n. apply replace_hyphens.
Qed.

(** ** The HTTP routes *)

(** What a route handler does: it returns the body of the response, or
    raises [HTTPException(status_code=..., detail=...)]. *)
Inductive reply (A : Type) :=
| Returns (body : A)
| HTTPException (status_code : Z) (detail : string).
Arguments Returns {A} body.
Arguments HTTPException {A} status_code detail.

(** The bodies: [{"messages": ...}] and [{"tools": [...]}]. *)
Record QueryResponse := { response_messages : list msg }.
Record ToolsResponse := { response_tools : list message }.

(** The entry of the tools route for one tool. *)
Definition tool_json (t : mcp_tool) : message :=
  {[ "name" := VStr (tool_name t);
     "description" := match tool_description t with
                      | Some d => VStr d
                      | None => VNone
                      end;
     "input_schema" := inputSchema t ]}.

Section Routes.

Context {P T L : Type}.
Variable chat_completions_create :
  list msg → P → result (option string) * P.
Variable call_tool : string → pyval → T → result pyval * T.
Variable write_conversation : list msg → L → result unit * L.
Variable json_loads : string → result pyval.
Variable json_dumps : pyval → result string.
Variable builtin_str : pyval → result string.
Variable list_tools : T → result (list mcp_tool) * T.

Local Abbreviation state := (@state P T L).

(** A route handler on the client of the application state. *)
Definition Route (A : Type) : Type := state → option (reply A) * state.

(** [POST /query]: [process_query] of [api/routes.py] *)
Definition query_route (fuel : nat) (request_query : string)
  : Route QueryResponse := λ s,
  match process_query chat_completions_create call_tool write_conversation
          json_loads json_dumps builtin_str fuel request_query s
  with
  | (Some (Ok messages), s') =>
      (Some (Returns {| response_messages := messages |}), s')
  | (Some (Err e), s') => (Some (HTTPException 500 (exc_str e)), s')
  | (None, s') => (None, s')
  end.

(** [GET /tools]: [get_tools] of [api/routes.py] *)
Definition tools_route : Route ToolsResponse := λ s,
  match get_mcp_tools list_tools s with
  | (Some (Ok tools), s') =>
      (Some (Returns {| response_tools := tool_json <$> tools |}), s')
  | (Some (Err e), s') => (Some (HTTPException 500 (exc_str e)), s')
  | (None, s') => (None, s')
  end.

Local Abbreviation process_query :=
  (process_query chat_completions_create call_tool write_conversation
     json_loads json_dumps builtin_str).

(** The query whose first completion request fails. *)
Lemma first_request_fails (fuel : nat) (q : string) (s : state) (e : exn)
    (p1 : P) :
  chat_completions_create (request (self_tools s) [user_says q]) (llm s)
  = (Err e, p1) →
  (process_query (S fuel) q s).1
  = Some (Ok [user_says q; assistant_says (fallback_content e)]).
Proof.
  intros Hchat.
  pose proof (inv_seed q s) as Hinv.
  destruct (inv_plain _ _ _ Hinv) as [Hwf Hplain].
  rewrite process_query_run, (loop_run _ _ _ _ _ _ _ _ Hwf Hplain). simpl.
  rewrite seed_conversation.
  change (self_tools (seed q s)) with (self_tools s).
  change (llm (seed q s)) with (llm s).
  rewrite Hchat. simpl.
  rewrite pushed_conversation by by apply requested_wf.
  by rewrite requested_conversation, seed_conversation.
Qed.

(** The query whose first write of the log fails. *)
Lemma first_write_fails (fuel : nat) (q : string) (s : state)
    (response : option string) (p1 : P) (e : exn) (l1 : L) :
  chat_completions_create (request (self_tools s) [user_says q]) (llm s)
  = (Ok response, p1) →
  write_conversation [user_says q; assistant_says (default "" response)]
    (files s)
  = (Err e, l1) →
  (process_query (S fuel) q s).1
  = Some (Ok [user_says q; assistant_says (default "" response);
              assistant_says (fallback_content e)]).
Proof.
  intros Hchat Hwrite.
  pose proof (inv_seed q s) as Hinv.
  rewrite process_query_run.
  rewrite (failed_write_raises _ _ _ _ _ _ _ fuel _ _ response p1 e l1 Hinv)
    by by rewrite seed_conversation.
  cbn [fst].
  change (conversation (pushed ?m (logged ?l ?x)))
    with (conversation (pushed m x)).
  rewrite pushed_conversation
    by apply (inv_plain _ _ _ (inv_answered _ _ _ _ _ Hinv)).
  rewrite answered_conversation by apply (inv_plain _ _ _ Hinv).
  by rewrite seed_conversation.
Qed.

(** The query route never answers with an error of its own.  Since no
    exception escapes [process_query], the handler of [POST /query] never
    raises its [HTTPException]: whenever it ends, it returns the conversation
    of the client, which starts with the query of the request and ends with
    an assistant message.  A failure of the completion service or of the
    log ends the query and reaches the caller, with status 200, as the text
    of that last message: when the first completion request raises, the
    body holds the query and the apology with the text of the exception;
    when the first write of the log raises, the body holds the query, the
    response and the apology with the text of that exception. *)
Theorem query_route_never_fails (fuel : nat) (request_query : string)
    (s : state) :
  (∀ status_code detail,
     (query_route fuel request_query s).1
     ≠ Some (HTTPException status_code detail))
  ∧ (∀ body,
       (query_route fuel request_query s).1 = Some (Returns body) →
       response_messages body
       = conversation (query_route fuel request_query s).2
       ∧ ∃ pre c,
           response_messages body
           = user_says request_query :: pre ++ [assistant_says c])
  ∧ (∀ e p1,
       chat_completions_create
         (request (self_tools s) [user_says request_query]) (llm s)
       = (Err e, p1) →
       (query_route (S fuel) request_query s).1
       = Some (Returns
                 {| response_messages :=
                      [user_says request_query;
                       assistant_says (fallback_content e)] |}))
  ∧ (∀ response p1 e l1,
       chat_completions_create
         (request (self_tools s) [user_says request_query]) (llm s)
       = (Ok response, p1) →
       write_conversation
         [user_says request_query; assistant_says (default "" response)]
         (files s)
       = (Err e, l1) →
       (query_route (S fuel) request_query s).1
       = Some (Returns
                 {| response_messages :=
                      [user_says request_query;
                       assistant_says (default "" response);
                       assistant_says (fallback_content e)] |})).
Proof.
  assert (∀ fuel' messages,
            (process_query fuel' request_query s).1 = Some (Ok messages) →
            (query_route fuel' request_query s).1
            = Some (Returns {| response_messages := messages |})) as Hok.
  { intros fuel' messages. unfold query_route.
    destruct (process_query _ _ _) as [[[messages'|e]|] s']; simpl; try done.
    by intros [= ->]. }
  split_and!.
  - intros status_code detail. unfold query_route.
    pose proof (no_exception_escapes chat_completions_create call_tool
                  write_conversation json_loads json_dumps builtin_str
                  fuel request_query s) as Hnever.
    destruct (process_query _ _ _) as [[[messages|e]|] s']; simpl in *;
      [done| |done].
    by destruct (Hnever e).
  - unfold query_route.
    pose proof (process_query_inv chat_completions_create call_tool
                  write_conversation json_loads json_dumps builtin_str
                  fuel request_query s) as [_ Hconv].
    pose proof (returned_shape chat_completions_create call_tool
                  write_conversation json_loads json_dumps builtin_str
                  fuel request_query s) as Hshape.
    destruct (process_query _ _ _) as [[[messages|e]|] s'];
      simpl in *; [|done..].
    intros body [= <-]. simpl. split; [by apply Hconv|].
    destruct (Hshape messages eq_refl) as (pre & c & -> & _). eauto.
  - intros e p1 Hchat. by eapply Hok, first_request_fails.
  - intros response p1 e l1 Hchat Hwrite.
    by eapply Hok, first_write_fails.
Qed.

(** The tools route.  When the session lists its tools, [GET /tools]
    returns one entry for each of them, in the order of the server, with the
    name, the description and the schema as the server gave them: a missing
    description stays [None] here, it is not replaced as in the entries the
    client keeps.  When listing fails, the handler raises [HTTPException]
    with status 500 and the text of the exception as detail.  In both cases
    the conversation and the tools of the client are as before. *)
Theorem tools_route_lists_or_fails (s : state) :
  (∀ tools t,
     list_tools (session s) = (Ok tools, t) →
     tools_route s
     = (Some (Returns {| response_tools := tool_json <$> tools |}),
        set_session t s)
     ∧ length (tool_json <$> tools) = length tools
     ∧ (λ m : message, m !! "name") <$> (tool_json <$> tools)
       = (λ t, Some (VStr (tool_name t))) <$> tools)
  ∧ (∀ e t,
       list_tools (session s) = (Err e, t) →
       tools_route s = (Some (HTTPException 500 (exc_str e)), set_session t s))
  ∧ (∀ t, tool_description t = None →
          tool_json t !! "description" = Some VNone)
  ∧ conversation (tools_route s).2 = conversation s
  ∧ self_tools (tools_route s).2 = self_tools s.
Proof.
  unfold tools_route, get_mcp_tools, try_except, session_list_tools, raise.
  destruct (list_tools (session s)) as [[tools|e] t]; simpl; split_and!;
    try done.
  - intros tools' t' [= <- <-]. split_and!; [done|by rewrite length_fmap|].
    rewrite <-list_fmap_compose. by apply list_fmap_ext.
  - intros t' Hd. unfold tool_json. rewrite Hd.
    by rewrite lookup_insert_ne, lookup_insert_eq.
  - by intros e' t' [= <- <-].
  - intros t' Hd. unfold tool_json. rewrite Hd.
    by rewrite lookup_insert_ne, lookup_insert_eq.
Qed.

End Routes.

(** ** The Discord handlers

  One run of a handler, from the event to its end: what other handlers do
  while this one waits for the client or for Discord is outside the model,
  as it is for the client itself. *)

(** A message as the handlers read it: whether [message.author] is the bot
    itself, [message.author.bot], [message.channel.id], [message.id] and
    [message.content]. *)
Record discord_message := DiscordMessage {
  msg_author_is_self : bool;
  msg_author_bot : bool;
  msg_channel : N;
  msg_id : N;
  msg_content : string
}.

(** What the handlers ask of Discord: [bot.process_commands(message)],
    [message.channel.typing()], [message.reply(text)],
    [message.channel.send(text)], [interim_message.edit(content=text)] on
    the reply to a message, and [ctx.send(text)]. *)
Inductive discord_call :=
| ProcessCommands (message : discord_message)
| Typing (channel : N)
| Reply (message : discord_message) (text : string)
| Send (channel : N) (text : string)
| Edit (message : discord_message) (text : string)
| CtxSend (text : string).

Definition interim_text : string :=
  "I'm using my tools to find information for you. Please wait a moment...".
Definition trouble_text : string :=
  "I'm sorry, I'm having trouble processing that request. "
  +:+ "Could you try asking in a different way?".
Definition error_text : string :=
  "Sorry, I encountered an error while processing your request.".
Definition tools_error_text : string :=
  "Sorry, I encountered an error while retrieving the tools.".

(** The text of the tools command: [f"**{tool.name}**: {tool.description}"]
    and two newlines for each tool, after the heading. *)
Definition tools_text (tools : list mcp_tool) : string :=
  foldl (λ text tool,
           text +:+ "**" +:+ tool_name tool +:+ "**: "
           +:+ match tool_description tool with
               | Some d => d
               | None => "None"
               end
           +:+ newline +:+ newline)
        ("**Available Tools:**" +:+ newline +:+ newline) tools.

Section Discord.

Context {P T L D : Type}.
Variable chat_completions_create :
  list msg → P → result (option string) * P.
Variable call_tool : string → pyval → T → result pyval * T.
Variable write_conversation : list msg → L → result unit * L.
Variable json_loads : string → result pyval.
Variable json_dumps : pyval → result string.
Variable builtin_str : pyval → result string.

(** A call of the Discord API that the handler awaits. *)
Variable discord : discord_call → D → result unit * D.

(** [bot.process_commands]: it may run a command of the bot, which talks to
    Discord and to the tool session. *)
Variable process_commands :
  discord_message → D → T → result unit * (D * T).

Local Abbreviation state := (@state P T L).

(** The event handler and what it refers to: the client, the two sets, the
    state of Discord; [asked] lists what the handler asked of Discord so
    far. *)
Record handler := Handler {
  mcp_client : state;
  active_channels : gset N;
  processing_queries : gset string;
  discord_state : D;
  asked : list discord_call
}.

(** A computation of a handler. *)
Definition B (A : Type) : Type := handler → option (result A) * handler.

#[global] Instance B_ret : MRet B := λ A a h, (Some (Ok a), h).
#[global] Instance B_bind : MBind B := λ A B k m h,
  match m h with
  | (Some (Ok a), h') => k a h'
  | (Some (Err e), h') => (Some (Err e), h')
  | (None, h') => (None, h')
  end.

(** [try: body except Exception as e: handler e] *)
Definition try_except_B {A} (body : B A) (handle : exn → B A) : B A := λ h,
  match body h with
  | (Some (Err e), h') => handle e h'
  | r => r
  end.

(** [try: body finally: final] *)
Definition try_finally_B {A} (body : B A) (final : B unit) : B A := λ h,
  match body h with
  | (Some r, h') =>
      match final h' with
      | (Some (Ok _), h'') => (Some r, h'')
      | (Some (Err e), h'') => (Some (Err e), h'')
      | (None, h'') => (None, h'')
      end
  | (None, h') => (None, h')
  end.

(** A call on the client. *)
Definition on_client {A} (m : M A) : B A := λ h,
  let '(r, s) := m (mcp_client h) in
  (r, Handler s (active_channels h) (processing_queries h) (discord_state h)
        (asked h)).

Definition ask (call : discord_call) : B unit := λ h,
  let '(r, d) := discord call (discord_state h) in
  (Some r,
   Handler (mcp_client h) (active_channels h) (processing_queries h) d
     (asked h ++ [call])).

Definition bot_process_commands (message : discord_message) : B unit := λ h,
  let '(r, (d, t)) :=
    process_commands message (discord_state h) (session (mcp_client h)) in
  (Some r,
   Handler (set_session t (mcp_client h)) (active_channels h)
     (processing_queries h) d (asked h ++ [ProcessCommands message])).

Definition set_active (channels : gset N) (h : handler) : handler :=
  Handler (mcp_client h) channels (processing_queries h) (discord_state h)
    (asked h).
Definition set_processing (queries : gset string) (h : handler) : handler :=
  Handler (mcp_client h) (active_channels h) queries (discord_state h)
    (asked h).

Definition modify_B (f : handler → handler) : B unit :=
  λ h, (Some (Ok tt), f h).
Definition gets_B {A} (f : handler → A) : B A := λ h, (Some (Ok (f h)), h).

(** [for i, chunk in enumerate(chunks)]: the first piece is a reply, the
    others are sent to the channel. *)
Fixpoint send_chunks (message : discord_message) (i : nat)
    (chunks : list string) : B unit :=
  match chunks with
  | [] => mret tt
  | chunk :: rest =>
      (match i with
       | 0 => ask (Reply message chunk)
       | S _ => ask (Send (msg_channel message) chunk)
       end);;
      send_chunks message (S i) rest
  end.

Local Abbreviation query :=
  (process_query chat_completions_create call_tool write_conversation
     json_loads json_dumps builtin_str).

(** [f"{message.channel.id}_{message.id}"] *)
Definition query_id (message : discord_message) : string :=
  pretty (msg_channel message) +:+ "_" +:+ pretty (msg_id message).

(** The part of [on_message] under [async with message.channel.typing()]. *)
Definition answer (fuel : nat) (message : discord_message) : B unit :=
  let query_text := msg_content message in
  messages ← on_client (query fuel query_text);
  let assistant_response :=
    get_latest_assistant_message (as_message <$> messages) in
  if Text.contains "<function=" assistant_response then
    ask (Reply message interim_text);;
    (* asyncio.sleep(1) *)
    messages ← on_client (query fuel query_text);
    let assistant_response :=
      get_latest_assistant_message (as_message <$> messages) in
    ask (Edit message assistant_response)
  else if bool_decide (assistant_response ≠ "") then
    if String.length assistant_response <=? 2000
    then ask (Reply message assistant_response)
    else send_chunks message 0 (Str.chunks assistant_response 2000)
  else ask (Reply message trouble_text).

(** The handler of the [on_message] event. *)
Definition on_message (fuel : nat) (message : discord_message) : B unit :=
  if msg_author_is_self message || msg_author_bot message then mret tt
  else
    bot_process_commands message;;
    let message_id := query_id message in
    processing ← gets_B processing_queries;
    if bool_decide (message_id ∈ processing) then mret tt
    else
      modify_B (λ h, set_processing (processing_queries h ∪ {[message_id]}) h);;
      try_finally_B
        (try_except_B
           (modify_B (λ h,
              set_active (active_channels h ∪ {[msg_channel message]}) h);;
            ask (Typing (msg_channel message));;
            answer fuel message)
           (λ e, ask (Reply message error_text)))
        (modify_B (λ h,
           set_processing (processing_queries h ∖ {[message_id]}) h)).

(** *** The books of the handler *)

Lemma discard_added (queries : gset string) (id : string) :
  id ∉ queries → (queries ∪ {[id]}) ∖ {[id]} = queries.
Proof.
  intros Hnew.
  rewrite difference_union_distr_l_L, difference_diag_L, (right_id_L ∅ (∪)).
  apply difference_disjoint_L. by apply disjoint_singleton_r.
Qed.

(** A computation that leaves the two sets of the handler alone. *)
Definition keeps_sets {A} (m : B A) : Prop :=
  ∀ h, processing_queries (m h).2 = processing_queries h
       ∧ active_channels (m h).2 = active_channels h.

Lemma keeps_sets_bind {A C} (m : B A) (k : A → B C) :
  keeps_sets m → (∀ a, keeps_sets (k a)) → keeps_sets (m ≫= k).
Proof.
  intros Hm Hk h. destruct (Hm h) as [Hq Hc]. unfold mbind, B_bind.
  destruct (m h) as [[[a|e]|] h1]; try done.
  destruct (Hk a h1) as [? ?]. simpl in *. split; congruence.
Qed.

Lemma keeps_sets_try {A} (body : B A) (handle : exn → B A) :
  keeps_sets body → (∀ e, keeps_sets (handle e)) →
  keeps_sets (try_except_B body handle).
Proof.
  intros Hm Hk h. destruct (Hm h) as [Hq Hc]. unfold try_except_B.
  destruct (body h) as [[[a|e]|] h1]; try done.
  destruct (Hk e h1) as [? ?]. simpl in *. split; congruence.
Qed.

Lemma keeps_sets_ask (call : discord_call) : keeps_sets (ask call).
Proof. intros h. unfold ask. by destruct (discord _ _). Qed.

Lemma keeps_sets_on_client {A} (m : M A) : keeps_sets (on_client m).
Proof. intros h. unfold on_client. by destruct (m _). Qed.

Lemma keeps_sets_ret {A} (a : A) : keeps_sets (mret a).
Proof. by intros h. Qed.

Lemma keeps_sets_send_chunks (message : discord_message) (i : nat)
    (chunks : list string) :
  keeps_sets (send_chunks message i chunks).
Proof.
  revert i. induction chunks as [|chunk rest IH]; intros i; simpl.
  - apply keeps_sets_ret.
  - apply keeps_sets_bind; [|done]. destruct i; apply keeps_sets_ask.
Qed.

Lemma keeps_sets_answer (fuel : nat) (message : discord_message) :
  keeps_sets (answer fuel message).
Proof.
  unfold answer. apply keeps_sets_bind; [apply keeps_sets_on_client|].
  intros messages. destruct (Text.contains _ _).
  - apply keeps_sets_bind; [apply keeps_sets_ask|]. intros _.
    apply keeps_sets_bind; [apply keeps_sets_on_client|]. intros messages'.
    apply keeps_sets_ask.
  - destruct (bool_decide _); [|apply keeps_sets_ask].
    destruct (_ <=? _); [apply keeps_sets_ask|apply keeps_sets_send_chunks].
Qed.

(** The books of the handler.  A message of the bot itself or of another
    bot is ignored: nothing is asked of Discord and nothing changes.  For
    any other message, however the handler ends, by returning or by raising,
    the set of queries in progress is afterwards what it was before, and no
    channel is forgotten; when the query of the message was not in progress
    and the commands did not raise, its channel is among the active ones
    afterwards; and when it was in progress already, the message is handed
    to the commands and nothing else is done: the client is not asked. *)
Theorem handler_keeps_its_books (fuel : nat) (message : discord_message)
    (h : handler) :
  (msg_author_is_self message || msg_author_bot message = true →
   on_message fuel message h = (Some (Ok tt), h))
  ∧ (∀ r h',
       on_message fuel message h = (Some r, h') →
       processing_queries h' = processing_queries h
       ∧ active_channels h ⊆ active_channels h')
  ∧ (∀ r h' d t,
       msg_author_is_self message || msg_author_bot message = false →
       process_commands message (discord_state h) (session (mcp_client h))
       = (Ok tt, (d, t)) →
       query_id message ∉ processing_queries h →
       on_message fuel message h = (Some r, h') →
       msg_channel message ∈ active_channels h')
  ∧ (∀ d t,
       msg_author_is_self message || msg_author_bot message = false →
       process_commands message (discord_state h) (session (mcp_client h))
       = (Ok tt, (d, t)) →
       query_id message ∈ processing_queries h →
       on_message fuel message h
       = (Some (Ok tt),
          Handler (set_session t (mcp_client h)) (active_channels h)
            (processing_queries h) d (asked h ++ [ProcessCommands message]))).
Proof.
  assert (∀ h1 : handler,
            query_id message ∉ processing_queries h1 →
            ∀ r h',
              try_finally_B
                (try_except_B
                   (modify_B (λ h,
                      set_active
                        (active_channels h ∪ {[msg_channel message]}) h);;
                    ask (Typing (msg_channel message));;
                    answer fuel message)
                   (λ e, ask (Reply message error_text)))
                (modify_B (λ h,
                   set_processing
                     (processing_queries h ∖ {[query_id message]}) h))
                (set_processing
                   (processing_queries h1 ∪ {[query_id message]}) h1)
              = (Some r, h') →
              processing_queries h' = processing_queries h1
              ∧ active_channels h'
                = active_channels h1 ∪ {[msg_channel message]}) as Hbody.
  { intros h1 Hnew r h'. unfold try_finally_B.
    set (h2 := set_processing _ h1).
    set (body := try_except_B _ _).
    assert (processing_queries (body h2).2 = processing_queries h2
            ∧ active_channels (body h2).2
              = active_channels h2 ∪ {[msg_channel message]}) as [Hq Hc].
    { unfold body, try_except_B.
      set (h3 := set_active (active_channels h2 ∪ {[msg_channel message]})
                   h2).
      set (inner := ask (Typing (msg_channel message));; answer fuel message).
      change ((modify_B _ ≫= _) h2) with (inner h3).
      pose proof (keeps_sets_bind _ _
                    (keeps_sets_ask (Typing (msg_channel message)))
                    (λ _, keeps_sets_answer fuel message) h3) as [Hq Hc].
      fold inner in Hq, Hc.
      destruct (inner h3) as [[[a|e]|] h4]; try done.
      destruct (keeps_sets_ask (Reply message error_text) h4) as [Hq' Hc'].
      simpl in *. split; congruence. }
    destruct (body h2) as [[r'|] h3]; [|done]. simpl in *.
    intros [= <- <-]. simpl. rewrite Hq, Hc. split; [|done].
    unfold h2. simpl. by apply discard_added. }
  split_and!.
  - intros Hbot. unfold on_message. by rewrite Hbot.
  - intros r h'. unfold on_message.
    destruct (_ || _); [by intros [= <- <-]|].
    unfold mbind at 1. unfold B_bind at 1. unfold bot_process_commands at 1.
    destruct (process_commands _ _ _) as [[[]|e] [d t]];
      [|by intros [= <- <-]].
    unfold mbind at 1. unfold B_bind at 1. unfold gets_B at 1. simpl.
    destruct (decide (query_id message ∈ processing_queries h)) as [Hin|Hnew].
    + rewrite bool_decide_eq_true_2 by done. by intros [= <- <-].
    + rewrite bool_decide_eq_false_2 by done.
      unfold mbind at 1. unfold B_bind at 1. unfold modify_B at 1.
      intros Hrun. apply Hbody in Hrun as [-> ->]; [|done]. simpl.
      split; [done|apply union_subseteq_l].
  - intros r h' d t Hhuman Hcommands Hnew. unfold on_message.
    rewrite Hhuman.
    unfold mbind at 1. unfold B_bind at 1. unfold bot_process_commands at 1.
    rewrite Hcommands.
    unfold mbind at 1. unfold B_bind at 1. unfold gets_B at 1. simpl.
    rewrite bool_decide_eq_false_2 by done.
    unfold mbind at 1. unfold B_bind at 1. unfold modify_B at 1.
    intros Hrun. apply Hbody in Hrun as [_ ->]; [|done].
    apply elem_of_union. right. by apply elem_of_singleton.
  - intros d t Hhuman Hcommands Hin. unfold on_message. rewrite Hhuman.
    unfold mbind at 1. unfold B_bind at 1. unfold bot_process_commands at 1.
    rewrite Hcommands.
    unfold mbind at 1. unfold B_bind at 1. unfold gets_B at 1. simpl.
    by rewrite bool_decide_eq_true_2 by done.
Qed.

(** *** The answer *)

(** Discord takes every call. *)
Definition discord_up : Prop := ∀ call d, (discord call d).1 = Ok tt.

(** What is asked of Discord for the pieces of an answer. *)
Fixpoint chunk_calls (message : discord_message) (i : nat)
    (chunks : list string) : list discord_call :=
  match chunks with
  | [] => []
  | chunk :: rest =>
      match i with
      | 0 => Reply message chunk
      | S _ => Send (msg_channel message) chunk
      end :: chunk_calls message (S i) rest
  end.

(** The handler after more was asked of Discord. *)
Definition asked_more (calls : list discord_call) (h h' : handler) : Prop :=
  mcp_client h' = mcp_client h
  ∧ active_channels h' = active_channels h
  ∧ processing_queries h' = processing_queries h
  ∧ asked h' = asked h ++ calls.

Lemma ask_up (call : discord_call) (h : handler) :
  discord_up → ∃ h', ask call h = (Some (Ok tt), h') ∧ asked_more [call] h h'.
Proof.
  intros Hup. unfold ask. specialize (Hup call (discord_state h)).
  destruct (discord call (discord_state h)) as [r d]. simpl in Hup. subst r.
  eexists. split; [done|]. by split_and!.
Qed.

Lemma asked_more_trans (calls1 calls2 : list discord_call)
    (h1 h2 h3 : handler) :
  asked_more calls1 h1 h2 → asked_more calls2 h2 h3 →
  asked_more (calls1 ++ calls2) h1 h3.
Proof.
  intros (Hc1 & Ha1 & Hp1 & Hk1) (Hc2 & Ha2 & Hp2 & Hk2).
  split_and!; try congruence. by rewrite Hk2, Hk1, (assoc_L (++)).
Qed.

Lemma send_chunks_up (message : discord_message) (i : nat)
    (chunks : list string) (h : handler) :
  discord_up →
  ∃ h', send_chunks message i chunks h = (Some (Ok tt), h')
        ∧ asked_more (chunk_calls message i chunks) h h'.
Proof.
  intros Hup. revert i h. induction chunks as [|chunk rest IH]; intros i h.
  - exists h. split; [done|]. unfold asked_more. simpl.
    by rewrite (right_id_L [] (++)).
  - simpl. unfold mbind, B_bind.
    destruct (ask_up (match i with
                      | 0 => Reply message chunk
                      | S _ => Send (msg_channel message) chunk
                      end) h Hup) as (h1 & Hask & Hmore1).
    assert ((match i with
             | 0 => ask (Reply message chunk)
             | S _ => ask (Send (msg_channel message) chunk)
             end) h = (Some (Ok tt), h1)) as -> by by destruct i.
    destruct (IH (S i) h1) as (h' & -> & Hmore2).
    exists h'. split; [done|]. by apply (asked_more_trans [_] _ _ h1).
Qed.

(** The pieces in which an answer is sent. *)
Definition pieces (assistant_response : string) : list string :=
  if bool_decide (assistant_response ≠ "")
  then Str.chunks assistant_response 2000
  else [trouble_text].

Lemma answer_plain (fuel : nat) (message : discord_message) (h : handler)
    (conv : list msg) (s1 : state) :
  discord_up →
  query fuel (msg_content message) (mcp_client h) = (Some (Ok conv), s1) →
  let c := get_latest_assistant_message (as_message <$> conv) in
  Text.contains "<function=" c = false →
  ∃ h', answer fuel message h = (Some (Ok tt), h')
        ∧ mcp_client h' = s1
        ∧ active_channels h' = active_channels h
        ∧ processing_queries h' = processing_queries h
        ∧ asked h' = asked h ++ chunk_calls message 0 (pieces c).
Proof.
  intros Hup Hquery c Hplain. unfold answer.
  unfold mbind at 1. unfold B_bind at 1. unfold on_client at 1.
  rewrite Hquery. fold c. rewrite Hplain.
  set (h1 := Handler s1 _ _ _ _).
  assert (∃ h', send_chunks message 0 (pieces c) h1 = (Some (Ok tt), h')
                ∧ asked_more (chunk_calls message 0 (pieces c)) h1 h')
    as (h' & Hsend & Hc & Ha & Hp & Hk) by by apply send_chunks_up.
  exists h'. split; [|by split_and!].
  rewrite <-Hsend. unfold pieces.
  destruct (bool_decide_reflect (c ≠ "")) as [Hne|_].
  - destruct (Nat.leb_spec (String.length c) 2000) as [Hfits|_]; [|done].
    rewrite chunks_short by done. simpl. unfold mbind, B_bind.
    by destruct (ask _ _) as [[[[]|e]|] h2].
  - simpl. unfold mbind, B_bind. by destruct (ask _ _) as [[[[]|e]|] h2].
Qed.

Lemma answer_again (fuel : nat) (message : discord_message) (h : handler)
    (conv conv2 : list msg) (s1 s2 : state) :
  discord_up →
  query fuel (msg_content message) (mcp_client h) = (Some (Ok conv), s1) →
  Text.contains "<function="
    (get_latest_assistant_message (as_message <$> conv)) = true →
  query fuel (msg_content message) s1 = (Some (Ok conv2), s2) →
  ∃ h', answer fuel message h = (Some (Ok tt), h')
        ∧ mcp_client h' = s2
        ∧ active_channels h' = active_channels h
        ∧ processing_queries h' = processing_queries h
        ∧ asked h'
          = asked h
            ++ [Reply message interim_text;
                Edit message
                  (get_latest_assistant_message (as_message <$> conv2))].
Proof.
  intros Hup Hquery Hcall Hquery2. unfold answer.
  unfold mbind at 1. unfold B_bind at 1. unfold on_client at 1.
  rewrite Hquery, Hcall.
  set (h1 := Handler s1 _ _ _ _).
  destruct (ask_up (Reply message interim_text) h1 Hup)
    as (h2 & Hask & Hc2 & Ha2 & Hp2 & Hk2).
  unfold mbind at 1. unfold B_bind at 1. rewrite Hask.
  unfold mbind at 1. unfold B_bind at 1. unfold on_client at 1.
  rewrite Hc2. simpl. rewrite Hquery2.
  set (h3 := Handler s2 _ _ _ _).
  destruct (ask_up (Edit message
                      (get_latest_assistant_message (as_message <$> conv2)))
              h3 Hup) as (h4 & Hask4 & Hc4 & Ha4 & Hp4 & Hk4).
  exists h4. split; [done|]. simpl in *.
  split_and!; try congruence.
  by rewrite Hk4, Hk2, <-(assoc_L (++)).
Qed.

(** The handler up to the answer: the commands ran, the query is in
    progress, the channel is active and the typing indicator is on. *)
Definition typing (message : discord_message) (d1 : D) (t1 : T)
    (h : handler) : handler :=
  Handler (set_session t1 (mcp_client h))
    (active_channels h ∪ {[msg_channel message]})
    (processing_queries h ∪ {[query_id message]})
    (discord (Typing (msg_channel message)) d1).2
    (asked h ++ [ProcessCommands message; Typing (msg_channel message)]).

Lemma on_message_answers (fuel : nat) (message : discord_message)
    (h h2 : handler) (d1 : D) (t1 : T) :
  discord_up →
  msg_author_is_self message || msg_author_bot message = false →
  process_commands message (discord_state h) (session (mcp_client h))
  = (Ok tt, (d1, t1)) →
  query_id message ∉ processing_queries h →
  answer fuel message (typing message d1 t1 h) = (Some (Ok tt), h2) →
  on_message fuel message h
  = (Some (Ok tt),
     set_processing (processing_queries h2 ∖ {[query_id message]}) h2).
Proof.
  intros Hup Hhuman Hcommands Hnew Hanswer. unfold on_message.
  rewrite Hhuman.
  unfold mbind at 1. unfold B_bind at 1. unfold bot_process_commands at 1.
  rewrite Hcommands.
  unfold mbind at 1. unfold B_bind at 1. unfold gets_B at 1. simpl.
  rewrite bool_decide_eq_false_2 by done.
  unfold mbind at 1. unfold B_bind at 1. unfold modify_B at 1.
  unfold try_finally_B, try_except_B.
  unfold mbind at 1. unfold B_bind at 1. unfold modify_B at 1.
  unfold mbind at 1. unfold B_bind at 1. unfold ask at 1. simpl.
  specialize (Hup (Typing (msg_channel message)) d1).
  destruct (discord (Typing (msg_channel message)) d1) as [r d2] eqn:Htyping.
  simpl in Hup. subst r.
  unfold typing in Hanswer. rewrite Htyping in Hanswer. simpl in Hanswer.
  rewrite <-(assoc_L (++)). simpl. by rewrite Hanswer.
Qed.

Lemma pieces_cover (c : string) :
  pieces c ≠ []
  ∧ Forall (λ text, 0 < String.length text ≤ 2000) (pieces c)
  ∧ (c ≠ "" → Str.concat (pieces c) = c)
  ∧ (c = "" → pieces c = [trouble_text]).
Proof.
  unfold pieces. destruct (bool_decide_reflect (c ≠ "")) as [Hne|Heq].
  - destruct (chunks_spec c 2000) as (Hcat & Hall & _); [lia|].
    split_and!; try done.
    intros Hnil. rewrite Hnil in Hcat. by destruct Hne.
  - split_and!; try done. repeat constructor; simpl; lia.
Qed.

(** The answer reaches the channel.  When Discord takes every call, a
    message of a user whose query is not in progress is answered: the
    handler runs the commands, shows the typing indicator, has the client
    process the content of the message once, and, when the last assistant
    text of the conversation holds no opening of a call, sends that text:
    whole, as one reply when it has 2000 characters at most, and otherwise
    in pieces of 2000 characters at most, the first as a reply and the
    others as messages to the channel, which in order give the text back.
    When the text is empty, the reply says that the request could not be
    processed.  The handler returns normally, nothing else is asked of
    Discord, and the query is no longer in progress. *)
Theorem answers_reach_the_channel (fuel : nat) (message : discord_message)
    (h : handler) (d1 : D) (t1 : T) (conv : list msg) (s1 : state) :
  discord_up →
  msg_author_is_self message || msg_author_bot message = false →
  process_commands message (discord_state h) (session (mcp_client h))
  = (Ok tt, (d1, t1)) →
  query_id message ∉ processing_queries h →
  query fuel (msg_content message) (set_session t1 (mcp_client h))
  = (Some (Ok conv), s1) →
  let c := get_latest_assistant_message (as_message <$> conv) in
  Text.contains "<function=" c = false →
  ∃ h',
    on_message fuel message h = (Some (Ok tt), h')
    ∧ mcp_client h' = s1
    ∧ processing_queries h' = processing_queries h
    ∧ active_channels h' = active_channels h ∪ {[msg_channel message]}
    ∧ asked h'
      = asked h
        ++ [ProcessCommands message; Typing (msg_channel message)]
        ++ chunk_calls message 0 (pieces c)
    ∧ pieces c ≠ []
    ∧ Forall (λ text, 0 < String.length text ≤ 2000) (pieces c)
    ∧ (c ≠ "" → Str.concat (pieces c) = c)
    ∧ (c = "" → pieces c = [trouble_text]).
Proof.
  intros Hup Hhuman Hcommands Hnew Hquery c Hplain.
  destruct (answer_plain fuel message (typing message d1 t1 h) conv s1 Hup
              Hquery Hplain) as (h2 & Hanswer & Hc & Ha & Hp & Hk).
  destruct (pieces_cover c) as (Hsome & Hsize & Hcat & Hempty).
  eexists. split; [by eapply on_message_answers|].
  simpl. rewrite Hp, Ha, Hk. simpl. split_and!; try done.
  - by apply discard_added.
  - by rewrite <-(assoc_L (++)).
Qed.

(** An opening of a call in the answer makes the handler ask again.  The
    loop of the client has run every call it could read before
    [process_query] returns, so the last assistant text of a conversation
    holds the opening of a call only when the parser could not read it as a
    call, or when it is part of the report of an error.  The handler then
    takes a call to be in progress: it replies with a notice, has the client
    process the same content a second time, from the start, and puts the
    last assistant text of that second conversation in place of the notice,
    in one edit, whatever its length. *)
Theorem an_unread_call_runs_the_query_again (fuel : nat)
    (message : discord_message) (h : handler) (d1 : D) (t1 : T)
    (conv conv2 : list msg) (s1 s2 : state) :
  discord_up →
  msg_author_is_self message || msg_author_bot message = false →
  process_commands message (discord_state h) (session (mcp_client h))
  = (Ok tt, (d1, t1)) →
  query_id message ∉ processing_queries h →
  query fuel (msg_content message) (set_session t1 (mcp_client h))
  = (Some (Ok conv), s1) →
  let c := get_latest_assistant_message (as_message <$> conv) in
  Text.contains "<function=" c = true →
  query fuel (msg_content message) s1 = (Some (Ok conv2), s2) →
  (Re.findall c = [] ∨ ∃ e, c = fallback_content e)
  ∧ ∃ h',
      on_message fuel message h = (Some (Ok tt), h')
      ∧ mcp_client h' = s2
      ∧ processing_queries h' = processing_queries h
      ∧ asked h'
        = asked h
          ++ [ProcessCommands message; Typing (msg_channel message);
              Reply message interim_text;
              Edit message
                (get_latest_assistant_message (as_message <$> conv2))].
Proof.
  intros Hup Hhuman Hcommands Hnew Hquery c Hcall Hquery2. split.
  - destruct (returned_shape chat_completions_create call_tool
                write_conversation json_loads json_dumps builtin_str fuel
                (msg_content message) (set_session t1 (mcp_client h)) conv)
      as (pre & c' & Hconv & _ & Hc'); [by rewrite Hquery|].
    assert (c = c') as ->; [|done].
    unfold c. rewrite Hconv, app_comm_cons, fmap_app, list_fmap_singleton.
    by rewrite latest_snoc, assistant_text_says.
  - destruct (answer_again fuel message (typing message d1 t1 h) conv conv2
                s1 s2 Hup Hquery Hcall Hquery2)
      as (h2 & Hanswer & Hc & Ha & Hp & Hk).
    eexists. split; [by eapply on_message_answers|].
    simpl. rewrite Hp, Hk. simpl. split_and!; try done.
    + by apply discard_added.
    + by rewrite <-(assoc_L (++)).
Qed.

End Discord.

(** *** The tools command *)
Section Commands.

Context {P T L D : Type}.
Variable list_tools : T → result (list mcp_tool) * T.
Variable discord : discord_call → D → result unit * D.

Local Abbreviation B := (@B P T L D).
Local Abbreviation ask := (ask discord).

(** [for chunk in chunks: await ctx.send(chunk)] *)
Fixpoint send_all (chunks : list string) : B unit :=
  match chunks with
  | [] => mret tt
  | chunk :: rest => ask (CtxSend chunk);; send_all rest
  end.

(** [CommandCog.tools_command] *)
Definition tools_command : B unit :=
  try_except_B
    (tools ← on_client (get_mcp_tools list_tools);
     let text := tools_text tools in
     if String.length text <=? 2000 then ask (CtxSend text)
     else send_all (Str.chunks text 2000))
    (λ e, ask (CtxSend tools_error_text)).

Lemma send_all_up (chunks : list string) (h : handler) :
  discord_up discord →
  ∃ h', send_all chunks h = (Some (Ok tt), h')
        ∧ asked_more (CtxSend <$> chunks) h h'.
Proof.
  intros Hup. revert h. induction chunks as [|chunk rest IH]; intros h.
  - exists h. split; [done|]. unfold asked_more. simpl.
    by rewrite (right_id_L [] (++)).
  - simpl. unfold mbind, B_bind.
    destruct (ask_up discord (CtxSend chunk) h Hup) as (h1 & -> & Hmore1).
    destruct (IH h1) as (h' & -> & Hmore2).
    exists h'. split; [done|].
    by apply (asked_more_trans [_] _ _ h1).
Qed.

Lemma tools_text_starts (tools : list mcp_tool) (heading : string) :
  heading ≠ "" →
  foldl (λ text tool,
           text +:+ "**" +:+ tool_name tool +:+ "**: "
           +:+ match tool_description tool with
               | Some d => d
               | None => "None"
               end
           +:+ newline +:+ newline) heading tools ≠ "".
Proof.
  revert heading. induction tools as [|t tools IH]; intros heading Hne; [done|].
  simpl. apply IH. by destruct heading.
Qed.

(** The tools command.  When the session lists its tools and Discord takes
    every call, the command sends the text of the tools, the heading and one
    paragraph for each tool in the order of the server (a missing
    description reads None), cut into pieces of 2000 characters: one
    message with the whole text when it has 2000 characters or fewer, and
    otherwise messages of 2000 characters at most which in order give the
    text back.  When listing fails, it sends the apology instead and
    returns normally. *)
Theorem tools_command_sends_the_list (h : handler) :
  discord_up discord →
  (∀ tools t,
     list_tools (session (mcp_client h)) = (Ok tools, t) →
     let texts := Str.chunks (tools_text tools) 2000 in
     ∃ h',
       tools_command h = (Some (Ok tt), h')
       ∧ asked h' = asked h ++ (CtxSend <$> texts)
       ∧ (String.length (tools_text tools) ≤ 2000 →
          texts = [tools_text tools])
       ∧ Str.concat texts = tools_text tools
       ∧ texts ≠ []
       ∧ Forall (λ text, 0 < String.length text ≤ 2000) texts
       ∧ session (mcp_client h') = t)
  ∧ (∀ e t,
       list_tools (session (mcp_client h)) = (Err e, t) →
       ∃ h',
         tools_command h = (Some (Ok tt), h')
         ∧ asked h' = asked h ++ [CtxSend tools_error_text])
  ∧ tools_text [] = "**Available Tools:**" +:+ newline +:+ newline
  ∧ (∀ tools tool,
       tools_text (tools ++ [tool])
       = tools_text tools +:+ "**" +:+ tool_name tool +:+ "**: "
         +:+ match tool_description tool with
             | Some d => d
             | None => "None"
             end
         +:+ newline +:+ newline).
Proof.
  intros Hup. split_and!.
  - intros tools t Hlist texts.
    assert (tools_text tools ≠ "") as Hne by by apply tools_text_starts.
    destruct (chunks_spec (tools_text tools) 2000) as (Hcat & Hall & _); [lia|].
    unfold tools_command, try_except_B.
    unfold mbind at 1. unfold B_bind at 1. unfold on_client at 1.
    unfold get_mcp_tools, try_except, session_list_tools, raise.
    rewrite Hlist.
    set (h1 := Handler _ _ _ _ _).
    destruct (send_all_up (Str.chunks (tools_text tools) 2000) h1 Hup)
      as (h' & Hsend & Hc & Ha & Hp & Hk).
    exists h'.
    split_and!; try done.
    + destruct (Nat.leb_spec (String.length (tools_text tools)) 2000)
        as [Hfits|_]; [|by rewrite Hsend].
      rewrite chunks_short in Hsend by done. simpl in Hsend.
      unfold mbind, B_bind in Hsend.
      destruct (ask _ h1) as [[[[]|e]|] h2]; by simplify_eq/=.
    + intros Hfits. unfold texts. by rewrite chunks_short.
    + intros Hnil. unfold texts in Hnil. rewrite Hnil in Hcat.
      by destruct Hne.
    + by rewrite Hc.
  - intros e t Hlist. unfold tools_command, try_except_B.
    unfold mbind at 1. unfold B_bind at 1. unfold on_client at 1.
    unfold get_mcp_tools, try_except, session_list_tools, raise.
    rewrite Hlist.
    set (h1 := Handler _ _ _ _ _).
    destruct (ask_up discord (CtxSend tools_error_text) h1 Hup)
      as (h' & Hask & _ & _ & _ & Hk).
    exists h'. by split.
  - done.
  - intros tools tool. unfold tools_text. by rewrite foldl_app.
Qed.

End Commands.

(** ** The message helpers of the conversation manager *)
Module Conversation.

(** [content or ""] *)
Definition or_empty (content : pyval) : pyval :=
  if truthy content then content else VStr "".

(** [ConversationManager.create_user_message] *)
Definition create_user_message (content : pyval) : message :=
  {[ "role" := VStr "user"; "content" := content ]}.

(** [ConversationManager.create_system_message] *)
Definition create_system_message (content : pyval) : message :=
  {[ "role" := VStr "system"; "content" := content ]}.

(** [ConversationManager.create_assistant_message] *)
Definition create_assistant_message (content tool_calls : pyval) : message :=
  let message : message :=
    {[ "role" := VStr "assistant"; "content" := or_empty content ]} in
  if truthy tool_calls then <["tool_calls" := tool_calls]> message
  else message.

(** [ConversationManager.create_tool_message] *)
Definition create_tool_message (tool_call_id content : pyval) : message :=
  {[ "role" := VStr "tool"; "tool_call_id" := tool_call_id;
     "content" := or_empty content ]}.

(** The dict [personas] of [get_default_system_message]. *)
Definition personas : gmap string string :=
  {[ "assistant" :=
       "You are a helpful assistant for the Vespucci.ai platform. "
       +:+ "You have access to MCP tools that can help you gather information "
       +:+ "and perform various tasks to assist users with their queries.";
     "general" := "You are a helpful assistant.";
     "researcher" :=
       "You are a research assistant with expertise in finding and analyzing information. "
       +:+ "You have access to search and research tools to help answer questions and gather data." ]}.

(** [ConversationManager.get_default_system_message] *)
Definition get_default_system_message (persona : string) : message :=
  let content :=
    match personas !! persona with
    | Some text => text
    | None => default "" (personas !! "general")
    end in
  create_system_message (VStr content).

End Conversation.

Lemma lookup_message (r c : pyval) (k : string) :
  ({[ "role" := r; "content" := c ]} : message) !! k =
  if decide (k = "role") then Some r
  else if decide (k = "content") then Some c else None.
Proof.
  destruct (decide (k = "role")) as [->|Hrole].
  { by rewrite lookup_insert_eq. }
  rewrite lookup_insert_ne by done.
  destruct (decide (k = "content")) as [->|Hcontent].
  { by rewrite lookup_singleton_eq. }
  by rewrite lookup_singleton_ne.
Qed.

Lemma assistant_text_created (content tool_calls : pyval) :
  assistant_text (Conversation.create_assistant_message content tool_calls)
  = match Conversation.or_empty content with
    | VStr c => Some c
    | _ => None
    end.
Proof.
  unfold assistant_text, Conversation.create_assistant_message.
  destruct (truthy tool_calls).
  - rewrite !lookup_insert_ne by done. rewrite !lookup_message. simpl.
    by destruct (Conversation.or_empty content).
  - rewrite !lookup_message. simpl.
    by destruct (Conversation.or_empty content).
Qed.

(** The messages of the conversation manager.  An assistant message made
    by [create_assistant_message] from a text is found again by
    [get_last_assistant_message] at the end of any conversation, with or
    without tool calls, and one made from [None] is found with the empty
    text; the [tool_calls] entry is there exactly when tool calls were given
    and are not empty.  User, system and tool messages are never taken for
    an answer: after any of them the last assistant text is what it was
    before.  A tool message always has a content.  The default system
    message has role system for every persona, and an unknown persona gets
    the text of the general one. *)
Theorem manager_messages_are_found_again :
  (∀ messages c tool_calls,
     get_last_assistant_message
       (messages ++ [Conversation.create_assistant_message (VStr c) tool_calls])
     = c)
  ∧ (∀ messages tool_calls,
       get_last_assistant_message
         (messages ++ [Conversation.create_assistant_message VNone tool_calls])
       = "")
  ∧ (∀ content tool_calls,
       Conversation.create_assistant_message content tool_calls !! "tool_calls"
       = if truthy tool_calls then Some tool_calls else None)
  ∧ (∀ messages content tool_call_id,
       get_last_assistant_message
         (messages ++ [Conversation.create_user_message content])
       = get_last_assistant_message messages
       ∧ get_last_assistant_message
           (messages ++ [Conversation.create_system_message content])
         = get_last_assistant_message messages
       ∧ get_last_assistant_message
           (messages ++ [Conversation.create_tool_message tool_call_id content])
         = get_last_assistant_message messages)
  ∧ (∀ tool_call_id,
       Conversation.create_tool_message tool_call_id VNone !! "content"
       = Some (VStr ""))
  ∧ (∀ persona,
       Conversation.get_default_system_message persona !! "role"
       = Some (VStr "system"))
  ∧ (∀ persona,
       persona ≠ "assistant" → persona ≠ "general" →
       persona ≠ "researcher" →
       Conversation.get_default_system_message persona
       = Conversation.get_default_system_message "general").
Proof.
  assert (∀ messages m,
            get_last_assistant_message (messages ++ [m])
            = match assistant_text m with
              | Some content => content
              | None => get_last_assistant_message messages
              end) as Hsnoc by apply latest_snoc.
  split_and!.
  - intros messages c tool_calls.
    rewrite Hsnoc, assistant_text_created.
    unfold Conversation.or_empty. simpl.
    by destruct (bool_decide_reflect (c = "")) as [->|].
  - intros messages tool_calls. by rewrite Hsnoc, assistant_text_created.
  - intros content tool_calls. unfold Conversation.create_assistant_message.
    destruct (truthy tool_calls).
    + by rewrite lookup_insert_eq.
    + by rewrite lookup_message.
  - intros messages content tool_call_id. rewrite !Hsnoc. split_and!.
    + unfold assistant_text, Conversation.create_user_message.
      by rewrite !lookup_message.
    + unfold assistant_text, Conversation.create_system_message.
      by rewrite !lookup_message.
    + unfold assistant_text, Conversation.create_tool_message.
      by rewrite lookup_insert_eq.
  - intros tool_call_id. unfold Conversation.create_tool_message.
    by rewrite !lookup_insert_ne, lookup_singleton_eq.
  - intros persona. unfold Conversation.get_default_system_message,
      Conversation.create_system_message.
    by rewrite lookup_message.
  - intros persona Ha Hg Hr. unfold Conversation.get_default_system_message.
    unfold Conversation.personas at 1.
    by rewrite !lookup_insert_ne, lookup_singleton_ne by done.
Qed.

(** ** What the log keeps of a message *)

(** The serialisation loop of [MCPClient.log_conversation], on messages
    whose values are of any kind.  A content that is a list is copied item
    by item; the loop asks each item for the methods [to_dict], [dict] and
    [model_dump], in this order, and calls the first one the item has.
    Instances of subclasses of [str] and [list] are outside the model. *)
Module ConversationLog.
Section Entries.

(** For each of the three methods: [None] for an item without an attribute
    of that name, and what the call gives for an item with one. *)
Variable to_dict dict model_dump : pyval → option (result pyval).

(** The built-in [str] on a value that is no [str]. *)
Variable builtin_str : pyval → result string.

(** What is appended to the content list for one item. *)
Definition serializable_item (item : pyval) : result pyval :=
  match to_dict item with
  | Some called => called
  | None =>
      match dict item with
      | Some called => called
      | None =>
          match model_dump item with
          | Some called => called
          | None => Ok item
          end
      end
  end.

Fixpoint serializable_items (items : list pyval) : result (list pyval) :=
  match items with
  | [] => Ok []
  | item :: items' =>
      v ← serializable_item item;
      vs ← serializable_items items';
      Ok (v :: vs)
  end.

(** The entry [content] of the serialisable message. *)
Definition serializable_content (message : gmap string pyval)
  : result pyval :=
  match message !! "content" with
  | Some (VStr s) => Ok (VStr s)
  | Some (VList items) =>
      items' ← serializable_items items;
      Ok (VList items')
  | Some content =>
      s ← builtin_str content;
      Ok (VStr s)
  | None => Ok (VStr "")
  end.

(** The body of the loop: the serialisable message for [message]. *)
Definition serializable_message (message : gmap string pyval)
  : result (gmap string pyval) :=
  match message !! "role" with
  | None => Err (Exn "KeyError" "'role'")
  | Some role =>
      content ← serializable_content message;
      let m : gmap string pyval := {[ "role" := role ]} in
      let m := <["content" := content]> m in
      let m := match message !! "tool_calls" with
               | Some v => <["tool_calls" := v]> m
               | None => m
               end in
      let m := match message !! "tool_call_id" with
               | Some v => <["tool_call_id" := v]> m
               | None => m
               end in
      Ok m
  end.

Fixpoint serializable_conversation (messages : list (gmap string pyval))
  : result (list (gmap string pyval)) :=
  match messages with
  | [] => Ok []
  | message :: messages' =>
      m ← serializable_message message;
      ms ← serializable_conversation messages';
      Ok (m :: ms)
  end.

End Entries.
End ConversationLog.

Section LogEntries.

Variable to_dict dict model_dump : pyval → option (result pyval).
Variable builtin_str : pyval → result string.

Local Abbreviation log_item :=
  (ConversationLog.serializable_item to_dict dict model_dump).
Local Abbreviation log_items :=
  (ConversationLog.serializable_items to_dict dict model_dump).
Local Abbreviation log_content :=
  (ConversationLog.serializable_content to_dict dict model_dump builtin_str).
Local Abbreviation log_message :=
  (ConversationLog.serializable_message to_dict dict model_dump builtin_str).
Local Abbreviation log_messages :=
  (ConversationLog.serializable_conversation to_dict dict model_dump
     builtin_str).

(** The keys of an entry of the log. *)
Definition kept (message : message) (content : pyval) (k : string)
  : option pyval :=
  if decide (k = "role") then message !! "role"
  else if decide (k = "content") then Some content
  else if decide (k = "tool_calls") then message !! "tool_calls"
  else if decide (k = "tool_call_id") then message !! "tool_call_id"
  else None.

Lemma log_message_lookup (message m : message) :
  log_message message = Ok m →
  ∃ content,
    log_content message = Ok content ∧ ∀ k, m !! k = kept message content k.
Proof.
  unfold ConversationLog.serializable_message, kept.
  destruct (message !! "role") as [role|] eqn:Hrole; [|done].
  destruct (log_content message) as [content|e]; [|done]. simpl.
  intros [= <-]. exists content. split; [done|]. intros k.
  destruct (message !! "tool_calls") as [calls|] eqn:Hcalls;
    destruct (message !! "tool_call_id") as [id|] eqn:Hid;
    repeat (case_decide; subst);
    rewrite ?lookup_insert_eq, ?lookup_insert_ne, ?lookup_singleton_eq,
      ?lookup_singleton_ne by done; done.
Qed.

Lemma log_items_spec (items items' : list pyval) :
  log_items items = Ok items' ↔
  Forall2 (λ item item', log_item item = Ok item') items items'.
Proof.
  revert items'. induction items as [|item items IH]; intros items'; simpl.
  - split; [intros [= <-]; constructor|by intros ->%Forall2_nil_inv_l].
  - destruct (log_item item) as [v|e] eqn:Hitem; simpl.
    + destruct (log_items items) as [vs|e] eqn:Hitems; simpl.
      * split.
        -- intros [= <-]. constructor; [done|by apply IH].
        -- intros (v' & vs' & Hv & Hvs & ->)%Forall2_cons_inv_l.
           apply IH in Hvs. congruence.
      * split; [done|].
        intros (v' & vs' & Hv & Hvs & ->)%Forall2_cons_inv_l.
        apply IH in Hvs. congruence.
    + split; [done|].
      intros (v' & vs' & Hv & Hvs & ->)%Forall2_cons_inv_l. congruence.
Qed.

Lemma log_items_raise (items : list pyval) (e : exn) :
  log_items items = Err e → ∃ item, item ∈ items ∧ log_item item = Err e.
Proof.
  induction items as [|item items IH]; [done|]. simpl.
  destruct (log_item item) as [v|e'] eqn:Hitem; simpl.
  - destruct (log_items items) as [vs|e'] eqn:Hitems; [done|]. simpl.
    intros [= ->]. destruct IH as (item' & Hin & Hraise); [done|].
    exists item'. split; [|done]. apply elem_of_cons. by right.
  - intros [= ->]. exists item. split; [|done]. apply elem_of_cons. by left.
Qed.

Lemma as_message_lookup (m : msg) (k : string) :
  as_message m !! k = VStr <$> (m !! k).
Proof. unfold as_message. by rewrite lookup_fmap. Qed.

Lemma log_message_plain (m : msg) :
  log_message (as_message m)
  = match serializable_message m with
    | Ok m' => Ok (as_message m')
    | Err e => Err e
    end.
Proof.
  unfold ConversationLog.serializable_message,
    ConversationLog.serializable_content, serializable_message.
  rewrite !as_message_lookup.
  destruct (m !! "role") as [role|]; [|done]. simpl.
  destruct (m !! "content") as [content|]; simpl;
    destruct (m !! "tool_calls") as [calls|];
    destruct (m !! "tool_call_id") as [id|]; simpl; f_equal;
    unfold as_message;
    by rewrite ?fmap_insert, ?map_fmap_singleton.
Qed.

(** What the log keeps of a message.  A message without a role makes the
    serialisation raise [KeyError] for that key.  Of a message with a role
    the log keeps the role and, when they are there, the [tool_calls] and
    [tool_call_id] entries, and drops every key but these and the content.
    The content is kept when it is a text; a missing content becomes the
    empty text; a content that is a list becomes the list, in order, of
    what the first of the methods [to_dict], [dict], [model_dump] of each
    item gives, and of the items themselves where an item has none of them;
    any other content becomes its [str], so the text None for [None].  With
    a role, the serialisation raises only what a method of an item or [str]
    of the content raises.  The conversation is kept message by message, in
    order; on the messages of the client, whose values are texts, the entry
    is the one [serializable_message] gives; and an entry of the log whose
    content is no list is kept as it is when it is logged again. *)
Theorem log_keeps_four_keys :
  (∀ message,
     message !! "role" = None →
     log_message message = Err (Exn "KeyError" "'role'"))
  ∧ (∀ message m,
       log_message message = Ok m →
       is_Some (message !! "role")
       ∧ m !! "role" = message !! "role"
       ∧ m !! "tool_calls" = message !! "tool_calls"
       ∧ m !! "tool_call_id" = message !! "tool_call_id"
       ∧ (∀ k, k ∉ ["role"; "content"; "tool_calls"; "tool_call_id"] →
               m !! k = None)
       ∧ match message !! "content" with
         | Some (VStr s) => m !! "content" = Some (VStr s)
         | Some (VList items) =>
             ∃ items',
               m !! "content" = Some (VList items')
               ∧ Forall2 (λ item item', log_item item = Ok item')
                   items items'
         | Some content =>
             ∃ s, builtin_str content = Ok s ∧ m !! "content" = Some (VStr s)
         | None => m !! "content" = Some (VStr "")
         end)
  ∧ (∀ message e,
       is_Some (message !! "role") →
       log_message message = Err e →
       (∃ items item,
          message !! "content" = Some (VList items)
          ∧ item ∈ items ∧ log_item item = Err e)
       ∨ (∃ content,
            message !! "content" = Some content
            ∧ builtin_str content = Err e))
  ∧ (∀ item,
       log_item item
       = match to_dict item, dict item, model_dump item with
         | Some called, _, _ => called
         | None, Some called, _ => called
         | None, None, Some called => called
         | None, None, None => Ok item
         end)
  ∧ (∀ messages out,
       log_messages messages = Ok out →
       Forall2 (λ message m, log_message message = Ok m) messages out)
  ∧ (∀ m : msg,
       log_message (as_message m)
       = match serializable_message m with
         | Ok m' => Ok (as_message m')
         | Err e => Err e
         end)
  ∧ (∀ message m,
       log_message message = Ok m →
       (∀ items, message !! "content" ≠ Some (VList items)) →
       log_message m = Ok m).
Proof.
  assert (∀ message m,
            log_message message = Ok m → is_Some (message !! "role"))
    as Hrole.
  { intros message m. unfold ConversationLog.serializable_message.
    by destruct (message !! "role"). }
  assert (∀ message m content,
            log_message message = Ok m → log_content message = Ok content →
            match message !! "content" with
            | Some (VStr s) => content = VStr s
            | Some (VList items) =>
                ∃ items',
                  content = VList items'
                  ∧ Forall2 (λ item item', log_item item = Ok item')
                      items items'
            | Some v => ∃ s, builtin_str v = Ok s ∧ content = VStr s
            | None => content = VStr ""
            end) as Hcontent.
  { intros message m content _. unfold ConversationLog.serializable_content.
    destruct (message !! "content") as [[| | | |items| |]|];
      try (destruct (builtin_str _) as [s|e]; simpl; [|done];
           intros [= <-]; by exists s);
      try by intros [= <-].
    destruct (log_items items) as [items'|e] eqn:Hitems; [|done]. simpl.
    intros [= <-]. exists items'. split; [done|]. by apply log_items_spec. }
  split_and!.
  - intros message Hnone. unfold ConversationLog.serializable_message.
    by rewrite Hnone.
  - intros message m Hm.
    destruct (log_message_lookup _ _ Hm) as (content & Hc & Hk).
    split_and!; try by rewrite Hk.
    + by eapply Hrole.
    + intros k Hnot. rewrite Hk. unfold kept.
      repeat case_decide; subst; try done; destruct Hnot;
        repeat (apply elem_of_cons; first [by left|right]).
    + pose proof (Hcontent _ _ _ Hm Hc) as Hcase. rewrite Hk. unfold kept.
      simpl.
      destruct (message !! "content") as [[| | | |items| |]|];
        try (destruct Hcase as (s & Hs & ->); by exists s);
        try by rewrite Hcase.
      destruct Hcase as (items' & -> & Hitems). by exists items'.
  - intros message e [role Hr]. unfold ConversationLog.serializable_message.
    rewrite Hr. unfold ConversationLog.serializable_content.
    destruct (message !! "content") as [[| | | |items| |]|] eqn:Hc;
      try done;
      try (destruct (builtin_str _) as [s|e'] eqn:Hs; simpl; [done|];
           intros [= ->]; right; eexists; by split).
    destruct (log_items items) as [items'|e'] eqn:Hitems; [done|]. simpl.
    intros [= ->]. left.
    destruct (log_items_raise _ _ Hitems) as (item & Hin & Hraise).
    by exists items, item.
  - intros item. unfold ConversationLog.serializable_item.
    by destruct (to_dict item), (dict item), (model_dump item).
  - induction messages as [|message messages IH]; intros out; simpl.
    + intros [= <-]. constructor.
    + destruct (log_message message) as [m|e] eqn:Hm; [|done].
      simpl. destruct (log_messages messages) as [ms|e]; [|done].
      simpl. intros [= <-]. constructor; [done|by apply IH].
  - apply log_message_plain.
  - intros message m Hm Hnolist.
    destruct (log_message_lookup _ _ Hm) as (content & Hc & Hk).
    destruct (Hrole _ _ Hm) as [role Hr].
    pose proof (Hcontent _ _ _ Hm Hc) as Hcase.
    assert (∃ s, content = VStr s) as [s ->].
    { destruct (message !! "content") as [[| | | |items| |]|];
        try (destruct Hcase as (s & _ & ->); by exists s);
        try by eexists.
      by destruct (Hnolist items). }
    unfold ConversationLog.serializable_message,
      ConversationLog.serializable_content.
    rewrite !Hk. unfold kept. simpl. rewrite Hr. simpl. f_equal.
    apply map_eq. intros k. rewrite Hk. unfold kept.
    destruct (message !! "tool_calls") as [calls|] eqn:Hcalls;
      destruct (message !! "tool_call_id") as [id|] eqn:Hid;
      repeat (case_decide; subst);
      rewrite ?lookup_insert_eq, ?lookup_insert_ne, ?lookup_singleton_eq,
        ?lookup_singleton_ne by done; done.
Qed.

End LogEntries.

(** ** The calls that reach the tool session *)
Section Calls.

Context {P T L : Type}.
Variable call_tool : string → pyval → T → result pyval * T.
Variable write_conversation : list msg → L → result unit * L.
Variable json_loads : string → result pyval.
Variable json_dumps : pyval → result string.
Variable builtin_str : pyval → result string.

Local Abbreviation state := (@state P T L).
Local Abbreviation call :=
  (process_call call_tool write_conversation json_loads json_dumps
     builtin_str).
Local Abbreviation log := (log_conversation write_conversation).

(** The events of a trace that are calls of tools. *)
Definition tool_calls_of (tr : list event) : list (string * pyval) :=
  omap (λ ev, match ev with
              | CallTool tool_name tool_args => Some (tool_name, tool_args)
              | _ => None
              end) tr.

(** A part of a run in which the tool session is not asked. *)
Definition off_session (s s' : state) : Prop :=
  session s' = session s
  ∧ ∃ evs, trace s' = trace s ++ evs ∧ tool_calls_of evs = [].

Lemma off_session_refl (s : state) : off_session s s.
Proof. split; [done|]. exists []. by rewrite (right_id_L [] (++)). Qed.

Lemma off_session_trans (s1 s2 s3 : state) :
  off_session s1 s2 → off_session s2 s3 → off_session s1 s3.
Proof.
  intros (Hs1 & evs1 & Htr1 & Hc1) (Hs2 & evs2 & Htr2 & Hc2).
  split; [congruence|]. exists (evs1 ++ evs2). split.
  - by rewrite Htr2, Htr1, (assoc_L (++)).
  - unfold tool_calls_of in *. by rewrite omap_app, Hc1, Hc2.
Qed.

Lemma off_session_pushed (m : msg) (s : state) : off_session s (pushed m s).
Proof.
  split; [done|]. exists []. simpl. by rewrite (right_id_L [] (++)).
Qed.

Lemma off_session_log (s : state) : off_session s (log s).2.
Proof.
  unfold log_conversation.
  unfold mbind, M_bind, gets, record, modify, lift, dump_conversation. simpl.
  destruct (serializable_conversation _) as [serializable|e]; simpl.
  - destruct (write_conversation _ _) as [r l]. simpl.
    split; [done|]. by exists [Log (conversation s)].
  - split; [done|]. by exists [Log (conversation s)].
Qed.

Lemma off_session_notice (m : msg) (s : state) :
  off_session s (log (pushed m s)).2.
Proof.
  eapply off_session_trans; [apply off_session_pushed|apply off_session_log].
Qed.

(** Calls go to the session unchecked.  When the argument text of a call
    decodes, the tool session is asked to call the tool of that name with
    the decoded arguments, once, whether or not the client has a tool of that
    name: the name is not compared with the tools of the client.  When the
    argument text does not decode, the session is not asked and is left as it
    was.  Either way the call leaves the client with the same tools and the
    same state of the completion service. *)
Theorem calls_go_to_the_session_unchecked (tool_name tool_args_str : string)
    (s : state) :
  (∀ tool_args,
     json_loads (wrap_args tool_args_str) = Ok tool_args →
     session (call (tool_name, tool_args_str) s).2
     = (call_tool tool_name tool_args (session s)).2
     ∧ ∃ evs,
         trace (call (tool_name, tool_args_str) s).2 = trace s ++ evs
         ∧ tool_calls_of evs = [(tool_name, tool_args)])
  ∧ (∀ e,
       json_loads (wrap_args tool_args_str) = Err e →
       session (call (tool_name, tool_args_str) s).2 = session s
       ∧ ∃ evs,
           trace (call (tool_name, tool_args_str) s).2 = trace s ++ evs
           ∧ tool_calls_of evs = [])
  ∧ self_tools (call (tool_name, tool_args_str) s).2 = self_tools s
  ∧ llm (call (tool_name, tool_args_str) s).2 = llm s.
Proof.
  assert (∀ s1 s2 : state, off_session s1 s2 →
            ∀ tool_args,
              s1 = called call_tool tool_name tool_args s →
              session s2 = (call_tool tool_name tool_args (session s)).2
              ∧ ∃ evs, trace s2 = trace s ++ evs
                       ∧ tool_calls_of evs = [(tool_name, tool_args)])
    as Hcalled.
  { intros s1 s2 (Hsession & evs & Htrace & Hnone) tool_args ->.
    split; [by rewrite Hsession|].
    exists (CallTool tool_name tool_args :: evs). split.
    - rewrite Htrace. unfold called. simpl. by rewrite <-(assoc_L (++)).
    - simpl. by rewrite Hnone. }
  assert (∀ m (s1 : state),
            self_tools (log (pushed m s1)).2 = self_tools s1
            ∧ llm (log (pushed m s1)).2 = llm s1) as Hsame.
  { intros m s1. unfold log_conversation.
    unfold mbind, M_bind, gets, record, modify, lift, dump_conversation.
    simpl. destruct (serializable_conversation _) as [serializable|e]; simpl;
      [|done].
    by destruct (write_conversation _ _) as [r l]. }
  rewrite process_call_run.
  destruct (json_loads (wrap_args tool_args_str)) as [tool_args|e].
  - split_and!; [|done|..].
    + intros ? [= <-].
      destruct (_ ← (call_tool tool_name tool_args (session s)).1; _)
        as [text|e].
      * destruct (log (pushed (user_says (tool_result_content tool_name text))
                         (called call_tool tool_name tool_args s)))
          as [[[[]|e]|] s1] eqn:Hlog;
          pose proof (off_session_notice
                        (user_says (tool_result_content tool_name text))
                        (called call_tool tool_name tool_args s)) as Hoff;
          rewrite Hlog in Hoff; simpl in Hoff.
        -- by eapply Hcalled.
        -- eapply Hcalled; [|done].
           eapply off_session_trans; [done|apply off_session_notice].
        -- by eapply Hcalled.
      * eapply Hcalled; [apply off_session_notice|done].
    + destruct (_ ← (call_tool tool_name tool_args (session s)).1; _)
        as [text|e]; [|by rewrite (proj1 (Hsame _ _))].
      destruct (log (pushed (user_says (tool_result_content tool_name text))
                       (called call_tool tool_name tool_args s)))
        as [[[[]|e]|] s1] eqn:Hlog;
        pose proof (proj1 (Hsame
                      (user_says (tool_result_content tool_name text))
                      (called call_tool tool_name tool_args s))) as Htools;
        rewrite Hlog in Htools; simpl in Htools; try done.
      by rewrite (proj1 (Hsame _ _)).
    + destruct (_ ← (call_tool tool_name tool_args (session s)).1; _)
        as [text|e]; [|by rewrite (proj2 (Hsame _ _))].
      destruct (log (pushed (user_says (tool_result_content tool_name text))
                       (called call_tool tool_name tool_args s)))
        as [[[[]|e]|] s1] eqn:Hlog;
        pose proof (proj2 (Hsame
                      (user_says (tool_result_content tool_name text))
                      (called call_tool tool_name tool_args s))) as Hllm;
        rewrite Hlog in Hllm; simpl in Hllm; try done.
      by rewrite (proj2 (Hsame _ _)).
  - split_and!; [done| |apply Hsame..].
    intros ? [= <-]. apply off_session_notice.
Qed.

End Calls.

(** ** When the formatter raises *)
Section Formatter.

Variable json_dumps : pyval → result string.
Variable builtin_str : pyval → result string.

Local Abbreviation format := (format_tool_result json_dumps builtin_str).

Lemma join_from_raises (i : nat) (sep : string) (items : list pyval)
    (e : exn) :
  join_from i sep items = Err e →
  ∃ k v,
    items !! k = Some v ∧ (∀ text, v ≠ VStr text)
    ∧ (∀ j, j < k → ∃ text, items !! j = Some (VStr text))
    ∧ e = Exn "TypeError"
            ("sequence item " +:+ pretty (i + k)
             +:+ ": expected str instance, " +:+ type_name v +:+ " found").
Proof.
  revert i. induction items as [|v items IH]; intros i; [done|].
  assert ((∀ text, v ≠ VStr text) →
          join_from i sep (v :: items)
          = Err (Exn "TypeError"
                   ("sequence item " +:+ pretty i
                    +:+ ": expected str instance, " +:+ type_name v
                    +:+ " found"))) as Hhere.
  { intros Hv. destruct v; try done. by destruct (Hv s). }
  assert ((∀ text, v ≠ VStr text) →
          join_from i sep (v :: items) = Err e →
          ∃ k v0,
            (v :: items) !! k = Some v0 ∧ (∀ text, v0 ≠ VStr text)
            ∧ (∀ j, j < k → ∃ text, (v :: items) !! j = Some (VStr text))
            ∧ e = Exn "TypeError"
                    ("sequence item " +:+ pretty (i + k)
                     +:+ ": expected str instance, " +:+ type_name v0
                     +:+ " found")) as Hfirst.
  { intros Hv. rewrite Hhere by done. intros [= <-]. exists 0, v.
    rewrite Nat.add_0_r. split_and!; [done|done| |done]. intros j Hj. lia. }
  destruct v as [| | |s| | |]; try (by apply Hfirst).
  simpl. destruct (join_from (S i) sep items) as [rest|e'] eqn:Hrest; simpl;
    [done|].
  intros [= <-]. destruct (IH _ Hrest) as (k & v & Hk & Hv & Hbefore & ->).
  exists (S k), v. split_and!; try done.
  - intros [|j] Hj; [by eexists|]. apply Hbefore. lia.
  - by replace (i + S k) with (S i + k) by lia.
Qed.

Lemma str_or_is_str (placeholder : string) (v : pyval) :
  ∃ text, str_or builtin_str placeholder v = VStr text.
Proof.
  destruct v; simpl; try (destruct (builtin_str _)); by eexists.
Qed.

(** When the formatter raises.  [_format_tool_result] raises on no
    content but a list, and on a list only when an item contributes
    something that is no text, which is the [text] attribute or entry of the
    item: the exception is then the [TypeError] of [join] for the first such
    item.  What it returns is a text, except for a dict with a [text] entry
    that is no text, which is returned as it is. *)
Theorem formatter_raises_only_on_lists :
  (∀ content e,
     format content = Err e →
     ∃ items i v,
       content = VList items
       ∧ (item_text builtin_str <$> items) !! i = Some v
       ∧ (∀ text, v ≠ VStr text)
       ∧ (∀ j, j < i →
               ∃ text,
                 (item_text builtin_str <$> items) !! j = Some (VStr text))
       ∧ e = Exn "TypeError"
               ("sequence item " +:+ pretty i
                +:+ ": expected str instance, " +:+ type_name v +:+ " found"))
  ∧ (∀ item v,
       item_text builtin_str item = v → (∀ text, v ≠ VStr text) →
       (∃ cls, item = VObj cls (Some v))
       ∨ (∃ d, item = VDict d ∧ dict_get "text" d = Some v))
  ∧ (∀ content v,
       format content = Ok v →
       (∃ text, v = VStr text)
       ∨ (∃ d, content = VDict d ∧ dict_get "text" d = Some v)).
Proof.
  split_and!.
  - intros content e. destruct content as [| | |s|items|d|cls text]; simpl;
      try done.
    + destruct (Py.join _ _) as [s|e'] eqn:Hjoin; [done|].
      intros [= <-]. unfold Py.join in Hjoin.
      destruct (join_from_raises _ _ _ _ Hjoin)
        as (k & v & Hk & Hv & Hbefore & ->).
      by exists items, k, v.
    + destruct (dict_get "text" d); [done|]. by destruct (json_dumps _).
  - intros item v <- Hv.
    assert (∀ w, item_text builtin_str item
                 = str_or builtin_str "[Unprintable item]" w →
                 False) as Hno.
    { intros w Heq.
      destruct (str_or_is_str "[Unprintable item]" w) as [text Htext].
      apply (Hv text). by rewrite Heq. }
    destruct item as [| | |s|items|d|cls [text|]];
      try (by destruct (Hno _ eq_refl)).
    + unfold item_text in *.
      destruct (dict_get "text" d) as [text|] eqn:Hd; [right; eauto|].
      by destruct (Hno _ eq_refl).
    + left. eauto.
  - intros content v. destruct content as [| | |s|items|d|cls text]; simpl.
    + intros [= <-]. left. by eexists.
    + destruct (builtin_str (VBool b)); intros [= <-]; left; by eexists.
    + destruct (builtin_str (VInt z)); intros [= <-]; left; by eexists.
    + intros [= <-]. left. by eexists.
    + destruct (Py.join _ _); [|done]. intros [= <-]. left. by eexists.
    + destruct (dict_get "text" d) as [text|] eqn:Hd.
      * intros [= <-]. right. eauto.
      * destruct (json_dumps (VDict d)); [intros [= <-]; left; by eexists|].
        destruct (builtin_str (VDict d)); intros [= <-]; left; by eexists.
    + destruct (builtin_str (VObj cls text)); intros [= <-]; left; by eexists.
Qed.

End Formatter.

(** ** The further properties on examples *)

(** A text of seven characters in pieces of three. *)
Lemma chunks_cover_the_text_witness :
  Str.chunks "abcdefg" 3 = ["abc"; "def"; "g"]
  ∧ Str.concat (Str.chunks "abcdefg" 3) = "abcdefg".
Proof.
  split; [reflexivity|].
  apply (chunks_cover_the_text "abcdefg" 3). lia.
Defined.

(** An argument text with a brace after a blank, and one without braces. *)
Lemma wrapped_arguments_open_with_a_brace_witness :
  wrap_args " {}" = " {}"
  ∧ wrap_args (quoted "id" +:+ ":1") = "{" +:+ quoted "id" +:+ ":1}".
Proof.
  split.
  - destruct (wrapped_arguments_open_with_a_brace " {}") as (_ & Hkeep & _).
    apply Hkeep. by exists " ", "}".
  - destruct (wrapped_arguments_open_with_a_brace (quoted "id" +:+ ":1"))
      as (_ & _ & Hwrap & _).
    apply Hwrap. intros (space & rest & Hspace & Heq).
    destruct space as [|c space]; [discriminate Heq|].
    injection Heq as <- _. discriminate Hspace.
Defined.

(** A conversation whose last message is a tool notice. *)
Definition asked_and_answered : list message :=
  as_message
  <$> [user_says "Hi"; assistant_says "Hello."; user_says "Tool 't' returned: 1"].

Lemma latest_assistant_message_found_witness :
  get_latest_assistant_message asked_and_answered = "Hello.".
Proof.
  destruct latest_assistant_message_found as (Hfound & _).
  apply (Hfound [as_message (user_says "Hi")]
           [as_message (user_says "Tool 't' returned: 1")]
           (as_message (assistant_says "Hello.")) "Hello.").
  - reflexivity.
  - repeat constructor.
Defined.

(** The canonical exchange ends with the answer of the second round. *)
Lemma query_ends_with_an_answer_witness :
  2 ≤ length (canonical_conversation "What is x?")
  ∧ ∃ pre c,
      canonical_conversation "What is x?"
      = user_says "What is x?" :: pre ++ [assistant_says c]
      ∧ Forall written pre
      ∧ (Re.findall c = [] ∨ ∃ e, c = fallback_content e).
Proof.
  apply (query_ends_with_an_answer Fixture.scripted Fixture.search_session
           Fixture.writable Fixture.json_loads Fixture.json_dumps
           Fixture.builtin_str 2 "What is x?" (Fixture.client chain_script)).
  vm_compute. reflexivity.
Defined.

Lemma latest_message_of_a_query_witness :
  ∃ c, last (canonical_conversation "What is x?") = Some (assistant_says c)
       ∧ get_latest_assistant_message
           (as_message <$> canonical_conversation "What is x?") = c
       ∧ (Re.findall c = [] ∨ ∃ e, c = fallback_content e).
Proof.
  apply (latest_message_of_a_query Fixture.scripted Fixture.search_session
           Fixture.writable Fixture.json_loads Fixture.json_dumps
           Fixture.builtin_str 2 "What is x?" (Fixture.client chain_script)).
  vm_compute. reflexivity.
Defined.

(** A client that has answered a query before, and one that has not. *)
Definition used_client : state :=
  (Fixture.run Fixture.writable 1 "Hi" hello).2.

Lemma queries_are_independent_witness :
  let query :=
    process_query Fixture.scripted Fixture.search_session Fixture.writable
      Fixture.json_loads Fixture.json_dumps Fixture.builtin_str 2 "What is x?"
  in
  (query (set_llm chain_script used_client)).1
  = (query (Fixture.client chain_script)).1.
Proof.
  apply (queries_are_independent Fixture.scripted Fixture.search_session
           Fixture.writable Fixture.json_loads Fixture.json_dumps
           Fixture.builtin_str 2 "What is x?" (Fixture.client chain_script)
           (set_llm chain_script used_client)); reflexivity.
Defined.

(** A caller that keeps a system message of its own in the list. *)
Definition own_system : msg :=
  {[ "role" := "system"; "content" := "Be brief." ]}.
Definition with_own_system : @state (list (option string)) unit unit :=
  State [own_system; user_says "Hi"; assistant_says "Hello.";
         user_says "Please find it"]
    [0; 1; 2; 3] [Tool "search" "Search the web" VNone] hello tt tt [].

Lemma reminder_is_written_into_the_callers_message_witness :
  let s1 :=
    (generate_completion Fixture.scripted [0; 1; 2; 3]
       (self_tools with_own_system) with_own_system).2 in
  let s2 :=
    (generate_completion Fixture.scripted [0; 1; 2; 3]
       (self_tools with_own_system) s1).2 in
  deref (heap s1) 0
  = <["content" := "Be brief." +:+ tool_reminder]> own_system
  ∧ (∀ l', l' ≠ 0 → deref (heap s1) l' = deref (heap with_own_system) l')
  ∧ length (heap s1) = 4
  ∧ trace s1
    = [Generate (conversation with_own_system)
         (deref (heap s1) <$> [0; 1; 2; 3])]
  ∧ deref (heap s2) 0 !! "content"
    = Some ("Be brief." +:+ tool_reminder +:+ tool_reminder).
Proof.
  apply (reminder_is_written_into_the_callers_message Fixture.scripted
           [] [1; 2; 3] 0 (self_tools with_own_system) with_own_system
           "Be brief."); [constructor|reflexivity..].
Defined.

(** The same caller with a system message that has no content. *)
Definition without_content : @state (list (option string)) unit unit :=
  State [{[ "role" := "system" ]}; user_says "Hi"; assistant_says "Hello.";
         user_says "Please find it"]
    [0; 1; 2; 3] [Tool "search" "Search the web" VNone] hello tt tt [].

Lemma reminder_needs_a_content_witness :
  generate_completion Fixture.scripted [0; 1; 2; 3]
    (self_tools without_content) without_content
  = (Some (Err (Exn "KeyError" "'content'")), without_content).
Proof.
  apply (reminder_needs_a_content Fixture.scripted [] [1; 2; 3] 0);
    [constructor|reflexivity..].
Defined.

(** A conversation of the loop, which holds no system message. *)
Lemma request_leaves_the_messages_alone_witness :
  let s1 :=
    (generate_completion Fixture.scripted (self_messages used_client)
       (self_tools used_client) (set_llm hello used_client)).2 in
  trace s1
  = trace used_client
    ++ [Generate [user_says "Hi"; assistant_says "Hello."]
          [create_system_message ["search"]; user_says "Hi";
           assistant_says "Hello."]]
  ∧ deref (heap s1) <$> self_messages used_client
    = [user_says "Hi"; assistant_says "Hello."].
Proof.
  destruct (request_leaves_the_messages_alone Fixture.scripted
              (self_messages used_client) (self_tools used_client)
              (set_llm hello used_client))
    as (_ & Htrace & _ & _ & Hconv & _).
  - vm_compute. repeat constructor.
  - reflexivity.
  - split; [exact Htrace|exact Hconv].
Defined.

(** The system message for two tools names both. *)
Lemma system_message_names_every_tool_witness :
  ∃ content,
    create_system_message ["search"; "fetch-page"] !! "content" = Some content
    ∧ Text.contains "`fetch-page`" content = true
    ∧ Text.contains "<function=tool_name{" content = true.
Proof.
  destruct system_message_names_every_tool as (_ & _ & _ & Hnames).
  apply (Hnames ["search"; "fetch-page"] "fetch-page").
  apply elem_of_cons. right. apply elem_of_cons. left. reflexivity.
Defined.

(** The reminder after a result of [search], and none for a short
    request. *)
Lemma reminder_follows_the_last_user_message_witness :
  wants_tools
    ([create_system_message ["search"]; user_says "Hi"]
     ++ [user_says (tool_result_content "search" "nothing")])
    [Tool "search" "Search the web" VNone] = true
  ∧ wants_tools [create_system_message ["search"]; user_says "Search it"]
      [Tool "search" "Search the web" VNone] = false.
Proof.
  destruct reminder_follows_the_last_user_message
    as (Hshort & _ & _ & _ & Hsearch).
  split.
  - apply Hsearch; [simpl; lia|discriminate].
  - apply Hshort. simpl. lia.
Defined.

(** A server script in Python, one in JavaScript and a shell script. *)
Lemma server_is_started_by_extension_witness :
  server_parameters default_settings (Some ("server" +:+ ".py"))
  = Ok ("python", [VStr "server.py"])
  ∧ server_parameters default_settings (Some ("tool" +:+ ".js"))
    = Ok ("node", [VStr "tool.js"])
  ∧ server_parameters default_settings (Some "run.sh")
    = Err (Exn "ValueError" "Server script must be a .py or .js file")
  ∧ server_parameters default_settings None
    = Ok (mcp_command default_settings, mcp_args default_settings).
Proof.
  destruct (server_is_started_by_extension default_settings)
    as (_ & _ & Hsettings & Hpy & Hjs & Hother & _).
  split_and!.
  - apply (Hpy "server").
  - apply (Hjs "tool").
  - apply (Hother "run.sh"); [discriminate|reflexivity..].
  - apply (Hsettings ["-y"; "web3-research-mcp@latest"]). reflexivity.
Defined.

(** A tool server that starts, and lists two tools; one that does not
    start; one whose second tool has a schema that cannot be serialised. *)
Definition listed : list mcp_tool :=
  [McpTool "search" (Some "Search the web")
     (VDict [("type", VStr "object")]);
   McpTool "fetch-page" None VNone].
Definition starts (command : string) (args : list pyval) (t : unit)
  : result unit * unit := (Ok tt, tt).
Definition lists (t : unit) : result (list mcp_tool) * unit :=
  (Ok listed, tt).
Definition no_node : exn :=
  Exn "FileNotFoundError" "[Errno 2] No such file or directory: 'npx'".
Definition start_fails (command : string) (args : list pyval) (t : unit)
  : result unit * unit := (Err no_node, tt).
Definition lists_odd (t : unit) : result (list mcp_tool) * unit :=
  (Ok [McpTool "search" None (VDict [("x", VObj "Schema" None)])], tt).

Lemma connection_returns_a_truth_value_witness :
  connect_to_server starts lists Fixture.json_dumps default_settings None
    (Fixture.client hello)
  = (Some (Ok true),
     set_tools [Tool "search" "Search the web"
                  (VDict [("type", VStr "object")]);
                Tool "fetch-page" "Tool for fetch page" VNone]
       (Fixture.client hello))
  ∧ connect_to_server starts lists Fixture.json_dumps default_settings
      (Some "run.sh") (Fixture.client hello)
    = (Some (Ok false), Fixture.client hello)
  ∧ connect_to_server start_fails lists Fixture.json_dumps default_settings
      None (Fixture.client hello)
    = (Some (Ok false), Fixture.client hello)
  ∧ connect_to_server starts lists_odd Fixture.json_dumps default_settings
      None (Fixture.client hello)
    = (Some (Ok false),
       set_tools [Tool "search" "Tool for search"
                    (VDict [("x", VObj "Schema" None)])]
         (Fixture.client hello)).
Proof.
  split_and!.
  - destruct (connection_returns_a_truth_value (P:=list (option string))
                (L:=unit) starts lists Fixture.json_dumps default_settings)
      as (_ & _ & _ & _ & Hok & _).
    apply (Hok None (Fixture.client hello) "npx"
             [VStr "-y"; VStr "web3-research-mcp@latest"] tt listed tt);
      try reflexivity.
    repeat constructor; [by eexists|discriminate].
  - destruct (connection_returns_a_truth_value (P:=list (option string))
                (L:=unit) starts lists Fixture.json_dumps default_settings)
      as (_ & Hbad & _).
    apply Hbad; [discriminate|reflexivity..].
  - destruct (connection_returns_a_truth_value (P:=list (option string))
                (L:=unit) start_fails lists Fixture.json_dumps
                default_settings)
      as (_ & _ & Hclosed & _).
    apply (Hclosed None (Fixture.client hello) "npx"
             [VStr "-y"; VStr "web3-research-mcp@latest"] no_node tt);
      reflexivity.
  - destruct (connection_returns_a_truth_value (P:=list (option string))
                (L:=unit) starts lists_odd Fixture.json_dumps
                default_settings)
      as (_ & _ & _ & _ & _ & Hodd).
    apply (Hodd None (Fixture.client hello) "npx"
             [VStr "-y"; VStr "web3-research-mcp@latest"] tt
             [McpTool "search" None (VDict [("x", VObj "Schema" None)])] tt
             (McpTool "search" None (VDict [("x", VObj "Schema" None)]))
             (Exn "TypeError"
                "Object of type Schema is not JSON serializable"));
      try reflexivity.
    apply elem_of_cons. by left.
Defined.

Lemma tool_entries_are_described_witness :
  description (tool_entry (McpTool "fetch-page" None VNone))
  = "Tool for fetch page"
  ∧ description (tool_entry (McpTool "search" (Some "Search the web") VNone))
    = "Search the web".
Proof.
  destruct (tool_entries_are_described listed)
    as (_ & _ & _ & Hgiven & Hnone & _).
  split.
  - apply (Hnone (McpTool "fetch-page" None VNone)). by left.
  - apply Hgiven; [reflexivity|discriminate].
Defined.

(** The query route on a service that cannot be reached: status 200 and
    the apology. *)
Lemma query_route_never_fails_witness :
  (query_route Fixture.unreachable Fixture.search_session Fixture.writable
     Fixture.json_loads Fixture.json_dumps Fixture.builtin_str 1
     "Anyone there?" (Fixture.client tt)).1
  = Some (Returns
            {| response_messages :=
                 [user_says "Anyone there?";
                  assistant_says
                    (fallback_content Fixture.unreachable_error)] |}).
Proof.
  destruct (query_route_never_fails Fixture.unreachable
              Fixture.search_session Fixture.writable Fixture.json_loads
              Fixture.json_dumps Fixture.builtin_str 0 "Anyone there?"
              (Fixture.client tt)) as (_ & _ & Hfails & _).
  apply (Hfails Fixture.unreachable_error tt). reflexivity.
Defined.

(** The tools route on a session that lists two tools, and on one that is
    closed. *)
Definition closed : exn := Exn "McpError" "Connection closed".
Definition lists_nothing (t : unit) : result (list mcp_tool) * unit :=
  (Err closed, tt).

Lemma tools_route_lists_or_fails_witness :
  (tools_route lists (Fixture.client hello)).1
  = Some (Returns {| response_tools := tool_json <$> listed |})
  ∧ (tools_route lists_nothing (Fixture.client hello)).1
    = Some (HTTPException 500 "Connection closed").
Proof.
  split.
  - destruct (tools_route_lists_or_fails lists (Fixture.client hello))
      as (Hlists & _).
    destruct (Hlists listed tt eq_refl) as (-> & _). reflexivity.
  - destruct (tools_route_lists_or_fails lists_nothing (Fixture.client hello))
      as (_ & Hfails & _).
    rewrite (Hfails closed tt eq_refl). reflexivity.
Defined.

(** Discord, and a bot without commands. *)
Definition delivers (call : discord_call) (d : unit) : result unit * unit :=
  (Ok tt, tt).
Definition no_commands (message : discord_message) (d : unit) (t : unit)
  : result unit * (unit * unit) := (Ok tt, (tt, tt)).

Definition greeting : discord_message := DiscordMessage false false 7 42 "Hi".
Definition echo : discord_message := DiscordMessage true true 7 43 "Hello.".

Definition idle {P} (p : P) : @handler P unit unit unit :=
  Handler (Fixture.client p) ∅ ∅ tt [].

Definition handle (fuel : nat) (message : discord_message)
    (h : @handler (list (option string)) unit unit unit) :=
  on_message Fixture.scripted Fixture.search_session Fixture.writable
    Fixture.json_loads Fixture.json_dumps Fixture.builtin_str delivers
    no_commands fuel message h.

Lemma handler_keeps_its_books_witness :
  handle 1 echo (idle hello) = (Some (Ok tt), idle hello)
  ∧ processing_queries (handle 1 greeting (idle hello)).2 = ∅
  ∧ 7%N ∈ active_channels (handle 1 greeting (idle hello)).2.
Proof.
  destruct (handler_keeps_its_books Fixture.scripted Fixture.search_session
              Fixture.writable Fixture.json_loads Fixture.json_dumps
              Fixture.builtin_str delivers no_commands 1 echo (idle hello))
    as (Hbot & _).
  destruct (handler_keeps_its_books Fixture.scripted Fixture.search_session
              Fixture.writable Fixture.json_loads Fixture.json_dumps
              Fixture.builtin_str delivers no_commands 1 greeting
              (idle hello))
    as (_ & Hbooks & Hactive & _).
  assert (∃ h', handle 1 greeting (idle hello) = (Some (Ok tt), h'))
    as [h' Hrun] by (eexists; vm_compute; reflexivity).
  split_and!.
  - apply Hbot. reflexivity.
  - rewrite Hrun. apply (Hbooks _ _ Hrun).
  - rewrite Hrun. apply (Hactive (Ok tt) h' tt tt); try reflexivity.
    + apply not_elem_of_empty.
    + exact Hrun.
Defined.

Lemma delivers_up : discord_up delivers.
Proof. intros call d. reflexivity. Qed.

(** A greeting is answered in one reply. *)
Lemma answers_reach_the_channel_witness :
  ∃ h',
    handle 1 greeting (idle hello) = (Some (Ok tt), h')
    ∧ processing_queries h' = ∅
    ∧ asked h'
      = [ProcessCommands greeting; Typing 7; Reply greeting "Hello."].
Proof.
  destruct (answers_reach_the_channel Fixture.scripted Fixture.search_session
              Fixture.writable Fixture.json_loads Fixture.json_dumps
              Fixture.builtin_str delivers no_commands 1 greeting
              (idle hello) tt tt [user_says "Hi"; assistant_says "Hello."]
              (Fixture.run Fixture.writable 1 "Hi" hello).2 delivers_up)
    as (h' & Hrun & _ & Hprocessing & _ & Hasked & _);
    [reflexivity|reflexivity|apply not_elem_of_empty|
     vm_compute; reflexivity|reflexivity|].
  exists h'. split_and!; [exact Hrun|exact Hprocessing|exact Hasked].
Defined.

(** A completion that opens a call and does not close it. *)
Definition unread : list (option string) :=
  [Some "<function=search{"; Some "Done."].

Lemma an_unread_call_runs_the_query_again_witness :
  ∃ h',
    handle 1 greeting (idle unread) = (Some (Ok tt), h')
    ∧ asked h'
      = [ProcessCommands greeting; Typing 7; Reply greeting interim_text;
         Edit greeting "Done."].
Proof.
  destruct (an_unread_call_runs_the_query_again Fixture.scripted
              Fixture.search_session Fixture.writable Fixture.json_loads
              Fixture.json_dumps Fixture.builtin_str delivers no_commands 1
              greeting (idle unread) tt tt
              [user_says "Hi"; assistant_says "<function=search{"]
              [user_says "Hi"; assistant_says "Done."]
              (Fixture.run Fixture.writable 1 "Hi" unread).2
              (process_query Fixture.scripted Fixture.search_session
                 Fixture.writable Fixture.json_loads Fixture.json_dumps
                 Fixture.builtin_str 1 "Hi"
                 (Fixture.run Fixture.writable 1 "Hi" unread).2).2
              delivers_up)
    as (_ & h' & Hrun & _ & _ & Hasked);
    [reflexivity|reflexivity|apply not_elem_of_empty|
     vm_compute; reflexivity|reflexivity|vm_compute; reflexivity|].
  exists h'. split; [exact Hrun|exact Hasked].
Defined.

(** The tools command on the session that lists two tools. *)
Lemma tools_command_sends_the_list_witness :
  ∃ h',
    tools_command lists delivers (idle hello) = (Some (Ok tt), h')
    ∧ asked h'
      = [CtxSend ("**Available Tools:**" +:+ newline +:+ newline
                  +:+ "**search**: Search the web" +:+ newline +:+ newline
                  +:+ "**fetch-page**: None" +:+ newline +:+ newline)].
Proof.
  destruct (tools_command_sends_the_list lists delivers (idle hello)
              delivers_up) as [Hlists _].
  destruct (Hlists listed tt eq_refl)
    as (h' & Hrun & Hasked & Hone & _).
  exists h'. split; [exact Hrun|].
  rewrite Hasked, Hone; [reflexivity|vm_compute; lia].
Defined.

(** An answer made by the manager, and a persona it does not know. *)
Lemma manager_messages_are_found_again_witness :
  get_last_assistant_message
    [Conversation.create_user_message (VStr "Hi");
     Conversation.create_assistant_message (VStr "Done.") VNone;
     Conversation.create_tool_message (VStr "call_1") (VStr "42")]
  = "Done."
  ∧ Conversation.get_default_system_message "pirate"
    = Conversation.create_system_message (VStr "You are a helpful assistant.").
Proof.
  destruct manager_messages_are_found_again
    as (Hfound & _ & _ & Hother & _ & _ & Hpersona).
  split.
  - destruct (Hother [Conversation.create_user_message (VStr "Hi");
                      Conversation.create_assistant_message (VStr "Done.")
                        VNone] (VStr "42") (VStr "call_1"))
      as (_ & _ & Htool).
    etrans; [exact Htool|].
    apply (Hfound [Conversation.create_user_message (VStr "Hi")] "Done."
             VNone).
  - etrans; [apply Hpersona; discriminate|reflexivity].
Defined.

(** A message with a key of its own and the content [None], whose items
    have no methods, and a message without a role. *)
Lemma log_keeps_four_keys_witness :
  let entry :=
    ConversationLog.serializable_message (λ _, None) (λ _, None) (λ _, None)
      Fixture.builtin_str in
  (∃ m,
     entry {[ "role" := VStr "user"; "content" := VNone;
              "name" := VStr "Ann" ]} = Ok m
     ∧ m !! "content" = Some (VStr "None") ∧ m !! "name" = None)
  ∧ entry {[ "content" := VStr "Hello." ]} = Err (Exn "KeyError" "'role'").
Proof.
  intros entry.
  destruct (log_keeps_four_keys (λ _, None) (λ _, None) (λ _, None)
              Fixture.builtin_str) as (Hnone & Hkept & _).
  split; [|by apply Hnone].
  assert (∃ m, entry {[ "role" := VStr "user"; "content" := VNone;
                        "name" := VStr "Ann" ]} = Ok m) as [m Hm]
    by (eexists; reflexivity).
  destruct (Hkept _ _ Hm) as (_ & _ & _ & _ & Hrest & Hcontent).
  exists m. split_and!; [exact Hm| |].
  - vm_compute in Hcontent. destruct Hcontent as (s & [= <-] & Hs).
    exact Hs.
  - apply Hrest. intros Hin.
    repeat (apply elem_of_cons in Hin as [Hin|Hin]; [discriminate|]).
    by apply elem_of_nil in Hin.
Defined.

(** A call of a tool the client does not have, and a call whose arguments
    are no JSON. *)
Lemma calls_go_to_the_session_unchecked_witness :
  let call :=
    process_call Fixture.search_session Fixture.writable Fixture.json_loads
      Fixture.json_dumps Fixture.builtin_str in
  (∃ evs,
     trace (call ("lookup", quoted "id" +:+ ":1") (Fixture.client hello)).2
     = evs
     ∧ tool_calls_of evs = [("lookup", VDict [("id", VInt 1)])])
  ∧ ∃ evs,
      trace (call ("search", "oops") (Fixture.client hello)).2 = evs
      ∧ tool_calls_of evs = [].
Proof.
  split.
  - destruct (calls_go_to_the_session_unchecked Fixture.search_session
                Fixture.writable Fixture.json_loads Fixture.json_dumps
                Fixture.builtin_str "lookup" (quoted "id" +:+ ":1")
                (Fixture.client hello)) as (Hdecoded & _).
    apply (Hdecoded (VDict [("id", VInt 1)])). vm_compute. reflexivity.
  - destruct (calls_go_to_the_session_unchecked Fixture.search_session
                Fixture.writable Fixture.json_loads Fixture.json_dumps
                Fixture.builtin_str "search" "oops" (Fixture.client hello))
      as (_ & Hraw & _).
    apply (Hraw (Exn "JSONDecodeError" "Expecting value")).
    vm_compute. reflexivity.
Defined.

(** A list whose second item has a number for text. *)
Lemma formatter_raises_only_on_lists_witness :
  ∃ items i v,
    VList [VStr "a"; VDict [("text", VInt 5)]] = VList items
    ∧ (item_text Fixture.builtin_str <$> items) !! i = Some v
    ∧ (∀ text, v ≠ VStr text)
    ∧ (∀ j, j < i →
            ∃ text,
              (item_text Fixture.builtin_str <$> items) !! j
              = Some (VStr text))
    ∧ Exn "TypeError" "sequence item 1: expected str instance, int found"
      = Exn "TypeError"
          ("sequence item " +:+ pretty i
           +:+ ": expected str instance, " +:+ type_name v +:+ " found").
Proof.
  apply (proj1 (formatter_raises_only_on_lists Fixture.json_dumps
                  Fixture.builtin_str)).
  reflexivity.
Defined.
